(** * A shallow embedding of the file-backed message store

    The development follows the Go source of the file store
    ([fileStore] and its helpers): the store's fields, the five files it
    owns, the operating-system calls it makes and the text formats it
    reads and writes.  Go's [int] and [int64] are 64-bit integers
    carried by [Z]; file contents are lists of bytes; the index is a
    finite map from sequence numbers to [msgDef]. *)

From Stdlib Require Import ZArith Lia Strings.Byte.
From stdpp Require Import gmap strings list fin_maps.

Local Open Scope Z_scope.

(** ** Machine integers *)

Definition int_min : Z := - 2 ^ 63.
Definition int_max : Z := 2 ^ 63 - 1.

Definition in_int (n : Z) : bool := (int_min <=? n) && (n <=? int_max).

(** Two's-complement wrap-around of a 64-bit signed integer. *)
Definition wrap_int (n : Z) : Z := (n + 2 ^ 63) mod 2 ^ 64 - 2 ^ 63.

(** ** Bytes and decimal text *)

#[global] Instance byte_eq_dec : EqDecision byte := Byte.byte_eq_dec.

Definition byte_val (b : byte) : Z := Z.of_N (Byte.to_N b).

Definition is_digit (b : byte) : bool :=
  (48 <=? byte_val b) && (byte_val b <=? 57).

Definition digit_val (b : byte) : Z := byte_val b - 48.

Definition digit_byte (d : Z) : byte :=
  default "0"%byte (Byte.of_N (Z.to_N (48 + d))).

(** The digit loop of [fmt]'s integer formatting: least significant
    digit first, pushed in front of what is already written. *)
Fixpoint digits_aux (fuel : nat) (n : Z) (acc : list byte) : list byte :=
  match fuel with
  | O => acc
  | S f =>
      let acc' := digit_byte (n mod 10) :: acc in
      if n <? 10 then acc' else digits_aux f (n / 10) acc'
  end.

(** Decimal digits of a natural number; [Z.log2 n + 1] rounds suffice. *)
Definition digits (n : Z) : list byte :=
  digits_aux (S (Z.to_nat (Z.log2 n))) n [].

(** [fmt.Sprintf("%d", n)]. *)
Definition fmt_d (n : Z) : list byte :=
  if n <? 0 then "-"%byte :: digits (- n) else digits n.

Definition pad0 (width : nat) (ds : list byte) : list byte :=
  replicate (width - length ds) "0"%byte ++ ds.

(** [fmt.Sprintf("%019d", n)]: the zero padding comes after the sign and
    the sign counts in the width; a number with more digits than the
    width is written in full. *)
Definition fmt_019d (n : Z) : list byte :=
  if n <? 0 then "-"%byte :: pad0 18 (digits (- n)) else pad0 19 (digits n).

Definition digits_value (ds : list byte) : Z :=
  fold_left (fun acc b => 10 * acc + digit_val b) ds 0.

(** An optional sign in front of a text. *)
Definition split_sign (s : list byte) : bool * list byte :=
  match s with
  | b :: r =>
      if decide (b = "-"%byte) then (true, r)
      else if decide (b = "+"%byte) then (false, r)
      else (false, s)
  | [] => (false, [])
  end.

Definition signed_value (neg : bool) (ds : list byte) : Z :=
  if neg then - digits_value ds else digits_value ds.

(** [strconv.Atoi]: an optional sign, then one or more decimal digits and
    nothing else; a value outside [int] is an error. *)
Definition Atoi (s : list byte) : option Z :=
  let '(neg, ds) := split_sign s in
  match ds with
  | [] => None
  | _ :: _ =>
      if forallb is_digit ds then
        let n := signed_value neg ds in
        if in_int n then Some n else None
      else None
  end.

(** ** Scanning a header line: [fmt.Fscanf(f, "%d,%d,%d\n", ...)]

    The verb [%d] skips blanks (not newlines), takes an optional sign and
    the longest run of digits and underscores, and fails on an empty run,
    on an underscore and on a value outside the 64-bit range.  A comma in
    the format matches exactly a comma.  The newline of the format
    matches blanks followed by a newline or by the end of the input.

    The scanner reads its input rune by rune, decoding UTF-8, and takes
    for a blank every rune of its table of spaces, the newline apart:
    U+0009 and U+000B to U+000D, U+0020, U+0085, U+00A0, U+1680, U+2000
    to U+200A, U+2028, U+2029, U+202F, U+205F and U+3000.  A byte
    sequence that is not the UTF-8 encoding of one of them (an overlong
    or cut encoding included) decodes to another rune or to the error
    rune, and is no blank. *)

Definition byte_of (n : Z) : byte := default x00 (Byte.of_N (Z.to_N n)).

(** The UTF-8 encoding of a rune below U+10000. *)
Definition utf8 (r : Z) : list byte :=
  if r <? 128 then [byte_of r]
  else if r <? 2048 then
    [byte_of (Z.lor 192 (Z.shiftr r 6));
     byte_of (Z.lor 128 (Z.land r 63))]
  else
    [byte_of (Z.lor 224 (Z.shiftr r 12));
     byte_of (Z.lor 128 (Z.land (Z.shiftr r 6) 63));
     byte_of (Z.lor 128 (Z.land r 63))].

(** The runes of [fmt]'s table [space], without the newline. *)
Definition blank_runes : list Z :=
  [9; 11; 12; 13; 32; 133; 160; 5760] ++ seqZ 8192 11
  ++ [8232; 8233; 8239; 8287; 12288].

Definition blanks : list (list byte) := map utf8 blank_runes.

(** [s] without the prefix [p], when it starts with [p]. *)
Fixpoint strip_prefix (p s : list byte) : option (list byte) :=
  match p, s with
  | [], _ => Some s
  | a :: p', b :: s' => if decide (a = b) then strip_prefix p' s' else None
  | _ :: _, [] => None
  end.

(** What follows the blank that [s] starts with, if it starts with
    one. *)
Definition blank_prefix (s : list byte) : option (list byte) :=
  head (omap (λ p, strip_prefix p s) blanks).

Definition newline : byte := x0a.
Definition comma : byte := ","%byte.

(** Blanks are skipped one rune at a time; every blank takes at least
    one byte, so [length s] rounds reach the first rune that is none. *)
Fixpoint skip_blanks_aux (fuel : nat) (s : list byte) : list byte :=
  match fuel with
  | O => s
  | S f =>
      match blank_prefix s with
      | Some r => skip_blanks_aux f r
      | None => s
      end
  end.

Definition skip_blanks (s : list byte) : list byte :=
  skip_blanks_aux (length s) s.

Definition is_numchar (b : byte) : bool :=
  is_digit b || bool_decide (b = "_"%byte).

Fixpoint span_number (s : list byte) : list byte * list byte :=
  match s with
  | b :: r =>
      if is_numchar b then
        let '(tok, rest) := span_number r in (b :: tok, rest)
      else ([], s)
  | [] => ([], [])
  end.

Definition scan_int (s : list byte) : option (Z * list byte) :=
  let '(neg, s1) := split_sign (skip_blanks s) in
  let '(tok, rest) := span_number s1 in
  match tok with
  | [] => None
  | _ :: _ =>
      if forallb is_digit tok then
        let n := signed_value neg tok in
        if in_int n then Some (n, rest) else None
      else None
  end.

Definition expect_comma (s : list byte) : option (list byte) :=
  match s with
  | b :: r => if decide (b = comma) then Some r else None
  | [] => None
  end.

Definition expect_newline (s : list byte) : option (list byte) :=
  match skip_blanks s with
  | [] => Some []
  | b :: r => if decide (b = newline) then Some r else None
  end.

(** One call of [Fscanf] with three operands: [Some] stands for
    [cnt = 3 && err == nil], with the three values and the input left. *)
Definition Fscanf_header (s : list byte) : option ((Z * Z * Z) * list byte) :=
  match scan_int s with
  | Some (seqNum, s1) =>
      match expect_comma s1 with
      | Some s2 =>
          match scan_int s2 with
          | Some (offset, s3) =>
              match expect_comma s3 with
              | Some s4 =>
                  match scan_int s4 with
                  | Some (size, s5) =>
                      match expect_newline s5 with
                      | Some s6 => Some ((seqNum, offset, size), s6)
                      | None => None
                      end
                  | None => None
                  end
              | None => None
              end
          | None => None
          end
      | None => None
      end
  | None => None
  end.

(** The line [SaveMessage] writes: [fmt.Fprintf(f, "%d,%d,%d\n", ...)]. *)
Definition header_line (e : Z * Z * Z) : list byte :=
  let '(seqNum, offset, size) := e in
  fmt_d seqNum ++ comma :: fmt_d offset ++ comma :: fmt_d size ++ [newline].


(** ** Errors *)

Inductive error : Type :=
  | ErrInvalid                (* a method called on a nil [*os.File] *)
  | ErrClosed                 (* the file is already closed *)
  | ErrNotExist               (* the file does not exist *)
  | ErrIO                     (* the operating system call failed *)
  | EOF                       (* a read went past the end of the file *)
  | ErrNegativeOffset
  | ErrMarshal                (* the time has no text encoding *)
  | Errorf (what : string) (fname : string) (cause : error).

(** [os.IsNotExist]. *)
Definition IsNotExist (e : error) : bool :=
  match e with ErrNotExist => true | _ => false end.

Inductive result (A : Type) : Type :=
  | Ok (a : A)
  | Err (e : error).
Arguments Ok {A} a.
Arguments Err {A} e.

(** ** The operating system

    A file has the content every reader sees ([data]) and the content
    that has reached stable storage ([durable]); [Sync] copies the first
    to the second.  The world also carries what the environment will do
    next: the readings of the wall clock that [time.Now] is going to
    return, and for each operating-system call to come whether it fails
    ([true]) or not.  Once the list of faults is used up no call fails
    for an outside reason.  A failed call leaves the files as they
    were. *)

Record file := File { data : list byte; durable : list byte }.

Record world := World {
  fs : gmap string file;
  clock : list Z;
  faults : list bool
}.

Definition set_fs (m : gmap string file) (w : world) : world :=
  {| fs := m; clock := clock w; faults := faults w |}.

Definition draw (w : world) : bool * world :=
  match faults w with
  | [] => (false, w)
  | b :: r => (b, {| fs := fs w; clock := clock w; faults := r |})
  end.

(** [time.Now()]; a time is a number of nanoseconds since the epoch. *)
Definition Now (w : world) : Z * world :=
  match clock w with
  | [] => (0, w)
  | t :: r => (t, {| fs := fs w; clock := r; faults := faults w |})
  end.

(** [Time.MarshalText] and [Time.UnmarshalText].  The text is the decimal
    number of nanoseconds, standing for the RFC 3339 text of the library:
    like it, it varies in length, it exists only for the years 0 to 9999,
    and unmarshalling it gives the time back. *)
Definition time_min : Z := -62167219200 * 10 ^ 9.
Definition time_max : Z := 253402300800 * 10 ^ 9 - 1.

Definition in_time (t : Z) : bool := (time_min <=? t) && (t <=? time_max).

Definition MarshalText (t : Z) : result (list byte) :=
  if in_time t then Ok (fmt_d t) else Err ErrMarshal.

Definition UnmarshalText (s : list byte) : option Z :=
  let '(neg, ds) := split_sign s in
  match ds with
  | [] => None
  | _ :: _ =>
      if forallb is_digit ds then
        let t := signed_value neg ds in
        if in_time t then Some t else None
      else None
  end.

(** [os.MkdirAll]; directories are not part of the model. *)
Definition MkdirAll (dirname : string) (w : world) : option error * world :=
  let '(fault, w) := draw w in
  if fault then (Some ErrIO, w) else (None, w).

(** [os.Remove]. *)
Definition Remove (fname : string) (w : world) : option error * world :=
  let '(fault, w) := draw w in
  if fault then (Some ErrIO, w)
  else match fs w !! fname with
       | Some _ => (None, set_fs (delete fname (fs w)) w)
       | None => (Some ErrNotExist, w)
       end.

(** [ioutil.ReadFile]. *)
Definition ReadFile (fname : string) (w : world) : result (list byte) * world :=
  let '(fault, w) := draw w in
  if fault then (Err ErrIO, w)
  else match fs w !! fname with
       | Some f => (Ok (data f), w)
       | None => (Err ErrNotExist, w)
       end.

(** An open file, [*os.File] when it is not nil: its name, the position
    of the next read or write, and whether it has been closed. *)
Record handle := Handle { hname : string; hpos : nat; hclosed : bool }.

(** [os.OpenFile(fname, os.O_RDWR, perm)], with [os.O_CREATE] when
    [create] is set. *)
Definition OpenFile (fname : string) (create : bool) (w : world)
  : result handle * world :=
  let '(fault, w) := draw w in
  if fault then (Err ErrIO, w)
  else
    let h := {| hname := fname; hpos := 0; hclosed := false |} in
    match fs w !! fname with
    | Some _ => (Ok h, w)
    | None =>
        if create
        then (Ok h, set_fs (<[fname := {| data := []; durable := [] |}]> (fs w)) w)
        else (Err ErrNotExist, w)
    end.

(** [f.Close()]: the descriptor is released even when the call fails. *)
Definition File_Close (h : handle) (w : world) : option error * handle * world :=
  if hclosed h then (Some ErrClosed, h, w)
  else
    let h' := {| hname := hname h; hpos := hpos h; hclosed := true |} in
    let '(fault, w) := draw w in
    if fault then (Some ErrIO, h', w) else (None, h', w).

Definition set_pos (p : nat) (h : handle) : handle :=
  {| hname := hname h; hpos := p; hclosed := hclosed h |}.

(** [f.Seek(0, os.SEEK_SET)] and [f.Seek(0, os.SEEK_END)]. *)
Definition File_Seek (to_end : bool) (h : handle) (w : world)
  : result Z * handle * world :=
  if hclosed h then (Err ErrClosed, h, w)
  else
    let '(fault, w) := draw w in
    if fault then (Err ErrIO, h, w)
    else match fs w !! hname h with
         | None => (Err ErrNotExist, h, w)
         | Some f =>
             let p := if to_end then length (data f) else 0%nat in
             (Ok (Z.of_nat p), set_pos p h, w)
         end.

(** Writing [bs] at position [p] of a content: what is there is
    overwritten, what lies after it stays, and a gap before [p] is
    filled with zero bytes. *)
Definition write_at (p : nat) (bs : list byte) (d : list byte) : list byte :=
  take p d ++ replicate (p - length d) x00 ++ bs ++ drop (p + length bs) d.

(** [f.Write(bs)]. *)
Definition File_Write (bs : list byte) (h : handle) (w : world)
  : result Z * handle * world :=
  if hclosed h then (Err ErrClosed, h, w)
  else
    let '(fault, w) := draw w in
    if fault then (Err ErrIO, h, w)
    else match fs w !! hname h with
         | None => (Err ErrNotExist, h, w)
         | Some f =>
             let f' := {| data := write_at (hpos h) bs (data f);
                          durable := durable f |} in
             (Ok (Z.of_nat (length bs)),
              set_pos (hpos h + length bs) h,
              set_fs (<[hname h := f']> (fs w)) w)
         end.

(** [f.Sync()]. *)
Definition File_Sync (h : handle) (w : world) : option error * handle * world :=
  if hclosed h then (Some ErrClosed, h, w)
  else
    let '(fault, w) := draw w in
    if fault then (Some ErrIO, h, w)
    else match fs w !! hname h with
         | None => (Some ErrNotExist, h, w)
         | Some f =>
             (None, h,
              set_fs (<[hname h := {| data := data f; durable := data f |}]> (fs w)) w)
         end.

(** [f.ReadAt(b, off)] with [len(b) = n]: an empty buffer is filled
    without a call to the system; a buffer that the file cannot fill
    from [off] ends in [io.EOF]. *)
Definition File_ReadAt (n : nat) (off : Z) (h : handle) (w : world)
  : result (list byte) * world :=
  if off <? 0 then (Err ErrNegativeOffset, w)
  else match n with
       | O => (Ok [], w)
       | S _ =>
           if hclosed h then (Err ErrClosed, w)
           else
             let '(fault, w) := draw w in
             if fault then (Err ErrIO, w)
             else match fs w !! hname h with
                  | None => (Err ErrNotExist, w)
                  | Some f =>
                      if (Z.to_nat off + n <=? length (data f))%nat
                      then (Ok (take n (drop (Z.to_nat off) (data f))), w)
                      else (Err EOF, w)
                  end
       end.

(** ** The sequence cache *)

Module MemoryStore.

(** Modelled from the spec: the type [memoryStore] and its methods are
    not among the sources; the file store only calls them.  Section 4.1
    of the specification gives the record (creation time and the two
    next sequence numbers) and the methods: pure reads, unconditional
    overwrites, [n <- n + 1] (here on a 64-bit [int]), and a reset to
    [creationTime = now] with both numbers at 1.  None of them fails. *)
Record memoryStore := Cache {
  senderMsgSeqNum : Z;
  targetMsgSeqNum : Z;
  creationTime : Z
}.

(** The zero value [&memoryStore{}]. *)
Definition zero : memoryStore :=
  {| senderMsgSeqNum := 0; targetMsgSeqNum := 0; creationTime := 0 |}.

Definition NextSenderMsgSeqNum (c : memoryStore) : Z := senderMsgSeqNum c.
Definition NextTargetMsgSeqNum (c : memoryStore) : Z := targetMsgSeqNum c.
Definition CreationTime (c : memoryStore) : Z := creationTime c.

Definition SetNextSenderMsgSeqNum (next : Z) (c : memoryStore) : memoryStore :=
  {| senderMsgSeqNum := next;
     targetMsgSeqNum := targetMsgSeqNum c;
     creationTime := creationTime c |}.

Definition SetNextTargetMsgSeqNum (next : Z) (c : memoryStore) : memoryStore :=
  {| senderMsgSeqNum := senderMsgSeqNum c;
     targetMsgSeqNum := next;
     creationTime := creationTime c |}.

Definition IncrNextSenderMsgSeqNum (c : memoryStore) : memoryStore :=
  SetNextSenderMsgSeqNum (wrap_int (senderMsgSeqNum c + 1)) c.

Definition IncrNextTargetMsgSeqNum (c : memoryStore) : memoryStore :=
  SetNextTargetMsgSeqNum (wrap_int (targetMsgSeqNum c + 1)) c.

Definition set_creationTime (t : Z) (c : memoryStore) : memoryStore :=
  {| senderMsgSeqNum := senderMsgSeqNum c;
     targetMsgSeqNum := targetMsgSeqNum c;
     creationTime := t |}.

Definition Reset (now : Z) : memoryStore :=
  {| senderMsgSeqNum := 1; targetMsgSeqNum := 1; creationTime := now |}.

End MemoryStore.

Abbreviation memoryStore := MemoryStore.memoryStore.

(** ** The file store *)

Record msgDef := MsgDef { offset : Z; size : Z }.

Record fileStore := FileStore {
  sessionID : string;
  cache : memoryStore;
  offsets : gmap Z msgDef;
  bodyFname : string;
  headerFname : string;
  sessionFname : string;
  senderSeqNumsFname : string;
  targetSeqNumsFname : string;
  bodyFile : option handle;
  headerFile : option handle;
  sessionFile : option handle;
  senderSeqNumsFile : option handle;
  targetSeqNumsFile : option handle
}.

(** The five files of a store. *)
Inductive which := Body | Header | Session | SenderSeqNums | TargetSeqNums.

#[global] Instance which_eq_dec : EqDecision which.
Proof. solve_decision. Defined.

Definition fname_of (k : which) (st : fileStore) : string :=
  match k with
  | Body => bodyFname st
  | Header => headerFname st
  | Session => sessionFname st
  | SenderSeqNums => senderSeqNumsFname st
  | TargetSeqNums => targetSeqNumsFname st
  end.

Definition file_of (k : which) (st : fileStore) : option handle :=
  match k with
  | Body => bodyFile st
  | Header => headerFile st
  | Session => sessionFile st
  | SenderSeqNums => senderSeqNumsFile st
  | TargetSeqNums => targetSeqNumsFile st
  end.

Definition set_files (b h s sn tn : option handle) (st : fileStore) : fileStore :=
  {| sessionID := sessionID st; cache := cache st; offsets := offsets st;
     bodyFname := bodyFname st; headerFname := headerFname st;
     sessionFname := sessionFname st;
     senderSeqNumsFname := senderSeqNumsFname st;
     targetSeqNumsFname := targetSeqNumsFname st;
     bodyFile := b; headerFile := h; sessionFile := s;
     senderSeqNumsFile := sn; targetSeqNumsFile := tn |}.

Definition set_file (k : which) (f : option handle) (st : fileStore) : fileStore :=
  match k with
  | Body =>
      set_files f (headerFile st) (sessionFile st)
        (senderSeqNumsFile st) (targetSeqNumsFile st) st
  | Header =>
      set_files (bodyFile st) f (sessionFile st)
        (senderSeqNumsFile st) (targetSeqNumsFile st) st
  | Session =>
      set_files (bodyFile st) (headerFile st) f
        (senderSeqNumsFile st) (targetSeqNumsFile st) st
  | SenderSeqNums =>
      set_files (bodyFile st) (headerFile st) (sessionFile st)
        f (targetSeqNumsFile st) st
  | TargetSeqNums =>
      set_files (bodyFile st) (headerFile st) (sessionFile st)
        (senderSeqNumsFile st) f st
  end.

Definition set_cache (c : memoryStore) (st : fileStore) : fileStore :=
  {| sessionID := sessionID st; cache := c; offsets := offsets st;
     bodyFname := bodyFname st; headerFname := headerFname st;
     sessionFname := sessionFname st;
     senderSeqNumsFname := senderSeqNumsFname st;
     targetSeqNumsFname := targetSeqNumsFname st;
     bodyFile := bodyFile st; headerFile := headerFile st;
     sessionFile := sessionFile st;
     senderSeqNumsFile := senderSeqNumsFile st;
     targetSeqNumsFile := targetSeqNumsFile st |}.

Definition set_offsets (m : gmap Z msgDef) (st : fileStore) : fileStore :=
  {| sessionID := sessionID st; cache := cache st; offsets := m;
     bodyFname := bodyFname st; headerFname := headerFname st;
     sessionFname := sessionFname st;
     senderSeqNumsFname := senderSeqNumsFname st;
     targetSeqNumsFname := targetSeqNumsFname st;
     bodyFile := bodyFile st; headerFile := headerFile st;
     sessionFile := sessionFile st;
     senderSeqNumsFile := senderSeqNumsFile st;
     targetSeqNumsFile := targetSeqNumsFile st |}.

(** ** Methods: state passing over the store and the world

    A method runs on the store it is called on and on the world, and it
    either returns or panics (a nil dereference, a negative length given
    to [make]); the store and the world it leaves are there in both
    cases. *)

Inductive outcome (A : Type) : Type :=
  | Return (a : A)
  | Panicked.
Arguments Return {A} a.
Arguments Panicked {A}.

Definition M (A : Type) : Type :=
  fileStore → world → outcome A * fileStore * world.

Definition ret {A} (a : A) : M A := λ st w, (Return a, st, w).

Definition panic {A} : M A := λ st w, (Panicked, st, w).

Definition bind {A B} (c : M A) (k : A → M B) : M B := λ st w,
  match c st w with
  | (Return a, st', w') => k a st' w'
  | (Panicked, st', w') => (Panicked, st', w')
  end.

(** [if err := c; err != nil { return err }], then [k]. *)
Definition check (c : M (option error)) (k : M (option error)) : M (option error) :=
  bind c (λ e, match e with Some _ => ret e | None => k end).

Notation "'let!' x ':=' c 'in' k" := (bind c (λ x, k))
  (at level 10, x pattern, c at level 100, k at level 200).
Notation "'try!' c 'in' k" := (check c k)
  (at level 10, c at level 100, k at level 200).

Definition get : M fileStore := λ st w, (Return st, st, w).
Definition modify (f : fileStore → fileStore) : M unit :=
  λ st w, (Return tt, f st, w).
Definition sys {A} (c : world → A * world) : M A :=
  λ st w, let '(a, w') := c w in (Return a, st, w').

(** A call on one of the store's files: on a nil [*os.File] the methods
    of [os.File] return [os.ErrInvalid]. *)
Definition on_file {A} (k : which)
    (op : handle → world → result A * handle * world) : M (result A) :=
  λ st w,
    match file_of k st with
    | None => (Return (Err ErrInvalid), st, w)
    | Some h =>
        let '(r, h', w') := op h w in (Return r, set_file k (Some h') st, w')
    end.

Definition on_file_err (k : which)
    (op : handle → world → option error * handle * world) : M (option error) :=
  λ st w,
    match file_of k st with
    | None => (Return (Some ErrInvalid), st, w)
    | Some h =>
        let '(r, h', w') := op h w in (Return r, set_file k (Some h') st, w')
    end.

(** [path.Join(dirname, name)], without the cleaning of the path. *)
Definition Join (dirname name : string) : string := dirname +:+ "/" +:+ name.

(** removeFile behaves like [os.Remove], except that no error is returned
    if the file does not exist. *)
Definition removeFile (fname : string) : M (option error) :=
  let! err := sys (Remove fname) in
  match err with
  | Some e => if negb (IsNotExist e) then ret (Some e) else ret None
  | None => ret None
  end.

(** openOrCreateFile opens a file for reading and writing, creating it if
    necessary. *)
Definition openOrCreateFile (fname : string) : M (result handle) :=
  let! r := sys (OpenFile fname false) in
  match r with
  | Ok f => ret (Ok f)
  | Err _ =>
      let! r := sys (OpenFile fname true) in
      match r with
      | Ok f => ret (Ok f)
      | Err e => ret (Err (Errorf "error opening or creating file" fname e))
      end
  end.

(** closeFile behaves like [Close], except that no error is returned if
    the file does not exist. *)
Definition closeFile (k : which) : M (option error) :=
  let! st := get in
  match file_of k st with
  | None => ret None
  | Some _ =>
      let! err := on_file_err k File_Close in
      match err with
      | Some e => if negb (IsNotExist e) then ret (Some e) else ret None
      | None => ret None
      end
  end.

(** Close closes the store's files. *)
Definition Close : M (option error) :=
  try! closeFile Body in
  try! closeFile Header in
  try! closeFile Session in
  try! closeFile SenderSeqNums in
  try! closeFile TargetSeqNums in
  let! _ := modify (set_files None None None None None) in
  ret None.

(** [store.cache.Reset()]. *)
Definition cache_Reset : M unit :=
  let! now := sys Now in
  modify (λ st, set_cache (MemoryStore.Reset now) st).

(** The scan of the header file in [populateCache]: one [Fscanf] per
    round, until one does not give three values.  Every call reads from
    the file and so may fail for an outside reason.  A successful call
    consumes input, so [length s + 1] rounds reach the end. *)
Fixpoint scan_header (fuel : nat) (s : list byte) (offs : gmap Z msgDef)
    (w : world) : gmap Z msgDef * world :=
  match fuel with
  | O => (offs, w)
  | S f =>
      let '(fault, w) := draw w in
      if fault then (offs, w)
      else match Fscanf_header s with
           | Some ((seqNum, offset, size), rest) =>
               scan_header f rest
                 (<[seqNum := {| offset := offset; size := size |}]> offs) w
           | None => (offs, w)
           end
  end.

Definition content_of (h : handle) (w : world) : list byte :=
  match fs w !! hname h with
  | Some f => data f
  | None => []
  end.

Definition populateCache : M (bool * option error) :=
  let! st := get in
  let! tmpHeaderFile := sys (OpenFile (headerFname st) false) in
  let! _ :=
    match tmpHeaderFile with
    | Ok h =>
        let! s := sys (λ w, (content_of h w, w)) in
        let! offs := sys (scan_header (S (length s)) s (offsets st)) in
        modify (set_offsets offs)
    | Err _ => ret tt
    end in
  let! timeBytes := sys (ReadFile (sessionFname st)) in
  let! creationTimePopulated :=
    match timeBytes with
    | Ok bs =>
        match UnmarshalText bs with
        | Some ctime =>
            let! _ := modify (λ st,
              set_cache (MemoryStore.set_creationTime ctime (cache st)) st) in
            ret true
        | None => ret false
        end
    | Err _ => ret false
    end in
  let! senderSeqNumBytes := sys (ReadFile (senderSeqNumsFname st)) in
  let! _ :=
    match senderSeqNumBytes with
    | Ok bs =>
        match Atoi bs with
        | Some senderSeqNum => modify (λ st,
            set_cache (MemoryStore.SetNextSenderMsgSeqNum senderSeqNum (cache st)) st)
        | None => ret tt
        end
    | Err _ => ret tt
    end in
  let! targetSeqNumBytes := sys (ReadFile (targetSeqNumsFname st)) in
  let! _ :=
    match targetSeqNumBytes with
    | Ok bs =>
        match Atoi bs with
        | Some targetSeqNum => modify (λ st,
            set_cache (MemoryStore.SetNextTargetMsgSeqNum targetSeqNum (cache st)) st)
        | None => ret tt
        end
    | Err _ => ret tt
    end in
  (* the deferred [tmpHeaderFile.Close()], its result dropped *)
  let! _ :=
    match tmpHeaderFile with
    | Ok h => sys (λ w, let '(_, _, w') := File_Close h w in (tt, w'))
    | Err _ => ret tt
    end in
  ret (creationTimePopulated, None).

Definition setSession : M (option error) :=
  let! st := get in
  let! r := on_file Session (File_Seek false) in
  match r with
  | Err e => ret (Some (Errorf "unable to rewind file" (sessionFname st) e))
  | Ok _ =>
      match MarshalText (MemoryStore.CreationTime (cache st)) with
      | Err e =>
          ret (Some (Errorf "unable to marshal session time to file"
                       (sessionFname st) e))
      | Ok bs =>
          let! r := on_file Session (File_Write bs) in
          match r with
          | Err e =>
              ret (Some (Errorf "unable to write to file" (sessionFname st) e))
          | Ok _ =>
              let! err := on_file_err Session File_Sync in
              match err with
              | Some e =>
                  ret (Some (Errorf "unable to flush file" (sessionFname st) e))
              | None => ret None
              end
          end
      end
  end.

(** [setSeqNum(f, seqNum)], [f] being the file [k] of the store.  With a
    nil [f] the seek returns an error, and building its message calls
    [f.Name()], which dereferences nil. *)
Definition setSeqNum (k : which) (seqNum : Z) : M (option error) :=
  let! st := get in
  match file_of k st with
  | None => panic
  | Some f =>
      let! r := on_file k (File_Seek false) in
      match r with
      | Err e => ret (Some (Errorf "unable to rewind file" (hname f) e))
      | Ok _ =>
          let! r := on_file k (File_Write (fmt_019d seqNum)) in
          match r with
          | Err e => ret (Some (Errorf "unable to write to file" (hname f) e))
          | Ok _ =>
              let! err := on_file_err k File_Sync in
              match err with
              | Some e => ret (Some (Errorf "unable to flush file" (hname f) e))
              | None => ret None
              end
          end
      end
  end.

(** NextSenderMsgSeqNum returns the next MsgSeqNum that will be sent. *)
Definition NextSenderMsgSeqNum (st : fileStore) : Z :=
  MemoryStore.NextSenderMsgSeqNum (cache st).

(** NextTargetMsgSeqNum returns the next MsgSeqNum that should be
    received. *)
Definition NextTargetMsgSeqNum (st : fileStore) : Z :=
  MemoryStore.NextTargetMsgSeqNum (cache st).

(** CreationTime returns the creation time of the store. *)
Definition CreationTime (st : fileStore) : Z :=
  MemoryStore.CreationTime (cache st).

Definition SetNextSenderMsgSeqNum (next : Z) : M (option error) :=
  let! _ := modify (λ st,
    set_cache (MemoryStore.SetNextSenderMsgSeqNum next (cache st)) st) in
  setSeqNum SenderSeqNums next.

Definition SetNextTargetMsgSeqNum (next : Z) : M (option error) :=
  let! _ := modify (λ st,
    set_cache (MemoryStore.SetNextTargetMsgSeqNum next (cache st)) st) in
  setSeqNum TargetSeqNums next.

Definition IncrNextSenderMsgSeqNum : M (option error) :=
  let! _ := modify (λ st,
    set_cache (MemoryStore.IncrNextSenderMsgSeqNum (cache st)) st) in
  let! st := get in
  setSeqNum SenderSeqNums (MemoryStore.NextSenderMsgSeqNum (cache st)).

Definition IncrNextTargetMsgSeqNum : M (option error) :=
  let! _ := modify (λ st,
    set_cache (MemoryStore.IncrNextTargetMsgSeqNum (cache st)) st) in
  let! st := get in
  setSeqNum TargetSeqNums (MemoryStore.NextTargetMsgSeqNum (cache st)).

Definition SaveMessage (seqNum : Z) (msg : list byte) : M (option error) :=
  let! st := get in
  let! r := on_file Body (File_Seek true) in
  match r with
  | Err e =>
      ret (Some (Errorf "unable to seek to end of file" (bodyFname st) e))
  | Ok offset =>
      let! r := on_file Header (File_Seek true) in
      match r with
      | Err e =>
          ret (Some (Errorf "unable to seek to end of file" (headerFname st) e))
      | Ok _ =>
          let! r := on_file Header
            (File_Write (header_line (seqNum, offset, Z.of_nat (length msg)))) in
          match r with
          | Err e =>
              ret (Some (Errorf "unable to write to file" (headerFname st) e))
          | Ok _ =>
              let! _ := modify (λ st, set_offsets
                (<[seqNum := {| offset := offset;
                                size := Z.of_nat (length msg) |}]> (offsets st)) st) in
              let! r := on_file Body (File_Write msg) in
              match r with
              | Err e =>
                  ret (Some (Errorf "unable to write to file" (bodyFname st) e))
              | Ok _ =>
                  let! err := on_file_err Body File_Sync in
                  match err with
                  | Some e =>
                      ret (Some (Errorf "unable to flush file" (bodyFname st) e))
                  | None =>
                      let! err := on_file_err Header File_Sync in
                      match err with
                      | Some e =>
                          ret (Some (Errorf "unable to flush file"
                                       (headerFname st) e))
                      | None => ret None
                      end
                  end
              end
          end
      end
  end.

(** [getMessage]: the message, whether the index has the number, and the
    error.  [make([]byte, size)] panics on a negative size.  The limit
    of the allocator is not part of the model: for a size beyond it the
    program panics as well, where the model goes on to the read, which
    ends in [io.EOF] since no body is that long.  [SaveMessage] puts no
    such size into the index. *)
Definition getMessage (seqNum : Z) : M (list byte * bool * option error) :=
  let! st := get in
  match offsets st !! seqNum with
  | None => ret ([], false, None)
  | Some msgInfo =>
      if size msgInfo <? 0 then panic
      else
        let! r := on_file Body (λ h w,
          let '(r, w') :=
            File_ReadAt (Z.to_nat (size msgInfo)) (offset msgInfo) h w in
          (r, h, w')) in
        match r with
        | Err e =>
            ret ([], true,
                 Some (Errorf "unable to read from file" (bodyFname st) e))
        | Ok msg => ret (msg, true, None)
        end
  end.

(** The loop of [GetMessages], [for seqNum := beginSeqNum; seqNum <=
    endSeqNum; seqNum++], one round per unit of fuel; [seqNum++] wraps
    around.  [None] is a loop still running when the fuel is used up. *)
Fixpoint GetMessages_loop (fuel : nat) (seqNum endSeqNum : Z)
    (msgs : list (list byte)) : M (option (list (list byte) * option error)) :=
  match fuel with
  | O => ret None
  | S f =>
      if seqNum <=? endSeqNum then
        let! r := getMessage seqNum in
        let '(m, found, err) := r in
        match err with
        | Some e => ret (Some ([], Some e))
        | None =>
            GetMessages_loop f (wrap_int (seqNum + 1)) endSeqNum
              (if found : bool then msgs ++ [m] else msgs)
        end
      else ret (Some (msgs, None))
  end.

Definition GetMessages (fuel : nat) (beginSeqNum endSeqNum : Z)
  : M (option (list (list byte) * option error)) :=
  GetMessages_loop fuel beginSeqNum endSeqNum [].

(** [store.f, err = openOrCreateFile(store.fname, 0660)] for the file [k]. *)
Definition open (k : which) : M (option error) :=
  let! st := get in
  let! r := openOrCreateFile (fname_of k st) in
  match r with
  | Ok f => let! _ := modify (set_file k (Some f)) in ret None
  | Err e => let! _ := modify (set_file k None) in ret (Some e)
  end.

(** Refresh closes the store files and then reloads from them. *)
Definition Refresh : M (option error) :=
  let! _ := cache_Reset in
  try! Close in
  let! r := populateCache in
  let '(creationTimePopulated, err) := r in
  match err with
  | Some e => ret (Some e)
  | None =>
      try! open Body in
      try! open Header in
      try! open Session in
      try! open SenderSeqNums in
      try! open TargetSeqNums in
      try! (if negb creationTimePopulated then setSession else ret None) in
      let! st := get in
      let! _ := SetNextSenderMsgSeqNum (NextSenderMsgSeqNum st) in
      let! st := get in
      let! _ := SetNextTargetMsgSeqNum (NextTargetMsgSeqNum st) in
      ret None
  end.

(** Reset deletes the store files and sets the seqnums back to 1. *)
Definition Reset : M (option error) :=
  let! _ := cache_Reset in
  try! Close in
  let! st := get in
  try! removeFile (bodyFname st) in
  try! removeFile (headerFname st) in
  try! removeFile (sessionFname st) in
  try! removeFile (senderSeqNumsFname st) in
  try! removeFile (targetSeqNumsFname st) in
  Refresh.

(** The store [newFileStore] builds before it calls [Refresh]. *)
Definition blank_store (sessionID dirname : string) : fileStore :=
  {| sessionID := sessionID;
     cache := MemoryStore.zero;
     offsets := ∅;
     bodyFname := Join dirname (sessionID +:+ "." +:+ "body");
     headerFname := Join dirname (sessionID +:+ "." +:+ "header");
     sessionFname := Join dirname (sessionID +:+ "." +:+ "session");
     senderSeqNumsFname := Join dirname (sessionID +:+ "." +:+ "senderseqnums");
     targetSeqNumsFname := Join dirname (sessionID +:+ "." +:+ "targetseqnums");
     bodyFile := None; headerFile := None; sessionFile := None;
     senderSeqNumsFile := None; targetSeqNumsFile := None |}.

Definition newFileStore (sessionID dirname : string) (w : world)
  : outcome (result fileStore) * world :=
  match MkdirAll dirname w with
  | (Some e, w) => (Return (Err e), w)
  | (None, w) =>
      match Refresh (blank_store sessionID dirname) w with
      | (Return (Some e), _, w) => (Return (Err e), w)
      | (Return None, store, w) => (Return (Ok store), w)
      | (Panicked, _, w) => (Panicked, w)
      end
  end.

(** FileStorePath is the name of the filesystem directory that will be
    used. *)
Definition FileStorePath : string := "FileStorePath".

Inductive config_error := SettingNotFound (sessionID setting : string).

(** Create creates a new FileStore implementation of the MessageStore
    interface. *)
Definition Create (sessionID : string) (sessionSettings : gmap string string)
    (w : world) : (config_error + outcome (result fileStore)) * world :=
  match sessionSettings !! FileStorePath with
  | None => (inl (SettingNotFound sessionID FileStorePath), w)
  | Some dirname =>
      let '(r, w') := newFileStore sessionID dirname w in (inr r, w')
  end.

(** ** Notions used to state the properties *)

(** The three parts of what a method leaves. *)
Definition outcome_of {A} (x : outcome A * fileStore * world) : outcome A := x.1.1.
Definition store_of {A} (x : outcome A * fileStore * world) : fileStore := x.1.2.
Definition world_of {A} (x : outcome A * fileStore * world) : world := x.2.

(** A header entry whose three numbers fit Go's integers. *)
Definition entry_in_int (e : Z * Z * Z) : Prop :=
  in_int e.1.1 = true ∧ in_int e.1.2 = true ∧ in_int e.2 = true.

(** Two stores that differ at most in their open files. *)
Definition same_data (st st' : fileStore) : Prop :=
  sessionID st' = sessionID st ∧ cache st' = cache st
  ∧ offsets st' = offsets st ∧ ∀ k, fname_of k st' = fname_of k st.

(** [keeps c]: whatever happens, [c] changes at most the open files of
    the store. *)
Definition keeps {A} (c : M A) : Prop :=
  ∀ st w, same_data st (store_of (c st w)).

(** The sequence numbers of [b..e], in increasing order, that the index
    [offs] has an entry for. *)
Definition indexed_range (offs : gmap Z msgDef) (b e : Z) : list Z :=
  filter (λ seqNum, is_Some (offs !! seqNum)) (seqZ b (e - b + 1)).

(** Reading the messages of [seqNums] one after the other behind [msgs]:
    the first read that fails ends it, with the error and no message. *)
Fixpoint read_present (seqNums : list Z) (msgs : list (list byte))
  : M (list (list byte) * option error) :=
  match seqNums with
  | [] => ret (msgs, None)
  | seqNum :: rest =>
      let! r := getMessage seqNum in
      let '(m, _, err) := r in
      match err with
      | Some e => ret ([], Some e)
      | None => read_present rest (msgs ++ [m])
      end
  end.

(** The [size] bytes at [offset] of a body. *)
Definition message_at (body : list byte) (d : msgDef) : list byte :=
  take (Z.to_nat (size d)) (drop (Z.to_nat (offset d)) body).

(** An entry that lies inside a body of the given content. *)
Definition entry_inside (body : list byte) (d : msgDef) : Prop :=
  0 <= offset d ∧ 0 <= size d ∧ offset d + size d <= Z.of_nat (length body).

(** The text of a header file made of the lines of [es]. *)
Definition header_text (es : list (Z * Z * Z)) : list byte :=
  concat (map header_line es).

(** The index built by taking the entries [es] one after the other over
    [offs]. *)
Definition index_of (es : list (Z * Z * Z)) (offs : gmap Z msgDef)
  : gmap Z msgDef :=
  fold_left
    (λ m e, <[e.1.1 := {| offset := e.1.2; size := e.2 |}]> m) es offs.

(** The entry of the last line of [es] that carries [seqNum]. *)
Fixpoint last_entry (seqNum : Z) (es : list (Z * Z * Z)) : option msgDef :=
  match es with
  | [] => None
  | e :: rest =>
      match last_entry seqNum rest with
      | Some d => Some d
      | None =>
          if decide (e.1.1 = seqNum)
          then Some {| offset := e.1.2; size := e.2 |}
          else None
      end
  end.

(** A number that [%019d] writes in exactly 19 bytes. *)
Definition fits_width (n : Z) : Prop := - 10 ^ 18 < n < 10 ^ 19.

(** What a parser makes of the content of a file, if the file is there. *)
Definition disk_value {A} (parse : list byte → option A) (fname : string)
    (w : world) : option A :=
  match fs w !! fname with
  | Some f => parse (data f)
  | None => None
  end.

(** The index [populateCache] leaves: the scan of the header file over
    the entries the store had, or those entries when the file cannot be
    opened. *)
Definition scanned_offsets (st : fileStore) (w : world) : gmap Z msgDef :=
  match fs w !! headerFname st with
  | Some f => (scan_header (S (length (data f))) (data f) (offsets st) w).1
  | None => offsets st
  end.

(** The cache [populateCache] leaves: what the session file and the two
    counter files give replaces what the cache had. *)
Definition populated_cache (st : fileStore) (w : world) : memoryStore :=
  let c := cache st in
  let c := match disk_value UnmarshalText (sessionFname st) w with
           | Some ctime => MemoryStore.set_creationTime ctime c
           | None => c
           end in
  let c := match disk_value Atoi (senderSeqNumsFname st) w with
           | Some n => MemoryStore.SetNextSenderMsgSeqNum n c
           | None => c
           end in
  match disk_value Atoi (targetSeqNumsFname st) w with
  | Some n => MemoryStore.SetNextTargetMsgSeqNum n c
  | None => c
  end.

(** [returns P c]: [c] never panics, and what it returns satisfies [P]. *)
Definition returns {A} (P : A → Prop) (c : M A) : Prop :=
  ∀ st w, ∃ a, outcome_of (c st w) = Return a ∧ P a.

(** ** Example runs *)

Definition text (s : string) : list byte := String.list_byte_of_string s.

(** An empty directory, a clock and no outside failure. *)
Definition fresh_world : world :=
  {| fs := ∅; clock := [100; 200; 300; 400; 500; 600]; faults := [] |}.

Definition run {A} (c : M A) (x : fileStore * world) : fileStore * world :=
  let '(_, st, w) := c x.1 x.2 in (st, w).

(** A store opened on the empty directory. *)
Definition opened : fileStore * world :=
  match newFileStore "S" "d" fresh_world with
  | (Return (Ok st), w) => (st, w)
  | (_, w) => (blank_store "S" "d", w)
  end.

(** Messages 1 and 3 saved, 2 left out. *)
Definition saved : fileStore * world :=
  run (SaveMessage 3 (text "C")) (run (SaveMessage 1 (text "A")) opened).

Definition after_reset : fileStore * world := run Reset saved.

(** Message 7 saved after the reset. *)
Definition resaved : fileStore * world :=
  run (SaveMessage 7 (text "ZZ")) after_reset.

(** The files after a crash in the middle of an append: message 1, of 12
    bytes, is saved; of the header line of message 2, of 34 bytes, the
    first [n] bytes have reached the header file, and nothing of the
    message has reached the body file. *)
Definition world_with_cut_header (n : nat) : world :=
  {| fs := {[ "d/S.header" :=
               {| data := header_line (1, 0, 12)
                          ++ take n (header_line (2, 12, 34));
                  durable := [] |};
              "d/S.body" :=
               {| data := text "AAAAAAAAAAAA"; durable := [] |} ]};
     clock := [100; 200]; faults := [] |}.

(** The empty directory again, where the twentieth call to the operating
    system fails: in [newFileStore] that is the write of the sender
    counter. *)
Definition world_failing_counter_write : world :=
  {| fs := ∅; clock := [100; 200]; faults := replicate 19 false ++ [true] |}.

(** A header file with two good lines, both for number 1, then a short
    line and a good line after it. *)
Definition world_with_short_line : world :=
  {| fs := {[ "d/S.header" :=
               {| data := header_text [(1, 0, 1); (1, 5, 2)]
                          ++ text "7,3" ++ [newline] ++ header_line (9, 9, 9);
                  durable := [] |} ]};
     clock := []; faults := [] |}.

(** A world like [w] in which the second call to the operating system
    fails. *)
Definition second_call_fails (w : world) : world :=
  {| fs := fs w; clock := clock w; faults := [false; true] |}.


(** The settings of a session whose store is in the directory [d]. *)
Definition settings_d : gmap string string := {[ FileStorePath := "d" ]}.

(** A world like [w] in which the fourth call to the operating system
    fails. *)
Definition fourth_call_fails (w : world) : world :=
  {| fs := fs w; clock := clock w; faults := [false; false; false; true] |}.

(** The store of [saved] closed, in a world where the sender counter file
    has lost its content. *)
Definition saved_with_empty_counter : fileStore * world :=
  (set_files None None None None None saved.1,
   set_fs (<["d/S.senderseqnums" := {| data := []; durable := [] |}]>
             (fs saved.2)) saved.2).

(** A step of the world that leaves every file but [name] as it was and
    brings no outside failure. *)
Definition only_touches (name : string) (w w' : world) : Prop :=
  (∀ n, n ≠ name → fs w' !! n = fs w !! n)
  ∧ (faults w = [] → faults w' = []).

(** A call on an open file that keeps the name of the file and touches no
    other file. *)
Definition op_frame {A} (op : handle → world → A * handle * world) : Prop :=
  ∀ h w, let '(r, h', w') := op h w in
         (hname h' = hname h ∧ hclosed h' = hclosed h)
         ∧ only_touches (hname h) w w'.

(** [f.ReadAt] on an open file when the call itself does not fail. *)
Definition read_at (n : nat) (off : Z) (f : option file) : result (list byte) :=
  if off <? 0 then Err ErrNegativeOffset
  else match n with
       | O => Ok []
       | S _ =>
           match f with
           | None => Err ErrNotExist
           | Some f =>
               if (Z.to_nat off + n <=? length (data f))%nat
               then Ok (take n (drop (Z.to_nat off) (data f)))
               else Err EOF
           end
       end.

(** What [getMessage] gives for an index entry [d] (or none), the body
    file open and no call failing for an outside reason. *)
Definition read_outcome (d : option msgDef) (bname : string) (f : option file)
  : outcome (list byte * bool * option error) :=
  match d with
  | None => Return ([], false, None)
  | Some d =>
      if size d <? 0 then Panicked
      else match read_at (Z.to_nat (size d)) (offset d) f with
           | Err e =>
               Return ([], true, Some (Errorf "unable to read from file" bname e))
           | Ok msg => Return (msg, true, None)
           end
  end.

(** The store and its files say the same: the five files are open under
    five different names, the header file is the text of the lines that
    build the index, and the session file and the two counter files
    parse to what the cache holds. *)
Record synced (st : fileStore) (w : world) : Prop := Synced {
  synced_names : ∀ k k', k ≠ k' → fname_of k st ≠ fname_of k' st;
  synced_open :
    ∀ k, ∃ h, file_of k st = Some h ∧ hname h = fname_of k st
              ∧ hclosed h = false;
  synced_files : ∀ k, is_Some (fs w !! fname_of k st);
  synced_index :
    ∃ hf es, fs w !! headerFname st = Some hf ∧ data hf = header_text es
             ∧ Forall entry_in_int es ∧ offsets st = index_of es ∅;
  synced_time :
    disk_value UnmarshalText (sessionFname st) w = Some (CreationTime st);
  synced_sender :
    disk_value Atoi (senderSeqNumsFname st) w = Some (NextSenderMsgSeqNum st);
  synced_target :
    disk_value Atoi (targetSeqNumsFname st) w = Some (NextTargetMsgSeqNum st)
}.

(** Two stores, each in its world, that answer alike: the same next
    sequence numbers, the same creation time, and the same result of
    [GetMessages] on every range. *)
Definition same_observations (st : fileStore) (w : world)
    (st' : fileStore) (w' : world) : Prop :=
  NextSenderMsgSeqNum st' = NextSenderMsgSeqNum st
  ∧ NextTargetMsgSeqNum st' = NextTargetMsgSeqNum st
  ∧ CreationTime st' = CreationTime st
  ∧ ∀ fuel b e,
      outcome_of (GetMessages fuel b e st' w')
      = outcome_of (GetMessages fuel b e st w).

(** Both counter files hold exactly the 19 bytes of a counter. *)
Definition counters_canonical (st : fileStore) (w : world) : Prop :=
  ∀ k, k = SenderSeqNums ∨ k = TargetSeqNums →
       ∃ f, fs w !! fname_of k st = Some f ∧ length (data f) = 19%nat.

(** ** Notions for what the methods leave and keep *)

(** The calls of [closeFile] that [Close] makes for the files [ks], one
    after the other until one returns an error, and then [k]. *)
Fixpoint closeFiles (ks : list which) (k : M (option error)) : M (option error) :=
  match ks with
  | [] => k
  | f :: rest => try! closeFile f in closeFiles rest k
  end.

(** The first file of [ks] that is not nil has been closed. *)
Fixpoint first_closed (ks : list which) (st : fileStore) : Prop :=
  match ks with
  | [] => False
  | k :: rest =>
      match file_of k st with
      | Some h => hclosed h = true
      | None => first_closed rest st
      end
  end.

(** What [Close] does once the five files are closed. *)
Definition forget_files : M (option error) :=
  let! _ := modify (set_files None None None None None) in ret None.

(** The five files in the order [Close] closes them. *)
Definition all_files : list which :=
  [Body; Header; Session; SenderSeqNums; TargetSeqNums].

(** [moves R c]: whatever happens, a run of [c] takes the store and the
    world to a store and a world that [R] relates to them. *)
Definition moves {A} (R : relation (fileStore * world)) (c : M A) : Prop :=
  ∀ st w, R (st, w) (store_of (c st w), world_of (c st w)).

(** No file is removed or made shorter. *)
Definition no_file_shrinks : relation (fileStore * world) := λ x y,
  ∀ name f, fs x.2 !! name = Some f →
    ∃ f', fs y.2 !! name = Some f' ∧ (length (data f) ≤ length (data f'))%nat.

(** Only the cache of the store changes, and only the outside of the
    world (the clock, the failures to come). *)
Definition only_cache_changes : relation (fileStore * world) := λ x y,
  fs y.2 = fs x.2
  ∧ sessionID y.1 = sessionID x.1
  ∧ offsets y.1 = offsets x.1
  ∧ ∀ k, fname_of k y.1 = fname_of k x.1 ∧ file_of k y.1 = file_of k x.1.

(** Nothing of the store changes and no file does. *)
Definition only_reads : relation (fileStore * world) := λ x y,
  y.1 = x.1 ∧ fs y.2 = fs x.2 ∧ clock y.2 = clock x.2.

(** No outside failure is to come if none was. *)
Definition no_new_fault : relation (fileStore * world) := λ x y,
  faults x.2 = [] → faults y.2 = [].

(** [Close] on [st] and then [newFileStore] for the same session and
    the directory [dirname] both succeed, and the store and the world
    they end in satisfy [P]. *)
Definition reopened (st : fileStore) (w : world) (dirname : string)
    (P : fileStore → world → Prop) : Prop :=
  ∃ st1 w1 st2 w2,
    Close st w = (Return None, st1, w1)
    ∧ newFileStore (sessionID st) dirname w1 = (Return (Ok st2), w2)
    ∧ P st2 w2.

#[global] Instance no_file_shrinks_preorder : PreOrder no_file_shrinks.
Proof.
  split.
  - intros x name f Hf. eauto.
  - intros x y z Hxy Hyz name f Hf.
    destruct (Hxy name f Hf) as (f1 & Hf1 & Hl1).
    destruct (Hyz name f1 Hf1) as (f2 & Hf2 & Hl2).
    exists f2. split; [done|lia].
Qed.

#[global] Instance only_cache_changes_preorder : PreOrder only_cache_changes.
Proof.
  split.
  - intros x. by repeat split.
  - intros x y z (Ha1 & Hb1 & Hc1 & Hd1) (Ha2 & Hb2 & Hc2 & Hd2).
    split; [congruence|]. split; [congruence|]. split; [congruence|].
    intros k. destruct (Hd1 k), (Hd2 k). split; congruence.
Qed.

#[global] Instance only_reads_preorder : PreOrder only_reads.
Proof.
  split.
  - intros x. by repeat split.
  - intros x y z (Ha1 & Hb1 & Hc1) (Ha2 & Hb2 & Hc2).
    repeat split; congruence.
Qed.

#[global] Instance no_new_fault_preorder : PreOrder no_new_fault.
Proof.
  split.
  - by intros x H.
  - intros x y z Hxy Hyz H. apply Hyz, Hxy, H.
Qed.

(** ** Tactics for stores and worlds in normal form *)

Ltac norm_world := cbn [fs clock faults set_fs] in *.

Ltac norm_store :=
  cbv beta iota delta
    [set_files set_cache set_offsets set_file fname_of file_of sessionID
     cache offsets bodyFname headerFname sessionFname senderSeqNumsFname
     targetSeqNumsFname bodyFile headerFile sessionFile senderSeqNumsFile
     targetSeqNumsFile blank_store].

Ltac names_ne Hd :=
  first
    [ apply (Hd Body Header) | apply (Hd Body Session)
    | apply (Hd Body SenderSeqNums) | apply (Hd Body TargetSeqNums)
    | apply (Hd Header Body) | apply (Hd Header Session)
    | apply (Hd Header SenderSeqNums) | apply (Hd Header TargetSeqNums)
    | apply (Hd Session Body) | apply (Hd Session Header)
    | apply (Hd Session SenderSeqNums) | apply (Hd Session TargetSeqNums)
    | apply (Hd SenderSeqNums Body) | apply (Hd SenderSeqNums Header)
    | apply (Hd SenderSeqNums Session)
    | apply (Hd SenderSeqNums TargetSeqNums)
    | apply (Hd TargetSeqNums Body) | apply (Hd TargetSeqNums Header)
    | apply (Hd TargetSeqNums Session)
    | apply (Hd TargetSeqNums SenderSeqNums) ];
  discriminate.

Ltac lookups Hd :=
  repeat first
    [ rewrite lookup_insert_eq
    | rewrite lookup_insert_ne by names_ne Hd ].

(** * Properties *)

(** ** Decimal text *)

Section decimal.

Lemma digit_byte_val d : 0 <= d < 10 → byte_val (digit_byte d) = 48 + d.
Proof.
  intros H.
  assert (d = 0 ∨ d = 1 ∨ d = 2 ∨ d = 3 ∨ d = 4 ∨ d = 5 ∨ d = 6 ∨ d = 7
          ∨ d = 8 ∨ d = 9) as Hd by lia.
  repeat destruct Hd as [-> | Hd]; try subst d; reflexivity.
Qed.

Lemma is_digit_digit_byte d : 0 <= d < 10 → is_digit (digit_byte d) = true.
Proof.
  intros H. unfold is_digit. rewrite digit_byte_val by done.
  apply andb_true_intro; split; lia.
Qed.

Lemma digit_val_digit_byte d : 0 <= d < 10 → digit_val (digit_byte d) = d.
Proof. intros H. unfold digit_val. rewrite digit_byte_val by done. lia. Qed.

Lemma digits_aux_acc fuel : ∀ n acc,
  digits_aux fuel n acc = digits_aux fuel n [] ++ acc.
Proof.
  induction fuel as [|f IH]; intros n acc; simpl; [done|].
  destruct (n <? 10); [done|].
  rewrite (IH _ (_ :: acc)), (IH _ [_]), <- app_assoc. done.
Qed.

Lemma digits_value_snoc l b :
  digits_value (l ++ [b]) = 10 * digits_value l + digit_val b.
Proof. unfold digits_value. rewrite fold_left_app. done. Qed.

Lemma div10_bound n f :
  10 <= n → n < 2 ^ Z.of_nat (S f) → 0 <= n / 10 < 2 ^ Z.of_nat f.
Proof.
  intros H10 Hn. rewrite Nat2Z.inj_succ, Z.pow_succ_r in Hn by lia.
  split; [apply Z.div_pos; lia|]. apply Z.div_lt_upper_bound; lia.
Qed.

Lemma digits_aux_value fuel : ∀ n,
  0 <= n < 2 ^ Z.of_nat fuel → digits_value (digits_aux fuel n []) = n.
Proof.
  induction fuel as [|f IH]; intros n Hn.
  - simpl in *. assert (n = 0) by lia. subst. done.
  - simpl. destruct (Z.ltb_spec n 10).
    + unfold digits_value. simpl. rewrite Z.mod_small by lia.
      rewrite digit_val_digit_byte; lia.
    + rewrite digits_aux_acc, digits_value_snoc, IH by (apply div10_bound; lia).
      rewrite digit_val_digit_byte by (apply Z.mod_pos_bound; lia).
      pose proof (Z.div_mod n 10). lia.
Qed.

Lemma digits_aux_all_digits fuel : ∀ n,
  0 <= n → forallb is_digit (digits_aux fuel n []) = true.
Proof.
  induction fuel as [|f IH]; intros n Hn; simpl; [done|].
  assert (is_digit (digit_byte (n mod 10)) = true) as Hd
    by (apply is_digit_digit_byte, Z.mod_pos_bound; lia).
  destruct (n <? 10); simpl.
  - rewrite Hd. done.
  - rewrite digits_aux_acc, forallb_app, IH by (apply Z.div_pos; lia).
    simpl. rewrite Hd. done.
Qed.

Lemma digits_aux_length fuel : ∀ n (k : nat),
  0 <= n < 10 ^ Z.of_nat k → (1 ≤ k)%nat →
  (1 ≤ length (digits_aux (S fuel) n []) ≤ k)%nat.
Proof.
  induction fuel as [|f IH]; intros n k Hn Hk.
  - simpl. destruct (n <? 10); simpl; lia.
  - change (digits_aux (S (S f)) n []) with
      (if n <? 10 then [digit_byte (n mod 10)]
       else digits_aux (S f) (n / 10) [digit_byte (n mod 10)]).
    destruct (Z.ltb_spec n 10); [simpl; lia|].
    rewrite digits_aux_acc, length_app.
    change (length [digit_byte (n mod 10)]) with 1%nat.
    destruct k as [|k]; [lia|].
    destruct k as [|k].
    { simpl in Hn. lia. }
    rewrite Nat2Z.inj_succ, Z.pow_succ_r in Hn by lia.
    specialize (IH (n / 10) (S k)).
    assert (0 <= n / 10 < 10 ^ Z.of_nat (S k)).
    { split; [apply Z.div_pos; lia|]. apply Z.div_lt_upper_bound; lia. }
    lia.
Qed.

Lemma digits_fuel_ok n :
  0 <= n → 0 <= n < 2 ^ Z.of_nat (S (Z.to_nat (Z.log2 n))).
Proof.
  intros Hn. split; [done|].
  rewrite Nat2Z.inj_succ, Z2Nat.id by apply Z.log2_nonneg.
  destruct (Z.eq_dec n 0) as [->|]; [done|].
  apply Z.log2_spec. lia.
Qed.

Lemma digits_value_digits n : 0 <= n → digits_value (digits n) = n.
Proof. intros. apply digits_aux_value, digits_fuel_ok. done. Qed.

Lemma digits_all_digits n : 0 <= n → forallb is_digit (digits n) = true.
Proof. intros. by apply digits_aux_all_digits. Qed.

Lemma digits_length n (k : nat) :
  0 <= n < 10 ^ Z.of_nat k → (1 ≤ k)%nat → (1 ≤ length (digits n) ≤ k)%nat.
Proof. intros. by apply digits_aux_length. Qed.

Lemma digits_nonempty n : digits n ≠ [].
Proof.
  unfold digits. simpl. destruct (n <? 10); [done|].
  rewrite digits_aux_acc. by destruct (digits_aux _ _ []).
Qed.

Lemma digits_value_zeros k ds :
  digits_value (replicate k "0"%byte ++ ds) = digits_value ds.
Proof.
  unfold digits_value. rewrite fold_left_app.
  replace (fold_left _ (replicate k "0"%byte) 0) with 0; [done|].
  induction k as [|k IH]; simpl; [done|]. exact IH.
Qed.

Lemma all_digits_zeros k : forallb is_digit (replicate k "0"%byte) = true.
Proof. induction k; simpl; done. Qed.

Lemma is_digit_not_sign b :
  is_digit b = true → b ≠ "-"%byte ∧ b ≠ "+"%byte.
Proof. intros H; split; intros ->; discriminate H. Qed.

Lemma split_sign_digit b r :
  is_digit b = true → split_sign (b :: r) = (false, b :: r).
Proof.
  intros [H1 H2]%is_digit_not_sign. unfold split_sign.
  destruct (decide (b = "-"%byte)); [done|].
  destruct (decide (b = "+"%byte)); done.
Qed.

Lemma split_sign_minus r : split_sign ("-"%byte :: r) = (true, r).
Proof. reflexivity. Qed.

Lemma pad0_spec width ds :
  forallb is_digit ds = true → ds ≠ [] →
  ∃ b r, pad0 width ds = b :: r ∧ is_digit b = true
         ∧ forallb is_digit (b :: r) = true
         ∧ digits_value (b :: r) = digits_value ds.
Proof.
  intros Hds Hne. unfold pad0.
  assert (forallb is_digit (replicate (width - length ds) "0"%byte ++ ds) = true)
    as Hall by (rewrite forallb_app, all_digits_zeros, Hds; done).
  pose proof (digits_value_zeros (width - length ds) ds) as Hv.
  destruct (replicate (width - length ds) "0"%byte ++ ds) as [|b r] eqn:E.
  - apply app_eq_nil in E as [_ ->]. done.
  - exists b, r. split; [done|]. split; [|done].
    simpl in Hall. by apply andb_prop in Hall as [? _].
Qed.

Lemma pad0_length width ds :
  (length ds ≤ width)%nat → length (pad0 width ds) = width.
Proof. intros. unfold pad0. rewrite length_app, length_replicate. lia. Qed.

(** Reading back what [%019d] wrote gives the number, whatever its
    size. *)
Lemma Atoi_fmt_019d n : in_int n = true → Atoi (fmt_019d n) = Some n.
Proof.
  intros Hn. unfold fmt_019d, Atoi.
  destruct (Z.ltb_spec n 0).
  - destruct (pad0_spec 18 (digits (- n))) as (b & r & -> & Hb & Hall & Hv);
      [apply digits_all_digits; lia | apply digits_nonempty|].
    rewrite split_sign_minus, Hall. unfold signed_value. rewrite Hv.
    rewrite digits_value_digits, Z.opp_involutive, Hn by lia. done.
  - destruct (pad0_spec 19 (digits n)) as (b & r & -> & Hb & Hall & Hv);
      [apply digits_all_digits; lia | apply digits_nonempty|].
    rewrite split_sign_digit by done. rewrite Hall. unfold signed_value.
    rewrite Hv, digits_value_digits, Hn by lia. done.
Qed.

(** The width is 19 for every number that fits it. *)
Lemma fmt_019d_length n :
  - 10 ^ 18 < n < 10 ^ 19 → length (fmt_019d n) = 19%nat.
Proof.
  intros Hn. unfold fmt_019d.
  destruct (Z.ltb_spec n 0).
  - simpl. rewrite pad0_length; [done|].
    apply (digits_length (- n) 18); [simpl; lia | lia].
  - rewrite pad0_length; [done|].
    apply (digits_length n 19); [simpl; lia | lia].
Qed.

End decimal.

(** ** Scanning header lines *)

Section scanning.

Lemma strip_prefix_length p : ∀ s r,
  strip_prefix p s = Some r → length s = (length p + length r)%nat.
Proof.
  induction p as [|a p IH]; intros s r; simpl.
  - by intros [= <-].
  - destruct s as [|b s]; [done|]. case_decide; [|done].
    intros Hr. apply IH in Hr. simpl. lia.
Qed.

Lemma blank_prefix_length s r :
  blank_prefix s = Some r → (length r < length s)%nat.
Proof.
  unfold blank_prefix.
  assert (Forall (λ p, (1 ≤ length p)%nat) blanks) as Hall
    by (vm_compute; repeat constructor).
  induction Hall as [|p ps Hp _ IH]; simpl; [done|].
  destruct (strip_prefix p s) as [r'|] eqn:E; simpl.
  - intros [= <-]. apply strip_prefix_length in E. lia.
  - exact IH.
Qed.

(** No blank starts with a digit, a sign or a newline. *)
Lemma blank_prefix_digit b r : is_digit b = true → blank_prefix (b :: r) = None.
Proof. destruct b; intros H; try discriminate H; reflexivity. Qed.

Lemma blank_prefix_minus r : blank_prefix ("-"%byte :: r) = None.
Proof. reflexivity. Qed.

Lemma blank_prefix_newline r : blank_prefix (newline :: r) = None.
Proof. reflexivity. Qed.

Lemma skip_blanks_none s : blank_prefix s = None → skip_blanks s = s.
Proof.
  unfold skip_blanks. destruct s as [|b s]; [done|]. simpl length.
  cbn [skip_blanks_aux]. by intros ->.
Qed.

Lemma is_digit_numchar b : is_digit b = true → is_numchar b = true.
Proof. unfold is_numchar. intros ->. done. Qed.

Lemma span_number_digits ds c rest :
  forallb is_digit ds = true → is_numchar c = false →
  span_number (ds ++ c :: rest) = (ds, c :: rest).
Proof.
  intros Hds Hc. induction ds as [|d ds IH]; simpl.
  - rewrite Hc. done.
  - simpl in Hds. apply andb_prop in Hds as [Hd Hds].
    rewrite (is_digit_numchar d Hd), (IH Hds). done.
Qed.

Lemma span_number_length s tok rest :
  span_number s = (tok, rest) → length s = (length tok + length rest)%nat.
Proof.
  revert tok rest. induction s as [|b s IH]; intros tok rest; simpl.
  - intros [= <- <-]. done.
  - destruct (is_numchar b).
    + destruct (span_number s) as [tok' rest'] eqn:E.
      intros [= <- <-]. simpl. rewrite (IH _ _ eq_refl). done.
    + intros [= <- <-]. done.
Qed.

Lemma skip_blanks_aux_length fuel : ∀ s,
  (length (skip_blanks_aux fuel s) ≤ length s)%nat.
Proof.
  induction fuel as [|fuel IH]; intros s; simpl; [done|].
  destruct (blank_prefix s) as [r|] eqn:E; [|done].
  apply blank_prefix_length in E. specialize (IH r). lia.
Qed.

Lemma skip_blanks_length s : (length (skip_blanks s) ≤ length s)%nat.
Proof. apply skip_blanks_aux_length. Qed.

(** The rounds are enough: what [skip_blanks] leaves starts with no
    blank. *)
Lemma skip_blanks_aux_done fuel : ∀ s,
  (length s ≤ fuel)%nat → blank_prefix (skip_blanks_aux fuel s) = None.
Proof.
  induction fuel as [|fuel IH]; intros s Hs; simpl.
  - destruct s; [reflexivity|simpl in Hs; lia].
  - destruct (blank_prefix s) as [r|] eqn:E; [|exact E].
    apply IH. apply blank_prefix_length in E. lia.
Qed.

Lemma skip_blanks_done s : blank_prefix (skip_blanks s) = None.
Proof. by apply skip_blanks_aux_done. Qed.

Lemma split_sign_length s neg r :
  split_sign s = (neg, r) → (length r ≤ length s)%nat.
Proof.
  destruct s as [|b s]; simpl.
  - intros [= <- <-]. done.
  - repeat case_decide; intros [= <- <-]; simpl; lia.
Qed.

Lemma scan_int_consumes s n r :
  scan_int s = Some (n, r) → (length r < length s)%nat.
Proof.
  unfold scan_int.
  destruct (split_sign (skip_blanks s)) as [neg s1] eqn:E1.
  destruct (span_number s1) as [tok rest] eqn:E2.
  destruct tok as [|t tok]; [done|].
  destruct (forallb is_digit (t :: tok)); [|done].
  destruct (in_int _); [|done].
  intros [= <- <-].
  apply split_sign_length in E1. apply span_number_length in E2.
  pose proof (skip_blanks_length s). simpl in E2. lia.
Qed.

Lemma expect_comma_consumes s r :
  expect_comma s = Some r → (length r < length s)%nat.
Proof.
  destruct s as [|b s]; simpl; [done|].
  case_decide; [|done]. intros [= <-]. lia.
Qed.

Lemma expect_newline_consumes s r :
  expect_newline s = Some r → (length r ≤ length s)%nat.
Proof.
  unfold expect_newline. pose proof (skip_blanks_length s).
  destruct (skip_blanks s) as [|b s'].
  - intros [= <-]. simpl. lia.
  - case_decide; [|done]. intros [= <-]. simpl in *. lia.
Qed.

(** A successful [Fscanf] takes input away. *)
Lemma Fscanf_header_consumes s e rest :
  Fscanf_header s = Some (e, rest) → (length rest < length s)%nat.
Proof.
  unfold Fscanf_header.
  destruct (scan_int s) as [[a s1]|] eqn:E1; [|done].
  destruct (expect_comma s1) as [s2|] eqn:E2; [|done].
  destruct (scan_int s2) as [[b s3]|] eqn:E3; [|done].
  destruct (expect_comma s3) as [s4|] eqn:E4; [|done].
  destruct (scan_int s4) as [[c s5]|] eqn:E5; [|done].
  destruct (expect_newline s5) as [s6|] eqn:E6; [|done].
  intros [= <- <-].
  apply scan_int_consumes in E1, E3, E5.
  apply expect_comma_consumes in E2, E4.
  apply expect_newline_consumes in E6. lia.
Qed.

Lemma skip_blanks_fmt_d n r : skip_blanks (fmt_d n ++ r) = fmt_d n ++ r.
Proof.
  apply skip_blanks_none.
  unfold fmt_d. destruct (Z.ltb_spec n 0); [apply blank_prefix_minus|].
  pose proof (digits_all_digits n ltac:(lia)) as Hall.
  pose proof (digits_nonempty n) as Hne.
  destruct (digits n) as [|d ds]; [done|].
  simpl in *. apply andb_prop in Hall as [Hd _].
  by apply blank_prefix_digit.
Qed.

Lemma expect_newline_newline r : expect_newline (newline :: r) = Some r.
Proof.
  unfold expect_newline.
  rewrite (skip_blanks_none _ (blank_prefix_newline r)).
  by rewrite decide_True.
Qed.

(** [%d] reads back what [%d] wrote, up to the next comma or newline. *)
Lemma scan_int_fmt_d n c rest :
  in_int n = true → is_numchar c = false →
  scan_int (fmt_d n ++ c :: rest) = Some (n, c :: rest).
Proof.
  intros Hn Hc. unfold scan_int. rewrite skip_blanks_fmt_d.
  unfold fmt_d. destruct (Z.ltb_spec n 0).
  - pose proof (digits_all_digits (- n) ltac:(lia)) as Hall.
    pose proof (digits_nonempty (- n)) as Hne.
    pose proof (digits_value_digits (- n) ltac:(lia)) as Hv.
    change (("-"%byte :: digits (- n)) ++ c :: rest)
      with ("-"%byte :: (digits (- n) ++ c :: rest)).
    rewrite split_sign_minus, span_number_digits by done.
    destruct (digits (- n)) as [|d ds]; [done|].
    rewrite Hall. unfold signed_value. rewrite Hv, Z.opp_involutive, Hn. done.
  - pose proof (digits_all_digits n ltac:(lia)) as Hall.
    pose proof (digits_nonempty n) as Hne.
    pose proof (digits_value_digits n ltac:(lia)) as Hv.
    destruct (digits n) as [|d ds] eqn:E; [done|].
    change ((d :: ds) ++ c :: rest) with (d :: (ds ++ c :: rest)).
    rewrite split_sign_digit
      by (simpl in Hall; by apply andb_prop in Hall as [? _]).
    change (d :: (ds ++ c :: rest)) with ((d :: ds) ++ c :: rest).
    rewrite span_number_digits by done.
    rewrite Hall. unfold signed_value. rewrite Hv, Hn. done.
Qed.

(** One [Fscanf] reads back one line written by [SaveMessage] and stops
    right after it. *)
Lemma Fscanf_header_line e rest :
  entry_in_int e → Fscanf_header (header_line e ++ rest) = Some (e, rest).
Proof.
  destruct e as [[a b] c]. intros (Ha & Hb & Hc). simpl in *.
  unfold Fscanf_header, header_line.
  rewrite <- app_assoc, <- app_comm_cons.
  rewrite scan_int_fmt_d by done.
  change (expect_comma (comma :: ?r)) with (Some r).
  rewrite <- app_assoc, <- app_comm_cons.
  rewrite scan_int_fmt_d by done.
  change (expect_comma (comma :: ?r)) with (Some r).
  rewrite <- app_assoc. simpl app.
  rewrite scan_int_fmt_d by done.
  reflexivity.
Qed.

Lemma header_line_length e : (1 ≤ length (header_line e))%nat.
Proof.
  destruct e as [[a b] c]. unfold header_line.
  rewrite length_app. simpl. lia.
Qed.

Lemma draw_nofault w : faults w = [] → draw w = (false, w).
Proof. unfold draw. intros ->. done. Qed.

End scanning.

(** ** What a method leaves of the store *)

Section frames.

Lemma same_data_refl st : same_data st st.
Proof. by repeat split. Qed.

Lemma same_data_trans st1 st2 st3 :
  same_data st1 st2 → same_data st2 st3 → same_data st1 st3.
Proof.
  intros (Ha1 & Hb1 & Hc1 & Hd1) (Ha2 & Hb2 & Hc2 & Hd2).
  repeat split; congruence.
Qed.

Lemma same_data_set_file k f st : same_data st (set_file k f st).
Proof. destruct k; repeat split; by intros []. Qed.

Lemma keeps_ret {A} (a : A) : keeps (ret a).
Proof. intros st w. apply same_data_refl. Qed.

Lemma keeps_panic {A} : keeps (@panic A).
Proof. intros st w. apply same_data_refl. Qed.

Lemma keeps_get : keeps get.
Proof. intros st w. apply same_data_refl. Qed.

Lemma keeps_sys {A} (c : world → A * world) : keeps (sys c).
Proof. intros st w. unfold sys. destruct (c w). apply same_data_refl. Qed.

Lemma keeps_bind {A B} (c : M A) (k : A → M B) :
  keeps c → (∀ a, keeps (k a)) → keeps (bind c k).
Proof.
  intros Hc Hk st w. unfold bind. specialize (Hc st w).
  destruct (c st w) as [[[a|] st'] w']; [|done].
  eapply same_data_trans; [exact Hc|]. apply Hk.
Qed.

Lemma keeps_check c k : keeps c → keeps k → keeps (check c k).
Proof.
  intros Hc Hk. apply keeps_bind; [done|].
  intros [e|]; [apply keeps_ret | done].
Qed.

Lemma keeps_on_file {A} k (op : handle → world → result A * handle * world) :
  keeps (on_file k op).
Proof.
  intros st w. unfold on_file.
  destruct (file_of k st) as [h|]; [|apply same_data_refl].
  destruct (op h w) as [[r h'] w']. apply same_data_set_file.
Qed.

Lemma keeps_on_file_err k op : keeps (on_file_err k op).
Proof.
  intros st w. unfold on_file_err.
  destruct (file_of k st) as [h|]; [|apply same_data_refl].
  destruct (op h w) as [[r h'] w']. apply same_data_set_file.
Qed.

Lemma keeps_setSeqNum k n : keeps (setSeqNum k n).
Proof.
  unfold setSeqNum. apply keeps_bind; [apply keeps_get|]. intros st.
  destruct (file_of k st); [|apply keeps_panic].
  apply keeps_bind; [apply keeps_on_file|]. intros [?|?]; [|apply keeps_ret].
  apply keeps_bind; [apply keeps_on_file|]. intros [?|?]; [|apply keeps_ret].
  apply keeps_bind; [apply keeps_on_file_err|]. intros [?|]; apply keeps_ret.
Qed.

Lemma keeps_getMessage seqNum : keeps (getMessage seqNum).
Proof.
  unfold getMessage. apply keeps_bind; [apply keeps_get|]. intros st.
  destruct (offsets st !! seqNum); [|apply keeps_ret].
  destruct (_ <? 0); [apply keeps_panic|].
  apply keeps_bind; [apply keeps_on_file|]. intros [?|?]; apply keeps_ret.
Qed.

End frames.

(** ** The setters write the cache first *)

(** C8. [SetNextSenderMsgSeqNum], [SetNextTargetMsgSeqNum],
    [IncrNextSenderMsgSeqNum] and [IncrNextTargetMsgSeqNum] update the
    cache before they write the counter file: whatever the write does
    and whatever the method returns, also an error, the store it leaves
    gives the new value to [NextSenderMsgSeqNum] / [NextTargetMsgSeqNum]
    (for the increments: the old value plus one, on Go's [int]). *)
Theorem setters_update_cache_first (st : fileStore) (w : world) (next : Z) :
  NextSenderMsgSeqNum (store_of (SetNextSenderMsgSeqNum next st w)) = next
  ∧ NextTargetMsgSeqNum (store_of (SetNextTargetMsgSeqNum next st w)) = next
  ∧ NextSenderMsgSeqNum (store_of (IncrNextSenderMsgSeqNum st w))
    = wrap_int (NextSenderMsgSeqNum st + 1)
  ∧ NextTargetMsgSeqNum (store_of (IncrNextTargetMsgSeqNum st w))
    = wrap_int (NextTargetMsgSeqNum st + 1).
Proof.
  unfold SetNextSenderMsgSeqNum, SetNextTargetMsgSeqNum,
    IncrNextSenderMsgSeqNum, IncrNextTargetMsgSeqNum,
    NextSenderMsgSeqNum, NextTargetMsgSeqNum.
  unfold bind, modify, get. cbn beta iota.
  repeat split.
  - destruct (keeps_setSeqNum SenderSeqNums next
      (set_cache (MemoryStore.SetNextSenderMsgSeqNum next (cache st)) st) w)
      as (_ & -> & _). done.
  - destruct (keeps_setSeqNum TargetSeqNums next
      (set_cache (MemoryStore.SetNextTargetMsgSeqNum next (cache st)) st) w)
      as (_ & -> & _). done.
  - match goal with |- context [setSeqNum ?k ?n ?s w] =>
      destruct (keeps_setSeqNum k n s w) as (_ & -> & _) end. done.
  - match goal with |- context [setSeqNum ?k ?n ?s w] =>
      destruct (keeps_setSeqNum k n s w) as (_ & -> & _) end. done.
Qed.

(** ** Reading messages *)

Section reading.

Lemma set_file_same k f st : file_of k st = f → set_file k f st = st.
Proof. destruct st, k; simpl; intros ->; reflexivity. Qed.

Lemma getMessage_absent seqNum st w :
  offsets st !! seqNum = None →
  getMessage seqNum st w = (Return ([], false, None), st, w).
Proof. intros H. unfold getMessage, bind, get, ret. rewrite H. done. Qed.

(** What [getMessage] can return for a number the index has. *)
Lemma getMessage_present seqNum d st w r st' w' :
  offsets st !! seqNum = Some d →
  getMessage seqNum st w = (r, st', w') →
  st' = st
  ∧ (r = Panicked
     ∨ (∃ m, r = Return (m, true, None))
     ∨ (∃ e, r = Return ([], true, Some e))).
Proof.
  intros Hd. unfold getMessage, bind, get, ret, panic, on_file. rewrite Hd.
  destruct (size d <? 0).
  { intros [= <- <- <-]. auto. }
  destruct (file_of Body st) as [h|] eqn:Hh.
  - destruct (File_ReadAt _ _ h w) as [[m|e] w1];
      rewrite (set_file_same _ _ _ Hh); intros [= <- <- <-]; eauto 6.
  - intros [= <- <- <-]. eauto 6.
Qed.

Lemma getMessage_error seqNum st w m found err st' w' :
  getMessage seqNum st w = (Return (m, found, Some err), st', w') →
  found = true ∧ m = [] ∧ is_Some (offsets st !! seqNum).
Proof.
  intros H. destruct (offsets st !! seqNum) as [d|] eqn:Hd.
  - destruct (getMessage_present _ _ _ _ _ _ _ Hd H)
      as (_ & [[=] | [(m' & [=]) | (e & [= -> -> ->])]]).
    eauto.
  - rewrite getMessage_absent in H by done. discriminate H.
Qed.

Lemma getMessage_store seqNum st w r st' w' :
  getMessage seqNum st w = (r, st', w') → st' = st.
Proof.
  intros H. destruct (offsets st !! seqNum) as [d|] eqn:Hd.
  - by destruct (getMessage_present _ _ _ _ _ _ _ Hd H).
  - rewrite getMessage_absent in H by done. by injection H.
Qed.

Lemma GetMessages_loop_error fuel : ∀ seqNum endSeqNum msgs st w ms err st' w',
  GetMessages_loop fuel seqNum endSeqNum msgs st w
    = (Return (Some (ms, Some err)), st', w') →
  ms = [] ∧ ∃ s w1 w2,
    getMessage s st w1 = (Return ([], true, Some err), st, w2)
    ∧ is_Some (offsets st !! s).
Proof.
  induction fuel as [|f IH]; intros seqNum endSeqNum msgs st w ms err st' w'.
  - simpl. unfold ret. intros [=].
  - simpl. destruct (seqNum <=? endSeqNum).
    + unfold bind at 1.
      destruct (getMessage seqNum st w) as [[[[[m found] e]|] st1] w1] eqn:Hg.
      * pose proof (getMessage_store _ _ _ _ _ _ Hg) as ->.
        destruct e as [e|].
        -- unfold ret. intros [= <- <- <- <-].
           destruct (getMessage_error _ _ _ _ _ _ _ _ Hg) as (-> & -> & Hs).
           split; [done|]. eauto 10.
        -- apply IH.
      * intros [=].
    + unfold ret. intros [=].
Qed.

End reading.

(** C10. Whenever [GetMessages] returns an error it returns no message
    with it: what was read for earlier numbers of the range is dropped.
    The error is the one of a [getMessage] call on this store that
    reported [found = true] and no message, and every [getMessage] that
    returns an error does so for a number the index has, with
    [found = true]: found tells index presence, not read success. *)
Theorem GetMessages_error_no_partial_result
    (fuel : nat) (beginSeqNum endSeqNum : Z) (st : fileStore) (w : world)
    (msgs : list (list byte)) (err : error) (st' : fileStore) (w' : world)
    (Herr : GetMessages fuel beginSeqNum endSeqNum st w
            = (Return (Some (msgs, Some err)), st', w')) :
  msgs = []
  ∧ (∃ seqNum w1 w2,
       getMessage seqNum st w1 = (Return ([], true, Some err), st, w2)
       ∧ is_Some (offsets st !! seqNum))
  ∧ (∀ seqNum st1 w1 m found e st2 w2,
       getMessage seqNum st1 w1 = (Return (m, found, Some e), st2, w2) →
       found = true ∧ m = [] ∧ is_Some (offsets st1 !! seqNum)).
Proof.
  destruct (GetMessages_loop_error _ _ _ _ _ _ _ _ _ _ Herr) as (-> & Hex).
  split; [done|]. split; [exact Hex|].
  intros. eapply getMessage_error; eauto.
Qed.

Section range.

Lemma wrap_int_id n : int_min <= n <= int_max → wrap_int n = n.
Proof.
  unfold wrap_int, int_min, int_max. intros H.
  rewrite Z.mod_small; lia.
Qed.

Lemma indexed_range_empty offs b e : e < b → indexed_range offs b e = [].
Proof.
  intros H. unfold indexed_range, seqZ.
  replace (Z.to_nat (e - b + 1)) with 0%nat by lia. done.
Qed.

Lemma indexed_range_step offs b e :
  b <= e →
  indexed_range offs b e
  = if offs !! b is Some _ then b :: indexed_range offs (b + 1) e
    else indexed_range offs (b + 1) e.
Proof.
  intros H. unfold indexed_range.
  rewrite seqZ_cons by lia. rewrite filter_cons.
  replace (Z.pred (e - b + 1)) with (e - (b + 1) + 1) by lia.
  replace (Z.succ b) with (b + 1) by lia.
  destruct (offs !! b) as [d|] eqn:E.
  - rewrite decide_True by eauto. done.
  - rewrite decide_False; [done|]. by intros [? ?].
Qed.

(** The loop reads the indexed numbers of the range, in order. *)
Lemma GetMessages_loop_spec (n : nat) : ∀ fuel seqNum endSeqNum msgs st w,
  int_min <= seqNum → endSeqNum < int_max →
  Z.to_nat (endSeqNum - seqNum + 1) = n → (n < fuel)%nat →
  GetMessages_loop fuel seqNum endSeqNum msgs st w
  = (let! r := read_present (indexed_range (offsets st) seqNum endSeqNum) msgs in
     ret (Some r)) st w.
Proof.
  induction n as [|n IH]; intros fuel seqNum endSeqNum msgs st w Hlo Hhi Hn Hf;
    (destruct fuel as [|f]; [lia|]); simpl.
  - rewrite indexed_range_empty by lia.
    destruct (Z.leb_spec seqNum endSeqNum); [lia|]. done.
  - destruct (Z.leb_spec seqNum endSeqNum); [|lia].
    rewrite indexed_range_step by done.
    rewrite wrap_int_id by (unfold int_max in *; lia).
    destruct (offsets st !! seqNum) as [d|] eqn:Hd.
    + cbn [read_present]. unfold bind.
      destruct (getMessage seqNum st w) as [[r st1] w1] eqn:Hg.
      destruct (getMessage_present _ _ _ _ _ _ _ Hd Hg)
        as (-> & [-> | [(m & ->) | (e & ->)]]); [done| |done].
      rewrite (IH f (seqNum + 1) endSeqNum) by lia. reflexivity.
    + unfold bind at 1. rewrite getMessage_absent by done.
      rewrite (IH f (seqNum + 1) endSeqNum) by lia. done.
Qed.

Lemma File_ReadAt_inside n off h w f :
  faults w = [] → hclosed h = false → fs w !! hname h = Some f →
  0 <= off → (Z.to_nat off + n ≤ length (data f))%nat →
  File_ReadAt n off h w = (Ok (take n (drop (Z.to_nat off) (data f))), w).
Proof.
  intros Hw Hc Hf Hoff Hin. unfold File_ReadAt.
  destruct (Z.ltb_spec off 0); [lia|].
  destruct n as [|k]; [done|].
  rewrite Hc, (draw_nofault _ Hw), Hf.
  destruct (Nat.leb_spec (Z.to_nat off + S k) (length (data f))); [done|lia].
Qed.

(** With no outside failure, an open body file and an entry inside it,
    [getMessage] returns the bytes of the entry. *)
Lemma getMessage_inside seqNum d st w h f :
  faults w = [] → offsets st !! seqNum = Some d →
  file_of Body st = Some h → hclosed h = false →
  fs w !! hname h = Some f → entry_inside (data f) d →
  getMessage seqNum st w = (Return (message_at (data f) d, true, None), st, w).
Proof.
  intros Hw Hd Hh Hc Hf (Hoff & Hsz & Hin).
  unfold getMessage, bind, get, ret, on_file. rewrite Hd.
  destruct (Z.ltb_spec (size d) 0); [lia|]. rewrite Hh.
  rewrite (File_ReadAt_inside _ _ _ _ f) by (done || lia).
  rewrite (set_file_same _ _ _ Hh). done.
Qed.

Lemma read_present_inside seqNums : ∀ msgs st w h f,
  faults w = [] → file_of Body st = Some h → hclosed h = false →
  fs w !! hname h = Some f →
  Forall (λ s, ∃ d, offsets st !! s = Some d ∧ entry_inside (data f) d) seqNums →
  read_present seqNums msgs st w
  = (Return (msgs ++ omap (λ s, message_at (data f) <$> offsets st !! s) seqNums,
             None), st, w).
Proof.
  induction seqNums as [|s rest IH]; intros msgs st w h f Hw Hh Hc Hf Hall; simpl.
  - rewrite app_nil_r. done.
  - apply Forall_cons in Hall as [(d & Hd & Hin) Hall].
    unfold bind. rewrite (getMessage_inside _ _ _ _ _ _ Hw Hd Hh Hc Hf Hin).
    rewrite (IH _ _ _ _ _ Hw Hh Hc Hf Hall), Hd. simpl.
    rewrite <- app_assoc. done.
Qed.

Lemma omap_indexed {B} (g : msgDef → B) (offs : gmap Z msgDef) (l : list Z) :
  omap (λ s, g <$> offs !! s) (filter (λ s, is_Some (offs !! s)) l)
  = omap (λ s, g <$> offs !! s) l.
Proof.
  induction l as [|s l IH]; [done|].
  rewrite filter_cons.
  destruct (decide (is_Some (offs !! s))) as [[d Hd]|Hn].
  - cbn [omap list_omap]. rewrite Hd. cbn [fmap option_fmap option_map].
    f_equal. exact IH.
  - cbn [omap list_omap].
    destruct (offs !! s) as [d|] eqn:Hd; [|exact IH].
    exfalso. apply Hn. eauto.
Qed.

End range.

(** At the largest integer the loop has no end: [seqNum <= endSeqNum]
    holds for every [seqNum], and [seqNum++] wraps around.  On an empty
    index no amount of fuel makes [GetMessages(b, int_max)] return. *)
Lemma GetMessages_loop_int_max fuel : ∀ seqNum msgs st w,
  offsets st = ∅ → in_int seqNum = true →
  GetMessages_loop fuel seqNum int_max msgs st w = (Return None, st, w).
Proof.
  induction fuel as [|f IH]; intros seqNum msgs st w Ho Hs; [done|].
  simpl. unfold in_int in Hs. apply andb_prop in Hs as [Hlo Hhi].
  rewrite Hhi. unfold bind.
  rewrite getMessage_absent by (rewrite Ho; apply lookup_empty).
  apply IH; [done|].
  unfold in_int, wrap_int, int_min, int_max.
  pose proof (Z.mod_pos_bound (seqNum + 1 + 2 ^ 63) (2 ^ 64) ltac:(lia)).
  apply andb_true_intro; split; apply Z.leb_le; lia.
Qed.

(** Ranges that end below the largest integer.  [GetMessages(b, e)]
    goes through [b..e] in increasing order
    and reads exactly the numbers that have an index entry, in that
    order; a number without an entry is passed over and touches nothing.
    The first read that fails ends the call with its error
    ([read_present]).  For [e < b] the result is empty.  When no read
    fails (no outside failure, the body file open, every entry of the
    range inside it) the result is the list of the messages of the
    indexed numbers, in increasing order of their numbers.  [b] and [e]
    are Go integers, [e] below the largest one, and the fuel covers the
    length of the range. *)
Theorem GetMessages_reads_indexed_range
    (fuel : nat) (beginSeqNum endSeqNum : Z) (st : fileStore) (w : world)
    (Hbegin : int_min <= beginSeqNum)
    (Hend : endSeqNum < int_max)
    (Hfuel : (Z.to_nat (endSeqNum - beginSeqNum + 1) < fuel)%nat) :
  GetMessages fuel beginSeqNum endSeqNum st w
  = (let! r := read_present
                 (indexed_range (offsets st) beginSeqNum endSeqNum) [] in
     ret (Some r)) st w
  ∧ (endSeqNum < beginSeqNum →
     GetMessages fuel beginSeqNum endSeqNum st w
     = (Return (Some ([], None)), st, w))
  ∧ (∀ h f,
       faults w = [] → file_of Body st = Some h → hclosed h = false →
       fs w !! hname h = Some f →
       (∀ seqNum d, beginSeqNum <= seqNum <= endSeqNum →
                    offsets st !! seqNum = Some d → entry_inside (data f) d) →
       GetMessages fuel beginSeqNum endSeqNum st w
       = (Return (Some (omap (λ s, message_at (data f) <$> offsets st !! s)
                          (seqZ beginSeqNum (endSeqNum - beginSeqNum + 1)),
                        None)), st, w)).
Proof.
  assert (GetMessages fuel beginSeqNum endSeqNum st w
          = (let! r := read_present
                 (indexed_range (offsets st) beginSeqNum endSeqNum) [] in
             ret (Some r)) st w) as Heq.
  { unfold GetMessages. by eapply GetMessages_loop_spec. }
  split; [exact Heq|]. split.
  - intros Hlt. rewrite Heq, indexed_range_empty by done. done.
  - intros h f Hw Hh Hc Hf Hin. rewrite Heq. unfold bind.
    rewrite (read_present_inside _ [] st w h f Hw Hh Hc Hf).
    + simpl. unfold ret, indexed_range. rewrite omap_indexed. done.
    + unfold indexed_range. apply Forall_forall. intros s Hs.
      apply list_elem_of_filter in Hs as [[d Hd] Hs].
      apply elem_of_seqZ in Hs. exists d. split; [done|].
      apply (Hin s); [lia|done].
Qed.

(** ** Calls on open files that succeed *)

Section calls.

Lemma draw_fs w b w' : draw w = (b, w') → fs w' = fs w ∧ clock w' = clock w.
Proof.
  unfold draw. destruct (faults w); intros [= <- <-]; done.
Qed.

Lemma file_of_set_file k k' f st :
  file_of k' (set_file k f st) = if decide (k = k') then f else file_of k' st.
Proof. destruct k, k'; reflexivity. Qed.

Lemma File_Seek_ok to_end h w z h' w' :
  File_Seek to_end h w = (Ok z, h', w') →
  hclosed h = false ∧ fs w' = fs w
  ∧ ∃ f, fs w !! hname h = Some f
         ∧ h' = set_pos (if to_end then length (data f) else 0%nat) h
         ∧ z = Z.of_nat (if to_end then length (data f) else 0%nat).
Proof.
  unfold File_Seek. destruct (hclosed h); [done|].
  destruct (draw w) as [[] w1] eqn:Hd; [done|].
  apply draw_fs in Hd as [Hfs _]. rewrite Hfs.
  destruct (fs w !! hname h) as [f|]; [|done].
  intros [= <- <- <-]. eauto 8.
Qed.

Lemma File_Write_ok bs h w z h' w' :
  File_Write bs h w = (Ok z, h', w') →
  hclosed h = false
  ∧ ∃ f, fs w !! hname h = Some f
         ∧ fs w' = <[hname h := {| data := write_at (hpos h) bs (data f);
                                   durable := durable f |}]> (fs w)
         ∧ h' = set_pos (hpos h + length bs) h.
Proof.
  unfold File_Write. destruct (hclosed h); [done|].
  destruct (draw w) as [[] w1] eqn:Hd; [done|].
  apply draw_fs in Hd as [Hfs _]. rewrite Hfs.
  destruct (fs w !! hname h) as [f|]; [|done].
  intros [= <- <- <-]. eauto 8.
Qed.

Lemma File_Sync_ok h w h' w' :
  File_Sync h w = (None, h', w') →
  hclosed h = false ∧ h' = h
  ∧ ∃ f, fs w !! hname h = Some f
         ∧ fs w' = <[hname h := {| data := data f; durable := data f |}]> (fs w).
Proof.
  unfold File_Sync. destruct (hclosed h); [done|].
  destruct (draw w) as [[] w1] eqn:Hd; [done|].
  apply draw_fs in Hd as [Hfs _]. rewrite Hfs.
  destruct (fs w !! hname h) as [f|]; [|done].
  intros [= <- <-]. eauto 8.
Qed.

Lemma write_at_end bs d : write_at (length d) bs d = d ++ bs.
Proof.
  unfold write_at. rewrite firstn_all, Nat.sub_diag, drop_ge by lia.
  simpl. by rewrite app_nil_r.
Qed.

(** Writing at the start over a content that is not longer replaces it. *)
Lemma write_at_start bs d :
  (length d ≤ length bs)%nat → write_at 0 bs d = bs.
Proof.
  intros H. unfold write_at. rewrite drop_ge by (simpl; lia).
  simpl. by rewrite app_nil_r.
Qed.

Lemma write_at_length p bs d :
  (length d ≤ length (write_at p bs d))%nat.
Proof.
  unfold write_at.
  rewrite !length_app, length_take, length_replicate, length_drop. lia.
Qed.

End calls.

(** ** Saving a message *)

(** What a [SaveMessage] that returns nil has done to the files and to the
    store. *)
Lemma SaveMessage_effects
    (seqNum : Z) (msg : list byte) (st st' : fileStore) (w w' : world)
    (hb hh : handle)
    (Hbody : file_of Body st = Some hb)
    (Hheader : file_of Header st = Some hh)
    (Hdistinct : hname hb ≠ hname hh)
    (Hok : SaveMessage seqNum msg st w = (Return None, st', w')) :
  ∃ fb fh,
    fs w !! hname hb = Some fb ∧ fs w !! hname hh = Some fh
    ∧ let offset := Z.of_nat (length (data fb)) in
      let line := header_line (seqNum, offset, Z.of_nat (length msg)) in
      fs w' !! hname hb
        = Some {| data := data fb ++ msg; durable := data fb ++ msg |}
      ∧ fs w' !! hname hh
        = Some {| data := data fh ++ line; durable := data fh ++ line |}
      ∧ (∀ name, name ≠ hname hb → name ≠ hname hh →
                 fs w' !! name = fs w !! name)
      ∧ (∀ name f, fs w !! name = Some f →
                   ∃ f', fs w' !! name = Some f'
                         ∧ (length (data f) ≤ length (data f'))%nat)
      ∧ offsets st'
        = <[seqNum := {| offset := offset; size := Z.of_nat (length msg) |}]>
            (offsets st)
      ∧ cache st' = cache st
      ∧ sessionID st' = sessionID st
      ∧ (∀ k, fname_of k st' = fname_of k st)
      ∧ (∀ k h, file_of k st = Some h → hclosed h = false →
                ∃ h', file_of k st' = Some h' ∧ hname h' = hname h
                      ∧ hclosed h' = false).
Proof.
  unfold SaveMessage, bind, get, ret, modify, on_file, on_file_err in Hok.
  rewrite Hbody in Hok.
  destruct (File_Seek true hb w) as [[r1 hb1] w1] eqn:E1.
  destruct r1 as [off|]; [|discriminate Hok].
  rewrite file_of_set_file in Hok. simpl in Hok.
  simpl in Hheader. rewrite Hheader in Hok.
  destruct (File_Seek true hh w1) as [[r2 hh1] w2] eqn:E2.
  destruct r2 as [off2|]; [|discriminate Hok].
  simpl in Hok.
  destruct (File_Write _ hh1 w2) as [[r3 hh2] w3] eqn:E3.
  destruct r3 as [n3|]; [|discriminate Hok].
  simpl in Hok.
  destruct (File_Write _ hb1 w3) as [[r4 hb2] w4] eqn:E4.
  destruct r4 as [n4|]; [|discriminate Hok].
  simpl in Hok.
  destruct (File_Sync hb2 w4) as [[r5 hb3] w5] eqn:E5.
  destruct r5 as [e5|]; [discriminate Hok|].
  simpl in Hok.
  destruct (File_Sync hh2 w5) as [[r6 hh3] w6] eqn:E6.
  destruct r6 as [e6|]; [discriminate Hok|].
  simpl in Hok. injection Hok as <- <-.
  apply File_Seek_ok in E1 as (Hcb & Hfs1 & fb & Hfb & -> & ->).
  apply File_Seek_ok in E2 as (Hch & Hfs2 & fh & Hfh & -> & ->).
  apply File_Write_ok in E3 as (_ & fh' & Hfh' & Hfs3 & ->).
  apply File_Write_ok in E4 as (_ & fb' & Hfb' & Hfs4 & ->).
  apply File_Sync_ok in E5 as (_ & -> & fb'' & Hfb'' & Hfs5).
  apply File_Sync_ok in E6 as (_ & -> & fh'' & Hfh'' & Hfs6).
  cbn [hname hpos set_pos] in *.
  rewrite Hfs1 in Hfh.
  rewrite Hfs2, Hfs1, Hfh in Hfh'. injection Hfh' as <-.
  rewrite Hfs3, lookup_insert_ne, Hfs2, Hfs1, Hfb in Hfb' by done.
  injection Hfb' as <-.
  rewrite Hfs4, lookup_insert_eq in Hfb''. injection Hfb'' as <-.
  rewrite Hfs5, lookup_insert_ne, Hfs4, lookup_insert_ne, Hfs3,
    lookup_insert_eq in Hfh'' by done.
  injection Hfh'' as <-. cbn [data durable] in *.
  rewrite !write_at_end in *.
  assert (fs w6 !! hname hb
          = Some {| data := data fb ++ msg; durable := data fb ++ msg |}) as Hb'.
  { rewrite Hfs6, lookup_insert_ne, Hfs5, lookup_insert_eq by done. done. }
  assert (fs w6 !! hname hh
          = Some {| data := data fh ++ header_line
                      (seqNum, Z.of_nat (length (data fb)), Z.of_nat (length msg));
                    durable := data fh ++ header_line
                      (seqNum, Z.of_nat (length (data fb)), Z.of_nat (length msg)) |})
    as Hh'.
  { rewrite Hfs6, lookup_insert_eq. done. }
  assert (∀ name, name ≠ hname hb → name ≠ hname hh →
                  fs w6 !! name = fs w !! name) as Hother.
  { intros name Hn1 Hn2.
    rewrite Hfs6, lookup_insert_ne, Hfs5, lookup_insert_ne, Hfs4,
      lookup_insert_ne, Hfs3, lookup_insert_ne, Hfs2, Hfs1 by done. done. }
  exists fb, fh. repeat split; try done.
  2:{ intros k h Hh Hc. simpl in Hbody.
      destruct k; cbn [file_of set_files bodyFile headerFile sessionFile
                       senderSeqNumsFile targetSeqNumsFile] in Hh |- *;
        [ rewrite Hbody in Hh; injection Hh as <-
        | rewrite Hheader in Hh; injection Hh as <- | | | ];
        eauto. }
  intros name f Hf.
  destruct (decide (name = hname hb)) as [->|Hn1].
  { eexists. split; [exact Hb'|]. simpl.
    rewrite Hfb in Hf. injection Hf as <-. rewrite length_app. lia. }
  destruct (decide (name = hname hh)) as [->|Hn2].
  { eexists. split; [exact Hh'|]. simpl.
    rewrite Hfh in Hf. injection Hf as <-. rewrite length_app. lia. }
  exists f. split; [|done]. by rewrite Hother.
Qed.

(** C5. A [SaveMessage(seqNum, msg)] that returns nil has appended [msg]
    to the body file at the offset where the file ended, has appended the
    line [seqNum,offset,size\n] to the header file, has set the index
    entry of [seqNum] to that offset and [len(msg)], and has flushed both
    files (what is on stable storage is the whole new content).  No other
    file has changed and no file has become shorter.  The body and the
    header file of the store are different files. *)
Theorem SaveMessage_appends_and_indexes
    (seqNum : Z) (msg : list byte) (st st' : fileStore) (w w' : world)
    (hb hh : handle)
    (Hbody : file_of Body st = Some hb)
    (Hheader : file_of Header st = Some hh)
    (Hdistinct : hname hb ≠ hname hh)
    (Hok : SaveMessage seqNum msg st w = (Return None, st', w')) :
  ∃ fb fh,
    fs w !! hname hb = Some fb ∧ fs w !! hname hh = Some fh
    ∧ let offset := Z.of_nat (length (data fb)) in
      let line := header_line (seqNum, offset, Z.of_nat (length msg)) in
      fs w' !! hname hb
        = Some {| data := data fb ++ msg; durable := data fb ++ msg |}
      ∧ fs w' !! hname hh
        = Some {| data := data fh ++ line; durable := data fh ++ line |}
      ∧ (∀ name, name ≠ hname hb → name ≠ hname hh →
                 fs w' !! name = fs w !! name)
      ∧ (∀ name f, fs w !! name = Some f →
                   ∃ f', fs w' !! name = Some f'
                         ∧ (length (data f) ≤ length (data f'))%nat)
      ∧ offsets st'
        = <[seqNum := {| offset := offset; size := Z.of_nat (length msg) |}]>
            (offsets st)
      ∧ cache st' = cache st.
Proof.
  destruct (SaveMessage_effects seqNum msg st st' w w' hb hh
              Hbody Hheader Hdistinct Hok)
    as (fb & fh & Hfb & Hfh & Hb & Hh & Hother & Hgrow & Hoffs & Hcache & _).
  exists fb, fh. repeat split; assumption.
Qed.

(** ** The counter files *)

Section counters.

Lemma set_file_set_file k f g st :
  set_file k f (set_file k g st) = set_file k f st.
Proof. destruct k; reflexivity. Qed.

(** What a [setSeqNum] that returns nil has done. *)
Lemma setSeqNum_ok k n st w st' w' h :
  file_of k st = Some h →
  setSeqNum k n st w = (Return None, st', w') →
  ∃ f, fs w !! hname h = Some f
       ∧ fs w' = <[hname h :=
                     {| data := write_at 0 (fmt_019d n) (data f);
                        durable := write_at 0 (fmt_019d n) (data f) |}]> (fs w)
       ∧ st' = set_file k (Some (set_pos (length (fmt_019d n)) h)) st.
Proof.
  intros Hh H. unfold setSeqNum, bind, get, ret, on_file, on_file_err in H.
  rewrite Hh in H. cbv beta in H. rewrite Hh in H.
  destruct (File_Seek false h w) as [[r1 h1] w1] eqn:E1.
  destruct r1 as [z1|]; [|discriminate H].
  rewrite file_of_set_file, decide_True in H by done.
  destruct (File_Write _ h1 w1) as [[r2 h2] w2] eqn:E2.
  destruct r2 as [z2|]; [|discriminate H].
  rewrite file_of_set_file, decide_True in H by done.
  destruct (File_Sync h2 w2) as [[r3 h3] w3] eqn:E3.
  destruct r3 as [e3|]; [discriminate H|].
  injection H as <- <-.
  apply File_Seek_ok in E1 as (_ & Hfs1 & f & Hf & -> & _).
  apply File_Write_ok in E2 as (_ & f1 & Hf1 & Hfs2 & ->).
  apply File_Sync_ok in E3 as (_ & -> & f2 & Hf2 & Hfs3).
  cbn [hname hpos set_pos] in *.
  rewrite Hfs1, Hf in Hf1. injection Hf1 as <-.
  rewrite Hfs2, lookup_insert_eq in Hf2. injection Hf2 as <-.
  exists f. split; [done|]. split.
  - rewrite Hfs3, Hfs2, insert_insert_eq, Hfs1. done.
  - rewrite !set_file_set_file. done.
Qed.

End counters.

(** C9. The counter file holds its number as the text of [%019d]: 19
    bytes for every number that fits the width, no delimiter after it.
    A [setSeqNum] that returns nil on a file that is new (empty) or holds
    such a text (at most 19 bytes) leaves exactly the 19 bytes of the new
    number, flushed: a file of 19 bytes keeps its length, and parsing the
    content as an integer gives the number written. *)
Theorem counter_file_fixed_width
    (k : which) (n : Z) (st st' : fileStore) (w w' : world)
    (h : handle) (f : file)
    (Hfile : file_of k st = Some h)
    (Hf : fs w !! hname h = Some f)
    (Hlen : (length (data f) ≤ 19)%nat)
    (Hint : in_int n = true)
    (Hfits : fits_width n)
    (Hok : setSeqNum k n st w = (Return None, st', w')) :
  length (fmt_019d n) = 19%nat
  ∧ ∃ f', fs w' !! hname h = Some f'
          ∧ data f' = fmt_019d n
          ∧ durable f' = fmt_019d n
          ∧ (length (data f) = 19%nat → length (data f') = length (data f))
          ∧ Atoi (data f') = Some n
          ∧ disk_value Atoi (hname h) w' = Some n.
Proof.
  pose proof (fmt_019d_length n Hfits) as Hl.
  split; [exact Hl|].
  destruct (setSeqNum_ok _ _ _ _ _ _ _ Hfile Hok) as (f0 & Hf0 & Hfs & _).
  rewrite Hf in Hf0. injection Hf0 as <-.
  rewrite write_at_start in Hfs by lia.
  eexists. split; [rewrite Hfs; apply lookup_insert_eq|].
  cbn [data durable]. repeat split.
  - intros ->. done.
  - by apply Atoi_fmt_019d.
  - unfold disk_value. rewrite Hfs, lookup_insert_eq. cbn [data].
    by apply Atoi_fmt_019d.
Qed.

(** ** Rebuilding the index *)

Section rebuild.

Lemma index_of_lookup es : ∀ offs seqNum,
  index_of es offs !! seqNum
  = match last_entry seqNum es with
    | Some d => Some d
    | None => offs !! seqNum
    end.
Proof.
  induction es as [|e es IH]; intros offs seqNum; [done|].
  cbn [index_of fold_left last_entry].
  fold (index_of es (<[e.1.1 := {| offset := e.1.2; size := e.2 |}]> offs)).
  rewrite IH. destruct (last_entry seqNum es); [done|].
  case_decide as He.
  - subst. by rewrite lookup_insert_eq.
  - by rewrite lookup_insert_ne.
Qed.

Lemma index_of_app es1 es2 offs :
  index_of (es1 ++ es2) offs = index_of es2 (index_of es1 offs).
Proof. unfold index_of. by rewrite fold_left_app. Qed.

(** Taking the same entries a second time changes nothing. *)
Lemma index_of_again es offs :
  index_of es (index_of es offs) = index_of es offs.
Proof.
  apply map_eq. intros seqNum. rewrite !index_of_lookup.
  by destruct (last_entry seqNum es).
Qed.

Lemma scan_header_world fuel : ∀ s offs w,
  faults w = [] → (scan_header fuel s offs w).2 = w.
Proof.
  induction fuel as [|f IH]; intros s offs w Hw; simpl; [done|].
  rewrite (draw_nofault _ Hw).
  destruct (Fscanf_header s) as [[[[a b] c] rest]|]; [|done].
  by apply IH.
Qed.

(** The scan takes the lines [SaveMessage] wrote one by one and stops,
    with what it has, at the first thing [Fscanf] does not accept. *)
Lemma scan_header_lines es : ∀ fuel offs w rest,
  faults w = [] → Forall entry_in_int es → Fscanf_header rest = None →
  (length (header_text es ++ rest) < fuel)%nat →
  scan_header fuel (header_text es ++ rest) offs w = (index_of es offs, w).
Proof.
  induction es as [|e es IH]; intros fuel offs w rest Hw Hes Hrest Hfuel;
    (destruct fuel as [|f]; [lia|]); simpl.
  - rewrite (draw_nofault _ Hw), Hrest. done.
  - apply Forall_cons in Hes as [He Hes].
    rewrite (draw_nofault _ Hw).
    change (header_text (e :: es)) with (header_line e ++ header_text es) in *.
    rewrite <- app_assoc in *.
    rewrite (Fscanf_header_line e _ He). destruct e as [[a b] c].
    rewrite IH; [done..|].
    rewrite length_app in Hfuel.
    pose proof (header_line_length (a, b, c)). lia.
Qed.

Lemma scan_header_pure fuel : ∀ s offs w w',
  faults w = [] → faults w' = [] →
  (scan_header fuel s offs w).1 = (scan_header fuel s offs w').1.
Proof.
  induction fuel as [|f IH]; intros s offs w w' Hw Hw'; simpl; [done|].
  rewrite (draw_nofault _ Hw), (draw_nofault _ Hw').
  destruct (Fscanf_header s) as [[[[a b] c] rest]|]; [|done].
  by apply IH.
Qed.

(** More fuel than the input is long does not change the scan. *)
Lemma scan_header_fuel fuel : ∀ fuel' s offs w,
  (length s < fuel)%nat → (length s < fuel')%nat →
  scan_header fuel s offs w = scan_header fuel' s offs w.
Proof.
  induction fuel as [|f IH]; intros fuel' s offs w H1 H2; [lia|].
  destruct fuel' as [|f']; [lia|]. simpl.
  destruct (draw w) as [[] w1]; [done|].
  destruct (Fscanf_header s) as [[[[a b] c] rest]|] eqn:E; [|done].
  apply Fscanf_header_consumes in E. apply IH; lia.
Qed.

Lemma File_Close_nofault h w :
  faults w = [] → hclosed h = false →
  File_Close h w
  = (None, {| hname := hname h; hpos := hpos h; hclosed := true |}, w).
Proof.
  intros Hw Hc. unfold File_Close. rewrite Hc, (draw_nofault _ Hw). done.
Qed.

Lemma ReadFile_nofault fname w :
  faults w = [] →
  ReadFile fname w
  = (match fs w !! fname with
     | Some f => Ok (data f)
     | None => Err ErrNotExist
     end, w).
Proof.
  intros Hw. unfold ReadFile. rewrite (draw_nofault _ Hw).
  by destruct (fs w !! fname).
Qed.

Lemma bind_eq {A B} (c : M A) (k : A → M B) st w a st' w' :
  c st w = (Return a, st', w') → bind c k st w = k a st' w'.
Proof. intros H. unfold bind. by rewrite H. Qed.

Lemma bind_assoc {A B C} (c : M A) (k1 : A → M B) (k2 : B → M C) st w :
  bind (bind c k1) k2 st w = bind c (λ a, bind (k1 a) k2) st w.
Proof. unfold bind. by destruct (c st w) as [[[a|] st'] w']. Qed.

Lemma check_eq c k st w st' w' :
  c st w = (Return None, st', w') → check c k st w = k st' w'.
Proof. intros H. unfold check. by rewrite (bind_eq _ _ _ _ _ _ _ H). Qed.

Lemma sys_eq {A} (c : world → A * world) st w a w' :
  c w = (a, w') → sys c st w = (Return a, st, w').
Proof. intros H. unfold sys. by rewrite H. Qed.

Lemma OpenFile_nofault fname w :
  faults w = [] →
  OpenFile fname false w
  = (match fs w !! fname with
     | Some _ => Ok {| hname := fname; hpos := 0; hclosed := false |}
     | None => Err ErrNotExist
     end, w).
Proof.
  intros Hw. unfold OpenFile. rewrite (draw_nofault _ Hw).
  by destruct (fs w !! fname).
Qed.

Lemma scan_header_nofault fuel s offs w :
  faults w = [] →
  scan_header fuel s offs w = ((scan_header fuel s offs w).1, w).
Proof.
  intros Hw. pose proof (scan_header_world fuel s offs w Hw).
  destruct (scan_header fuel s offs w). simpl in *. by subst.
Qed.

(** [populateCache] when no call fails for an outside reason. *)
Lemma populateCache_nofault st w :
  faults w = [] →
  populateCache st w
  = (Return (bool_decide
               (is_Some (disk_value UnmarshalText (sessionFname st) w)), None),
     set_cache (populated_cache st w) (set_offsets (scanned_offsets st w) st),
     w).
Proof.
  intros Hw.
  unfold populateCache, populated_cache, scanned_offsets, disk_value.
  destruct (fs w !! headerFname st) as [f0|] eqn:H0;
    (destruct (fs w !! sessionFname st) as [f1|] eqn:H1;
       [destruct (UnmarshalText (data f1)) eqn:U1|]);
    (destruct (fs w !! senderSeqNumsFname st) as [f2|] eqn:H2;
       [destruct (Atoi (data f2)) eqn:U2|]);
    (destruct (fs w !! targetSeqNumsFname st) as [f3|] eqn:H3;
       [destruct (Atoi (data f3)) eqn:U3|]);
    repeat (first
      [ rewrite bind_assoc
      | erewrite bind_eq by reflexivity
      | erewrite bind_eq by
          (apply sys_eq;
           first [ apply (ReadFile_nofault _ _ Hw)
                 | apply (OpenFile_nofault _ _ Hw)
                 | apply (scan_header_nofault _ _ _ _ Hw)
                 | rewrite File_Close_nofault by done; reflexivity ]) ];
      cbv beta iota; rewrite ?H0, ?H1, ?H2, ?H3, ?U1, ?U2, ?U3);
    unfold content_of; cbn [hname]; rewrite ?H0; destruct st; reflexivity.
Qed.

Lemma returns_ret {A} (P : A → Prop) a : P a → returns P (ret a).
Proof. intros H st w. by exists a. Qed.

Lemma returns_bind {A B} (P : B → Prop) (c : M A) (k : A → M B) :
  returns (λ _, True) c → (∀ a, returns P (k a)) → returns P (bind c k).
Proof.
  intros Hc Hk st w. unfold bind.
  destruct (Hc st w) as (a & Ha & _). unfold outcome_of in Ha.
  destruct (c st w) as [[o st'] w']. cbn [fst] in Ha. rewrite Ha. apply Hk.
Qed.

Lemma returns_sys {A} (c : world → A * world) : returns (λ _, True) (sys c).
Proof. intros st w. unfold sys. destruct (c w) as [a w']. by exists a. Qed.

Lemma returns_modify f : returns (λ _, True) (modify f).
Proof. intros st w. by exists tt. Qed.

Lemma returns_get : returns (λ _, True) get.
Proof. intros st w. by exists st. Qed.

(** [populateCache] never returns an error and never panics. *)
Lemma populateCache_no_error : returns (λ r, r.2 = None) populateCache.
Proof.
  unfold populateCache.
  apply returns_bind; [apply returns_get|]. intros st.
  apply returns_bind; [apply returns_sys|]. intros tmp.
  apply returns_bind.
  { destruct tmp; [|by apply returns_ret].
    apply returns_bind; [apply returns_sys|]. intros s.
    apply returns_bind; [apply returns_sys|]. intros offs.
    apply returns_modify. }
  intros _. apply returns_bind; [apply returns_sys|]. intros tb.
  apply returns_bind.
  { destruct tb as [bs|]; [|by apply returns_ret].
    destruct (UnmarshalText bs); [|by apply returns_ret].
    apply returns_bind; [apply returns_modify|]. intros _.
    by apply returns_ret. }
  intros populated. apply returns_bind; [apply returns_sys|]. intros sb.
  apply returns_bind.
  { destruct sb as [bs|]; [|by apply returns_ret].
    destruct (Atoi bs); [apply returns_modify | by apply returns_ret]. }
  intros _. apply returns_bind; [apply returns_sys|]. intros tgb.
  apply returns_bind.
  { destruct tgb as [bs|]; [|by apply returns_ret].
    destruct (Atoi bs); [apply returns_modify | by apply returns_ret]. }
  intros _. apply returns_bind.
  { destruct tmp; [apply returns_sys | by apply returns_ret]. }
  intros _. by apply returns_ret.
Qed.

End rebuild.

Section malformed.

(** A line with fewer than three fields is not accepted. *)
Lemma Fscanf_header_short_line a b tail :
  in_int a = true → in_int b = true →
  Fscanf_header (fmt_d a ++ newline :: tail) = None
  ∧ Fscanf_header (fmt_d a ++ comma :: fmt_d b ++ newline :: tail) = None.
Proof.
  intros Ha Hb. unfold Fscanf_header. split.
  - rewrite scan_int_fmt_d by done. done.
  - rewrite scan_int_fmt_d by done.
    change (expect_comma (comma :: ?r)) with (Some r). cbv beta iota.
    rewrite scan_int_fmt_d by done. done.
Qed.

Lemma Fscanf_header_empty : Fscanf_header [] = None.
Proof. reflexivity. Qed.

End malformed.

(** [populateCache] reads the header file from its start, one
    [Fscanf] of ["%d,%d,%d\n"] per line.  When the file is made of lines
    in that format followed by something [Fscanf] does not accept (a
    malformed or short line, or nothing), the scan stops there and
    [populateCache] returns no error; the index it leaves is the one the
    store had with the entries of the lines before that point put in, in
    the order of the file: each of their numbers is in the index, and a
    number on several lines has the entry of the last of them.
    [populateCache] returns no error in any world. *)
Theorem populateCache_scans_header_prefix
    (st : fileStore) (w : world) (hf : file)
    (es : list (Z * Z * Z)) (rest : list byte)
    (Hw : faults w = [])
    (Hfile : fs w !! headerFname st = Some hf)
    (Hdata : data hf = header_text es ++ rest)
    (Hes : Forall entry_in_int es)
    (Hrest : Fscanf_header rest = None) :
  returns (λ r, r.2 = None) populateCache
  ∧ (∃ populated,
       outcome_of (populateCache st w) = Return (populated, None))
  ∧ offsets (store_of (populateCache st w)) = index_of es (offsets st)
  ∧ (∀ seqNum,
       offsets (store_of (populateCache st w)) !! seqNum
       = match last_entry seqNum es with
         | Some d => Some d
         | None => offsets st !! seqNum
         end)
  ∧ (∀ e, e ∈ es →
          is_Some (offsets (store_of (populateCache st w)) !! e.1.1)).
Proof.
  assert (offsets (store_of (populateCache st w)) = index_of es (offsets st))
    as Hoffs.
  { rewrite (populateCache_nofault _ _ Hw). unfold store_of.
    cbn [fst snd offsets set_cache set_offsets].
    unfold scanned_offsets. rewrite Hfile, Hdata.
    rewrite scan_header_lines by (done || lia). done. }
  split; [apply populateCache_no_error|].
  split; [rewrite (populateCache_nofault _ _ Hw); eauto|].
  split; [exact Hoffs|].
  split.
  - intros seqNum. rewrite Hoffs. apply index_of_lookup.
  - intros e He. rewrite Hoffs, index_of_lookup.
    assert (is_Some (last_entry e.1.1 es)) as [d ->]; [|eauto].
    clear -He. induction es as [|e' es IH]; [by apply elem_of_nil in He|].
    apply elem_of_cons in He as [<-|He]; cbn [last_entry].
    + destruct (last_entry e.1.1 es); [eauto|].
      rewrite decide_True by done. eauto.
    + destruct (IH He) as [d ->]. eauto.
Qed.

(** ** The properties on the example runs *)

Lemma setters_update_cache_on_failed_write :
  let '(st, w) := opened in
  let w_fail := {| fs := fs w; clock := clock w; faults := [false; true] |} in
  ∃ e, outcome_of (SetNextSenderMsgSeqNum 7 st w_fail) = Return (Some e)
       ∧ NextSenderMsgSeqNum (store_of (SetNextSenderMsgSeqNum 7 st w_fail)) = 7
       ∧ disk_value Atoi "d/S.senderseqnums"
           (world_of (SetNextSenderMsgSeqNum 7 st w_fail)) = Some 1.
Proof. vm_compute. eexists. repeat split. Qed.

Lemma GetMessages_error_no_partial_result_witness :
  ∃ seqNum w1 w2,
    getMessage seqNum after_reset.1 w1
    = (Return ([], true,
               Some (Errorf "unable to read from file" "d/S.body" EOF)),
       after_reset.1, w2)
    ∧ is_Some (offsets after_reset.1 !! seqNum).
Proof.
  refine (proj1 (proj2 (GetMessages_error_no_partial_result
    5 1 3 after_reset.1 after_reset.2 []
    (Errorf "unable to read from file" "d/S.body" EOF)
    (store_of (GetMessages 5 1 3 after_reset.1 after_reset.2))
    (world_of (GetMessages 5 1 3 after_reset.1 after_reset.2)) _))).
  vm_compute. reflexivity.
Defined.

Lemma GetMessages_reads_indexed_range_witness :
  GetMessages 5 1 3 saved.1 saved.2
  = (Return (Some ([text "A"; text "C"], None)), saved.1, saved.2).
Proof.
  destruct (GetMessages_reads_indexed_range 5 1 3 saved.1 saved.2)
    as (Heq & _ & _).
  - vm_compute. discriminate.
  - reflexivity.
  - vm_compute. lia.
  - rewrite Heq. vm_compute. reflexivity.
Defined.

Lemma SaveMessage_appends_and_indexes_witness :
  fs (run (SaveMessage 1 (text "A")) opened).2 !! "d/S.body"
  = Some {| data := text "A"; durable := text "A" |}
  ∧ fs (run (SaveMessage 1 (text "A")) opened).2 !! "d/S.header"
    = Some {| data := text "1,0,1" ++ [newline];
              durable := text "1,0,1" ++ [newline] |}
  ∧ offsets (run (SaveMessage 1 (text "A")) opened).1
    = {[ 1 := {| offset := 0; size := 1 |} ]}.
Proof.
  destruct (SaveMessage_appends_and_indexes 1 (text "A")
              opened.1 (run (SaveMessage 1 (text "A")) opened).1
              opened.2 (run (SaveMessage 1 (text "A")) opened).2
              {| hname := "d/S.body"; hpos := 0; hclosed := false |}
              {| hname := "d/S.header"; hpos := 0; hclosed := false |})
    as (fb & fh & Hfb & Hfh & Hb & Hh & _ & _ & Hoffs & _).
  - vm_compute. reflexivity.
  - vm_compute. reflexivity.
  - discriminate.
  - vm_compute. reflexivity.
  - vm_compute in Hfb. injection Hfb as <-.
    vm_compute in Hfh. injection Hfh as <-.
    split; [exact Hb|]. split; [exact Hh|]. rewrite Hoffs. reflexivity.
Defined.

Lemma counter_file_fixed_width_witness :
  disk_value Atoi "d/S.senderseqnums"
    (world_of (setSeqNum SenderSeqNums 42 opened.1 opened.2)) = Some 42.
Proof.
  destruct (counter_file_fixed_width SenderSeqNums 42
              opened.1 (store_of (setSeqNum SenderSeqNums 42 opened.1 opened.2))
              opened.2 (world_of (setSeqNum SenderSeqNums 42 opened.1 opened.2))
              {| hname := "d/S.senderseqnums"; hpos := 19; hclosed := false |}
              {| data := fmt_019d 1; durable := fmt_019d 1 |})
    as (_ & f' & _ & _ & _ & _ & _ & Hdisk).
  - vm_compute. reflexivity.
  - vm_compute. reflexivity.
  - vm_compute. lia.
  - reflexivity.
  - unfold fits_width. lia.
  - vm_compute. reflexivity.
  - exact Hdisk.
Defined.

Lemma populateCache_scans_header_prefix_witness :
  offsets (store_of (populateCache (blank_store "S" "d") world_with_short_line))
  = {[ 1 := {| offset := 5; size := 2 |} ]}.
Proof.
  destruct (populateCache_scans_header_prefix
              (blank_store "S" "d") world_with_short_line
              {| data := header_text [(1, 0, 1); (1, 5, 2)]
                         ++ text "7,3" ++ [newline] ++ header_line (9, 9, 9);
                 durable := [] |}
              [(1, 0, 1); (1, 5, 2)]
              (text "7,3" ++ [newline] ++ header_line (9, 9, 9)))
    as (_ & _ & Hoffs & _).
  - reflexivity.
  - vm_compute. reflexivity.
  - reflexivity.
  - repeat constructor.
  - vm_compute. reflexivity.
  - rewrite Hoffs. vm_compute. reflexivity.
Defined.

(** The width is what keeps the counter file right: a value outside it,
    here [-10^18], is written in 20 bytes, and the 19 bytes of the next
    value leave the last of them behind. *)
Lemma counter_file_after_wider_value :
  let '(st, w) := opened in
  let '(_, st1, w1) := SetNextSenderMsgSeqNum (- 10 ^ 18) st w in
  let '(r, st2, w2) := SetNextSenderMsgSeqNum 5 st1 w1 in
  r = Return None ∧ NextSenderMsgSeqNum st2 = 5
  ∧ disk_value Atoi "d/S.senderseqnums" w2 = Some 50.
Proof. vm_compute. repeat split. Qed.

(** ** Where the code departs from the specification *)

(** C1. [Reset] deletes the five files and puts both sequence numbers
    back to 1 with a new creation time, but it leaves the index as it
    was: neither [Reset] nor the [Refresh] it ends with clears
    [store.offsets].  On the store with messages 1 and 3 saved, [Reset]
    returns nil and [GetMessages(1, 3)] then fails with [io.EOF] on the
    stale entry of 1 instead of returning the empty sequence; once a new
    message 7 is saved, the stale entries of 1 and 3 give bytes of that
    message. *)
Theorem Reset_leaves_stale_index :
  let '(st0, w0) := saved in
  let '(r, st, w) := Reset st0 w0 in
  r = Return None
  ∧ NextSenderMsgSeqNum st = 1 ∧ NextTargetMsgSeqNum st = 1
  ∧ CreationTime st0 = 100 ∧ CreationTime st = 300
  ∧ fs w !! "d/S.body" = Some {| data := []; durable := [] |}
  ∧ fs w !! "d/S.header" = Some {| data := []; durable := [] |}
  ∧ offsets st = offsets st0
  ∧ offsets st !! 1 = Some {| offset := 0; size := 1 |}
  ∧ outcome_of (GetMessages 5 1 3 st w)
    = Return (Some ([], Some (Errorf "unable to read from file" "d/S.body" EOF)))
  ∧ (let '(r', st', w') := SaveMessage 7 (text "ZZ") st w in
     r' = Return None
     ∧ outcome_of (GetMessages 9 1 7 st' w')
       = Return (Some ([text "Z"; text "Z"; text "ZZ"], None))).
Proof. vm_compute. repeat split. Qed.

(** C2. [Refresh] does not replace the index: [populateCache] puts the
    entries of the header file into the map the store already has.  On
    the store that was reset after messages 1 and 3 were saved, the
    header file is empty, [Refresh] returns nil, and the index still has
    the entries of 1 and 3, which are not in the file.  A store that
    [newFileStore] has just built starts from the empty map and has
    exactly the entries of the file. *)
Theorem Refresh_keeps_entries_absent_from_header :
  let '(st0, w0) := after_reset in
  let '(r, st, w) := Refresh st0 w0 in
  r = Return None
  ∧ fs w !! "d/S.header" = Some {| data := []; durable := [] |}
  ∧ (scan_header 1 [] ∅ w).1 = ∅
  ∧ offsets st !! 1 = Some {| offset := 0; size := 1 |}
  ∧ offsets st !! 3 = Some {| offset := 1; size := 1 |}
  ∧ (let '(r', w') := newFileStore "S" "d" w in
     ∃ st', r' = Return (Ok st') ∧ offsets st' = ∅).
Proof. vm_compute. repeat split. eexists. split; reflexivity. Qed.

(** C3. [Refresh] drops what [SetNextSenderMsgSeqNum] and
    [SetNextTargetMsgSeqNum] return at its end.  In the world where the
    write of the sender counter fails, [newFileStore] (and the [Refresh]
    in it) returns nil, the sender counter file is left empty, and the
    same call made directly returns the error. *)
Theorem Refresh_drops_counter_write_error :
  let '(r, w) := newFileStore "S" "d" world_failing_counter_write in
  (∃ st, r = Return (Ok st) ∧ NextSenderMsgSeqNum st = 1)
  ∧ fs w !! "d/S.senderseqnums" = Some {| data := []; durable := [] |}
  ∧ outcome_of (Refresh (blank_store "S" "d")
                  {| fs := ∅; clock := [100; 200];
                     faults := replicate 18 false ++ [true] |})
    = Return None
  ∧ (let '(st, w) := opened in
     outcome_of (SetNextSenderMsgSeqNum 1 st
                   {| fs := fs w; clock := clock w; faults := [false; true] |})
     = Return (Some (Errorf "unable to write to file" "d/S.senderseqnums" ErrIO))).
Proof. vm_compute. split; [eexists; split; reflexivity|]. repeat split. Qed.

(** A range that ends at the largest integer: when every read succeeds
    the loop goes on for ever, whatever the index holds. *)
Lemma GetMessages_loop_runs_on fuel : ∀ seqNum msgs st w h f,
  faults w = [] → file_of Body st = Some h → hclosed h = false →
  fs w !! hname h = Some f →
  (∀ s d, offsets st !! s = Some d → entry_inside (data f) d) →
  in_int seqNum = true →
  GetMessages_loop fuel seqNum int_max msgs st w = (Return None, st, w).
Proof.
  induction fuel as [|fuel IH]; intros seqNum msgs st w h f Hw Hh Hc Hf Hin Hs;
    [done|].
  cbn [GetMessages_loop]. pose proof Hs as Hs'. unfold in_int in Hs'.
  apply andb_prop in Hs' as [_ Hhi]. rewrite Hhi.
  assert (in_int (wrap_int (seqNum + 1)) = true) as Hnext.
  { unfold in_int, wrap_int, int_min, int_max.
    pose proof (Z.mod_pos_bound (seqNum + 1 + 2 ^ 63) (2 ^ 64) ltac:(lia)).
    apply andb_true_intro; split; apply Z.leb_le; lia. }
  destruct (offsets st !! seqNum) as [d|] eqn:Hd.
  - rewrite (bind_eq _ _ _ _ _ _ _
               (getMessage_inside seqNum d st w h f Hw Hd Hh Hc Hf (Hin _ _ Hd))).
    cbv beta iota. by eapply IH.
  - rewrite (bind_eq _ _ _ _ _ _ _ (getMessage_absent seqNum st w Hd)).
    cbv beta iota. by eapply IH.
Qed.

(** C4. Closing a store and building it again does not give back what
    the store answered: the index a [Reset] has left behind (C1) is in
    the store and not in the files.  On the store where messages 1 and 3
    were saved, then [Reset] called, then message 7 saved,
    [GetMessages(1, 7)] returns three messages; [Close] returns nil,
    [newFileStore] for the same session and directory returns a store
    with the same sequence numbers and creation time, and its
    [GetMessages(1, 7)] returns one message. *)
Theorem reopen_after_Reset_returns_other_messages :
  let '(st, w) := resaved in
  outcome_of (Reset saved.1 saved.2) = Return None
  ∧ outcome_of (SaveMessage 7 (text "ZZ") after_reset.1 after_reset.2)
    = Return None
  ∧ outcome_of (GetMessages 9 1 7 st w)
    = Return (Some ([text "Z"; text "Z"; text "ZZ"], None))
  ∧ (let '(r1, st1, w1) := Close st w in
     r1 = Return None
     ∧ (let '(r2, w2) := newFileStore "S" "d" w1 in
        ∃ st2, r2 = Return (Ok st2)
               ∧ NextSenderMsgSeqNum st2 = NextSenderMsgSeqNum st
               ∧ NextTargetMsgSeqNum st2 = NextTargetMsgSeqNum st
               ∧ CreationTime st2 = CreationTime st
               ∧ outcome_of (GetMessages 9 1 7 st2 w2)
                 = Return (Some ([text "ZZ"], None)))).
Proof.
  vm_compute. split; [reflexivity|]. split; [reflexivity|].
  split; [reflexivity|]. split; [reflexivity|].
  eexists. split; [reflexivity|]. repeat split.
Qed.

(** C6. A range that ends at the largest integer is never answered:
    [seqNum <= endSeqNum] holds for every [seqNum] and [seqNum++] wraps
    around, so the loop has no last round.  On the store with messages 1
    and 3, [GetMessages(1, 3)] returns the two messages, and
    [GetMessages(1, MaxInt64)] is still running after any number of
    rounds. *)
Theorem GetMessages_up_to_MaxInt64_does_not_return :
  outcome_of (GetMessages 5 1 3 saved.1 saved.2)
  = Return (Some ([text "A"; text "C"], None))
  ∧ ∀ fuel,
      GetMessages fuel 1 int_max saved.1 saved.2
      = (Return None, saved.1, saved.2).
Proof.
  split; [vm_compute; reflexivity|]. intros fuel.
  apply (GetMessages_loop_runs_on fuel 1 [] saved.1 saved.2
           {| hname := "d/S.body"; hpos := 2; hclosed := false |}
           {| data := text "AC"; durable := text "AC" |}).
  - vm_compute. reflexivity.
  - vm_compute. reflexivity.
  - reflexivity.
  - vm_compute. reflexivity.
  - assert (offsets saved.1
            = <[3 := {| offset := 1; size := 1 |}]>
                (<[1 := {| offset := 0; size := 1 |}]> ∅)) as ->
      by (vm_compute; reflexivity).
    intros s d Hd.
    apply lookup_insert_Some in Hd as [[_ <-]|[_ Hd]];
      [vm_compute; repeat split; discriminate|].
    apply lookup_insert_Some in Hd as [[_ <-]|[_ Hd]];
      [vm_compute; repeat split; discriminate|].
    by rewrite lookup_empty in Hd.
  - reflexivity.
Qed.

(** C7. A last line that was cut inside its size field does not end the
    scan: [Fscanf] takes the end of the input for the newline of the
    format and returns three values, and [populateCache] puts them into
    the index, the size cut short.  After a crash that left 6 of the 8
    bytes of the line of message 2 in the header file, the index has
    message 2 with size 3 instead of 34, [newFileStore] returns nil, and
    [GetMessages(1, 2)] fails on the entry and returns nothing, the
    saved message 1 included.  Cut one field earlier, the line is
    dropped and [GetMessages(1, 2)] returns message 1. *)
Theorem populateCache_indexes_a_cut_last_line :
  take 6 (header_line (2, 12, 34)) = text "2,12,3"
  ∧ offsets (store_of (populateCache (blank_store "S" "d")
                         (world_with_cut_header 6)))
    = <[2 := {| offset := 12; size := 3 |}]>
        (<[1 := {| offset := 0; size := 12 |}]> ∅)
  ∧ (let '(r, w) := newFileStore "S" "d" (world_with_cut_header 6) in
     ∃ st, r = Return (Ok st)
           ∧ offsets st !! 2 = Some {| offset := 12; size := 3 |}
           ∧ outcome_of (GetMessages 4 1 2 st w)
             = Return (Some ([], Some (Errorf "unable to read from file"
                                         "d/S.body" EOF))))
  ∧ take 4 (header_line (2, 12, 34)) = text "2,12"
  ∧ (let '(r, w) := newFileStore "S" "d" (world_with_cut_header 4) in
     ∃ st, r = Return (Ok st)
           ∧ offsets st !! 2 = None
           ∧ outcome_of (GetMessages 4 1 2 st w)
             = Return (Some ([text "AAAAAAAAAAAA"], None))).
Proof.
  vm_compute. split; [reflexivity|]. split; [reflexivity|].
  split; [eexists; repeat split|]. split; [reflexivity|].
  eexists. repeat split.
Qed.

(** ** Closing and reopening *)

Section reopen.

Lemma draw_faults w b w' :
  draw w = (b, w') → faults w = [] → b = false ∧ faults w' = [].
Proof. unfold draw. intros H Hw. rewrite Hw in H. by injection H as <- <-. Qed.

Lemma Now_world w : fs (Now w).2 = fs w ∧ faults (Now w).2 = faults w.
Proof. unfold Now. by destruct (clock w). Qed.

Lemma cache_Reset_eq st w :
  cache_Reset st w
  = (Return tt, set_cache (MemoryStore.Reset (Now w).1) st, (Now w).2).
Proof.
  unfold cache_Reset, bind, sys, modify. by destruct (Now w).
Qed.

Lemma closeFile_nofault k st w :
  faults w = [] → (∀ h, file_of k st = Some h → hclosed h = false) →
  ∃ f, closeFile k st w = (Return None, set_file k f st, w).
Proof.
  intros Hw Hopen. unfold closeFile, bind, get, ret, on_file_err.
  destruct (file_of k st) as [h|] eqn:Hh.
  - rewrite Hh, File_Close_nofault by auto. eauto.
  - exists None. by rewrite (set_file_same k None st Hh).
Qed.

Lemma set_files_set_file b h s sn tn k f st :
  set_files b h s sn tn (set_file k f st) = set_files b h s sn tn st.
Proof. destruct k; reflexivity. Qed.

(** [Close] on open or nil files, no call failing. *)
Lemma Close_nofault st w :
  faults w = [] → (∀ k h, file_of k st = Some h → hclosed h = false) →
  Close st w = (Return None, set_files None None None None None st, w).
Proof.
  intros Hw Hopen. unfold Close.
  destruct (closeFile_nofault Body st w Hw (Hopen Body)) as [f1 E1].
  rewrite (check_eq _ _ _ _ _ _ E1).
  destruct (closeFile_nofault Header (set_file Body f1 st) w Hw) as [f2 E2].
  { intros h. rewrite file_of_set_file. apply (Hopen Header). }
  rewrite (check_eq _ _ _ _ _ _ E2).
  destruct (closeFile_nofault Session
              (set_file Header f2 (set_file Body f1 st)) w Hw) as [f3 E3].
  { intros h. rewrite !file_of_set_file. apply (Hopen Session). }
  rewrite (check_eq _ _ _ _ _ _ E3).
  destruct (closeFile_nofault SenderSeqNums
              (set_file Session f3 (set_file Header f2 (set_file Body f1 st)))
              w Hw) as [f4 E4].
  { intros h. rewrite !file_of_set_file. apply (Hopen SenderSeqNums). }
  rewrite (check_eq _ _ _ _ _ _ E4).
  destruct (closeFile_nofault TargetSeqNums
              (set_file SenderSeqNums f4
                 (set_file Session f3
                    (set_file Header f2 (set_file Body f1 st))))
              w Hw) as [f5 E5].
  { intros h. rewrite !file_of_set_file. apply (Hopen TargetSeqNums). }
  rewrite (check_eq _ _ _ _ _ _ E5).
  unfold bind, modify, ret. by rewrite !set_files_set_file.
Qed.

(** Opening a file that is there. *)
Lemma open_existing k st w :
  faults w = [] → is_Some (fs w !! fname_of k st) →
  open k st w
  = (Return None,
     set_file k (Some {| hname := fname_of k st; hpos := 0; hclosed := false |}) st,
     w).
Proof.
  intros Hw [f Hf]. unfold open, openOrCreateFile.
  erewrite bind_eq by reflexivity.
  rewrite bind_assoc.
  erewrite bind_eq by (apply sys_eq, (OpenFile_nofault _ _ Hw)).
  rewrite Hf. reflexivity.
Qed.

Lemma only_touches_refl name w : only_touches name w w.
Proof. by split. Qed.

Lemma only_touches_trans name w1 w2 w3 :
  only_touches name w1 w2 → only_touches name w2 w3 → only_touches name w1 w3.
Proof.
  intros [H1 G1] [H2 G2]. split.
  - intros n Hn. by rewrite H2, H1.
  - auto.
Qed.

Lemma only_touches_draw name w b w' : draw w = (b, w') → only_touches name w w'.
Proof.
  intros D. split.
  - intros n _. by destruct (draw_fs _ _ _ D) as [-> _].
  - intros Hw. by destruct (draw_faults _ _ _ D Hw).
Qed.

Lemma only_touches_insert name f w :
  only_touches name w (set_fs (<[name := f]> (fs w)) w).
Proof.
  split; [|done]. intros n Hn. cbn [fs set_fs]. by rewrite lookup_insert_ne.
Qed.

Lemma File_Seek_frame to_end : op_frame (File_Seek to_end).
Proof.
  intros h w. unfold File_Seek.
  destruct (hclosed h) eqn:Hc; [split; [done|apply only_touches_refl]|].
  destruct (draw w) as [[] w1] eqn:D;
    [split; [done|by eapply only_touches_draw]|].
  destruct (fs w1 !! hname h);
    (split; [done|by eapply only_touches_draw]).
Qed.

Lemma File_Write_frame bs : op_frame (File_Write bs).
Proof.
  intros h w. unfold File_Write.
  destruct (hclosed h) eqn:Hc; [split; [done|apply only_touches_refl]|].
  destruct (draw w) as [[] w1] eqn:D;
    [split; [done|by eapply only_touches_draw]|].
  destruct (fs w1 !! hname h);
    (split; [done|]); [|by eapply only_touches_draw].
  eapply only_touches_trans; [by eapply only_touches_draw|].
  apply only_touches_insert.
Qed.

Lemma File_Sync_frame : op_frame File_Sync.
Proof.
  intros h w. unfold File_Sync.
  destruct (hclosed h) eqn:Hc; [split; [done|apply only_touches_refl]|].
  destruct (draw w) as [[] w1] eqn:D;
    [split; [done|by eapply only_touches_draw]|].
  destruct (fs w1 !! hname h);
    (split; [done|]); [|by eapply only_touches_draw].
  eapply only_touches_trans; [by eapply only_touches_draw|].
  apply only_touches_insert.
Qed.

Lemma on_file_frame {A} k (op : handle → world → result A * handle * world)
    st w h :
  op_frame op → file_of k st = Some h →
  ∃ r h' w',
    on_file k op st w = (Return r, set_file k (Some h') st, w')
    ∧ hname h' = hname h ∧ hclosed h' = hclosed h
    ∧ only_touches (hname h) w w'.
Proof.
  intros Hop Hh. unfold on_file. rewrite Hh. specialize (Hop h w).
  destruct (op h w) as [[r h'] w']. destruct Hop as [[? ?] ?].
  by exists r, h', w'.
Qed.

Lemma on_file_err_frame k op st w h :
  op_frame op → file_of k st = Some h →
  ∃ r h' w',
    on_file_err k op st w = (Return r, set_file k (Some h') st, w')
    ∧ hname h' = hname h ∧ hclosed h' = hclosed h
    ∧ only_touches (hname h) w w'.
Proof.
  intros Hop Hh. unfold on_file_err. rewrite Hh. specialize (Hop h w).
  destruct (op h w) as [[r h'] w']. destruct Hop as [[? ?] ?].
  by exists r, h', w'.
Qed.

(** What [setSeqNum] may change, whatever it returns: the position of
    its file and the content of that file. *)
Lemma setSeqNum_frame k n st w h :
  file_of k st = Some h →
  ∃ e h' w',
    setSeqNum k n st w = (Return e, set_file k (Some h') st, w')
    ∧ only_touches (hname h) w w'.
Proof.
  intros Hh. unfold setSeqNum.
  erewrite bind_eq by reflexivity. rewrite Hh.
  destruct (on_file_frame k (File_Seek false) st w h
              (File_Seek_frame false) Hh) as (r1 & h1 & w1 & E1 & N1 & C1 & T1).
  rewrite (bind_eq _ _ _ _ _ _ _ E1).
  destruct r1 as [z1|e1]; [|unfold ret; eauto 8].
  destruct (on_file_frame k (File_Write (fmt_019d n))
              (set_file k (Some h1) st) w1 h1 (File_Write_frame _))
    as (r2 & h2 & w2 & E2 & N2 & C2 & T2).
  { by rewrite file_of_set_file, decide_True. }
  rewrite (bind_eq _ _ _ _ _ _ _ E2), set_file_set_file. rewrite N1 in T2.
  pose proof (only_touches_trans _ _ _ _ T1 T2) as T12.
  destruct r2 as [z2|e2]; [|unfold ret; eauto 8].
  destruct (on_file_err_frame k File_Sync (set_file k (Some h2) st) w2 h2
              File_Sync_frame)
    as (r3 & h3 & w3 & E3 & N3 & C3 & T3).
  { by rewrite file_of_set_file, decide_True. }
  rewrite (bind_eq _ _ _ _ _ _ _ E3), set_file_set_file.
  rewrite N2, N1 in T3.
  pose proof (only_touches_trans _ _ _ _ T12 T3) as T123.
  destruct r3 as [e3|]; unfold ret; eauto 8.
Qed.

Lemma SetNext_same_value (c : memoryStore) :
  MemoryStore.SetNextSenderMsgSeqNum (MemoryStore.NextSenderMsgSeqNum c) c = c
  ∧ MemoryStore.SetNextTargetMsgSeqNum (MemoryStore.NextTargetMsgSeqNum c) c = c.
Proof. by destruct c. Qed.

Lemma set_cache_same st : set_cache (cache st) st = st.
Proof. by destruct st. Qed.

(** [Refresh] on a store whose files are all closed (nil), with the
    five files there and a session file that parses, no call failing:
    it succeeds; the cache is the one read from the files over the
    defaults, the index is the scan of the header over the entries the
    store had, the body file is open and its content untouched. *)
Lemma Refresh_reload st w t :
  faults w = [] → (∀ k, file_of k st = None) →
  bodyFname st ≠ senderSeqNumsFname st →
  bodyFname st ≠ targetSeqNumsFname st →
  (∀ k, is_Some (fs w !! fname_of k st)) →
  disk_value UnmarshalText (sessionFname st) w = Some t →
  ∃ st' w',
    Refresh st w = (Return None, st', w')
    ∧ cache st' = populated_cache (set_cache (MemoryStore.Reset (Now w).1) st) w
    ∧ offsets st' = scanned_offsets st w
    ∧ file_of Body st'
      = Some {| hname := bodyFname st; hpos := 0; hclosed := false |}
    ∧ bodyFname st' = bodyFname st
    ∧ fs w' !! bodyFname st = fs w !! bodyFname st
    ∧ faults w' = [].
Proof.
  intros Hw Hnil Hbs Hbt Hfiles Htime.
  destruct (Now_world w) as [Hfs1 Hw1].
  rewrite Hw in Hw1.
  assert (∀ name, disk_value UnmarshalText name (Now w).2
                  = disk_value UnmarshalText name w) as Hdv.
  { intros name. unfold disk_value. by rewrite Hfs1. }
  pose proof (Hfiles Body) as HB. pose proof (Hfiles Header) as HH.
  pose proof (Hfiles Session) as HS. pose proof (Hfiles SenderSeqNums) as HSn.
  pose proof (Hfiles TargetSeqNums) as HTn.
  pose proof (Hnil Body) as NB. pose proof (Hnil Header) as NH.
  pose proof (Hnil Session) as NS. pose proof (Hnil SenderSeqNums) as NSn.
  pose proof (Hnil TargetSeqNums) as NTn.
  clear Hfiles Hnil.
  unfold Refresh.
  rewrite (bind_eq _ _ _ _ _ _ _ (cache_Reset_eq st w)).
  erewrite check_eq; cycle 1.
  { apply Close_nofault; [exact Hw1|].
    intros k h E. destruct k; cbn in *; congruence. }
  erewrite bind_eq by (apply populateCache_nofault; exact Hw1).
  set (c := populated_cache _ _).
  set (o := scanned_offsets _ _).
  assert (c = populated_cache (set_cache (MemoryStore.Reset (Now w).1) st) w)
    as Hc.
  { subst c. unfold populated_cache, disk_value. by rewrite Hfs1. }
  assert (o = scanned_offsets st w) as Ho.
  { subst o. unfold scanned_offsets. cbn [headerFname set_files set_cache offsets].
    rewrite Hfs1. destruct (fs w !! headerFname st); [|done].
    by apply scan_header_pure. }
  clearbody c o.
  cbn [sessionFname set_files set_cache]. rewrite Hdv, Htime.
  rewrite bool_decide_eq_true_2 by eauto.
  cbv iota beta.
  destruct st as [sid c0 o0 bn hn sn ssn tsn bf hf sf ssf tsf].
  cbn in HB, HH, HS, HSn, HTn, NB, NH, NS, NSn, NTn, Hbs, Hbt.
  subst bf hf sf ssf tsf.
  norm_store.
  erewrite check_eq; cycle 1.
  { apply open_existing; [exact Hw1|]. by rewrite Hfs1. }
  erewrite check_eq; cycle 1.
  { apply open_existing; [exact Hw1|]. by rewrite Hfs1. }
  erewrite check_eq; cycle 1.
  { apply open_existing; [exact Hw1|]. by rewrite Hfs1. }
  erewrite check_eq; cycle 1.
  { apply open_existing; [exact Hw1|]. by rewrite Hfs1. }
  erewrite check_eq; cycle 1.
  { apply open_existing; [exact Hw1|]. by rewrite Hfs1. }
  norm_store.
  erewrite check_eq by reflexivity.
  erewrite bind_eq by reflexivity.
  unfold SetNextSenderMsgSeqNum, NextSenderMsgSeqNum.
  erewrite bind_assoc. erewrite bind_eq by reflexivity.
  norm_store.
  rewrite (proj1 (SetNext_same_value c)).
  match goal with |- context [bind (setSeqNum ?k ?n) _ ?s ?w0] =>
    destruct (setSeqNum_frame k n s w0
                {| hname := ssn; hpos := 0; hclosed := false |} eq_refl)
      as (e1 & h1 & w2 & E1 & T1)
  end.
  rewrite (bind_eq _ _ _ _ _ _ _ E1). norm_store.
  erewrite bind_eq by reflexivity.
  unfold SetNextTargetMsgSeqNum, NextTargetMsgSeqNum.
  erewrite bind_assoc. erewrite bind_eq by reflexivity.
  norm_store.
  rewrite (proj2 (SetNext_same_value c)).
  match goal with |- context [bind (setSeqNum ?k ?n) _ ?s ?w0] =>
    destruct (setSeqNum_frame k n s w0
                {| hname := tsn; hpos := 0; hclosed := false |} eq_refl)
      as (e2 & h2 & w3 & E2 & T2)
  end.
  rewrite (bind_eq _ _ _ _ _ _ _ E2). norm_store.
  cbn [hname] in T1, T2. destruct T1 as [F1 G1]. destruct T2 as [F2 G2].
  do 2 eexists. split; [reflexivity|].
  split; [exact Hc|]. split; [exact Ho|]. split; [reflexivity|].
  split; [reflexivity|]. split; [|auto].
  rewrite F2, F1, Hfs1 by done. done.
Qed.

Lemma File_ReadAt_nofault n off h w :
  faults w = [] → hclosed h = false →
  File_ReadAt n off h w = (read_at n off (fs w !! hname h), w).
Proof.
  intros Hw Hc. unfold File_ReadAt, read_at.
  destruct (off <? 0); [done|]. destruct n; [done|].
  rewrite Hc, (draw_nofault _ Hw).
  destruct (fs w !! hname h) as [f|]; [|done].
  by destruct (_ <=? _)%nat.
Qed.

Lemma getMessage_nofault seqNum st w h :
  faults w = [] → file_of Body st = Some h → hclosed h = false →
  getMessage seqNum st w
  = (read_outcome (offsets st !! seqNum) (bodyFname st) (fs w !! hname h), st, w).
Proof.
  intros Hw Hh Hc. unfold getMessage, read_outcome, bind, get, ret, panic, on_file.
  destruct (offsets st !! seqNum) as [d|]; [|done].
  destruct (size d <? 0); [done|].
  rewrite Hh, (File_ReadAt_nofault _ _ _ _ Hw Hc), (set_file_same _ _ _ Hh).
  by destruct (read_at _ _ _).
Qed.

(** With no outside failure, [GetMessages] depends on the index, on the
    name of the body file and on its content only. *)
Lemma GetMessages_loop_agree fuel : ∀ seqNum endSeqNum msgs st w st' w' h h',
  faults w = [] → faults w' = [] →
  file_of Body st = Some h → file_of Body st' = Some h' →
  hclosed h = false → hclosed h' = false →
  offsets st' = offsets st → bodyFname st' = bodyFname st →
  fs w' !! hname h' = fs w !! hname h →
  outcome_of (GetMessages_loop fuel seqNum endSeqNum msgs st' w')
  = outcome_of (GetMessages_loop fuel seqNum endSeqNum msgs st w).
Proof.
  induction fuel as [|f IH];
    intros seqNum endSeqNum msgs st w st' w' h h' Hw Hw' Hh Hh' Hc Hc' Ho Hn Hfs;
    [done|].
  simpl. destruct (seqNum <=? endSeqNum); [|done].
  unfold bind.
  rewrite (getMessage_nofault _ _ _ _ Hw Hh Hc),
    (getMessage_nofault _ _ _ _ Hw' Hh' Hc'), Ho, Hn, Hfs.
  destruct (read_outcome _ _ _) as [[[m found] [e|]]|]; [done| |done].
  by eapply IH.
Qed.

(** [Refresh] on a closed store under the names of a store in sync with
    its files, starting from the index of that store or from the empty
    one, gives a store that answers like it. *)
Lemma Refresh_same_observations st w st0 :
  synced st w → faults w = [] →
  (∀ k, file_of k st0 = None) →
  (∀ k, fname_of k st0 = fname_of k st) →
  offsets st0 = offsets st ∨ offsets st0 = ∅ →
  ∃ st' w',
    Refresh st0 w = (Return None, st', w') ∧ same_observations st w st' w'.
Proof.
  intros [Hnd Hopen Hfiles (hf & es & Hhf & Hdata & Hes & Hidx) Ht Hs Htg]
    Hw Hnil Hnames Hoffs.
  pose proof (Hnames Body) as NB. pose proof (Hnames Header) as NH.
  pose proof (Hnames Session) as NS. pose proof (Hnames SenderSeqNums) as NSn.
  pose proof (Hnames TargetSeqNums) as NTn. cbn in NB, NH, NS, NSn, NTn.
  destruct (Refresh_reload st0 w (CreationTime st)) as
    (st' & w' & ER & Hc & Ho & Hbf & Hbn & Hfs & Hw'); try assumption.
  - rewrite NB, NSn. by apply (Hnd Body SenderSeqNums).
  - rewrite NB, NTn. by apply (Hnd Body TargetSeqNums).
  - intros k. rewrite Hnames. apply Hfiles.
  - by rewrite NS.
  - exists st', w'. split; [exact ER|].
    unfold populated_cache in Hc. cbn in Hc.
    rewrite NS, NSn, NTn, Ht, Hs, Htg in Hc.
    unfold same_observations, NextSenderMsgSeqNum, NextTargetMsgSeqNum,
      CreationTime.
    rewrite Hc. do 3 (split; [reflexivity|]).
    intros fuel b e. unfold GetMessages.
    destruct (Hopen Body) as (h & Hh & Hhn & Hhc). cbn in Hhn.
    eapply GetMessages_loop_agree; try done.
    + rewrite Ho. unfold scanned_offsets. rewrite NH, Hhf, Hdata.
      rewrite <- (app_nil_r (header_text es)) at 2.
      rewrite scan_header_lines by (done || (rewrite app_nil_r; lia)).
      cbn [fst].
      destruct Hoffs as [->| ->]; [|done].
      by rewrite Hidx, index_of_again.
    + by rewrite Hbn.
    + cbn [hname]. by rewrite Hhn, <- NB.
Qed.

End reopen.

(** A file store in sync with its files (every mutation made and
    flushed, as [newFileStore] on fresh files, [SaveMessage] and the
    setters leave it; not a store whose index holds what a [Reset] left
    behind), closed, and then
    either built again by [newFileStore] for the same session id and
    directory or refreshed, no call failing: the close and the reopening
    succeed, and the store obtained has the same next sender and target
    sequence numbers, the same creation time, and returns from
    [GetMessages] what the store returned before the close, for every
    range. *)
Theorem close_reopen_same_observations
    (st : fileStore) (w : world) (dirname : string)
    (Hsync : synced st w)
    (Hw : faults w = [])
    (Hnames : ∀ k, fname_of k st = fname_of k (blank_store (sessionID st) dirname)) :
  ∃ st1 w1,
    Close st w = (Return None, st1, w1)
    ∧ (∃ st2 w2,
         newFileStore (sessionID st) dirname w1 = (Return (Ok st2), w2)
         ∧ same_observations st w st2 w2)
    ∧ (∃ st3 w3,
         Refresh st1 w1 = (Return None, st3, w3)
         ∧ same_observations st w st3 w3).
Proof.
  exists (set_files None None None None None st), w.
  split.
  { apply Close_nofault; [done|]. intros k h Hh.
    destruct (synced_open _ _ Hsync k) as (h' & Hh' & _ & Hc). congruence. }
  split.
  - destruct (Refresh_same_observations st w (blank_store (sessionID st) dirname)
                Hsync Hw) as (st2 & w2 & E & Hobs).
    { by intros []. }
    { intros k. by rewrite Hnames. }
    { by right. }
    exists st2, w2. split; [|done].
    unfold newFileStore, MkdirAll. rewrite (draw_nofault _ Hw), E. done.
  - apply (Refresh_same_observations st w _ Hsync Hw).
    + by intros [].
    + by intros [].
    + by left.
Qed.


(** ** The operations keep the store in sync with its files *)

Section in_sync.

Lemma disk_value_fs {A} (parse : list byte → option A) name w w' :
  fs w' !! name = fs w !! name →
  disk_value parse name w' = disk_value parse name w.
Proof. unfold disk_value. by intros ->. Qed.

Lemma header_text_snoc es e :
  header_text (es ++ [e]) = header_text es ++ header_line e.
Proof.
  unfold header_text. rewrite map_app, concat_app. simpl.
  by rewrite app_nil_r.
Qed.

(** A successful [SaveMessage] of a message that keeps the body file
    within the range of Go's integers leaves the store in sync. *)
Lemma SaveMessage_keeps_synced seqNum msg st w st' w' fb :
  synced st w →
  in_int seqNum = true →
  fs w !! bodyFname st = Some fb →
  in_int (Z.of_nat (length (data fb) + length msg)) = true →
  SaveMessage seqNum msg st w = (Return None, st', w') →
  synced st' w'.
Proof.
  intros [Hnd Hopen Hfiles (hf & es & Hhf & Hdata & Hes & Hidx) Ht Hs Htg]
    Hseq Hfb Hrange Hok.
  destruct (Hopen Body) as (hb & Hhb & Nb & Cb).
  destruct (Hopen Header) as (hh & Hhh & Nh & Ch).
  cbn [fname_of] in Nb, Nh.
  assert (hname hb ≠ hname hh) as Hne.
  { rewrite Nb, Nh. by apply (Hnd Body Header). }
  destruct (SaveMessage_effects _ _ _ _ _ _ _ _ Hhb Hhh Hne Hok)
    as (fb' & fh' & Hfb' & Hfh' & Hb & Hh & Hother & Hgrow & Hoffs & Hcache
        & Hsid & Hnames & Hkeep).
  rewrite Nb, Hfb in Hfb'. injection Hfb' as <-.
  rewrite Nh, Hhf in Hfh'. injection Hfh' as <-.
  cbv zeta in Hb, Hh, Hoffs.
  assert (∀ k, k ≠ Body → k ≠ Header →
               fs w' !! fname_of k st = fs w !! fname_of k st) as Hsame.
  { intros k Hk1 Hk2. apply Hother.
    - rewrite Nb. by apply (Hnd k Body).
    - rewrite Nh. by apply (Hnd k Header). }
  assert (in_int (Z.of_nat (length (data fb))) = true
          ∧ in_int (Z.of_nat (length msg)) = true) as [Hr1 Hr2].
  { unfold in_int, int_min, int_max in *.
    apply andb_prop in Hrange as [_ Hr%Z.leb_le].
    split; apply andb_true_intro; split; apply Z.leb_le; lia. }
  pose proof (Hnames Header) as NH'. pose proof (Hnames Session) as NS'.
  pose proof (Hnames SenderSeqNums) as NSn'.
  pose proof (Hnames TargetSeqNums) as NTn'.
  cbn [fname_of] in NH', NS', NSn', NTn'.
  split.
  - intros k k' Hk. rewrite !Hnames. by apply Hnd.
  - intros k. destruct (Hopen k) as (h & Hh0 & N0 & C0).
    destruct (Hkeep k h Hh0 C0) as (h' & Hh' & N' & C').
    exists h'. rewrite Hnames. split; [done|]. split; [congruence|done].
  - intros k. rewrite Hnames. destruct (Hfiles k) as [f Hf].
    destruct (Hgrow _ _ Hf) as (f' & Hf' & _). eauto.
  - eexists _, (es ++ [(seqNum, Z.of_nat (length (data fb)),
                        Z.of_nat (length msg))]).
    rewrite NH', <- Nh.
    split; [exact Hh|]. cbn [data].
    split; [by rewrite header_text_snoc, Hdata|].
    split.
    + apply Forall_app. split; [done|]. by repeat constructor.
    + rewrite Hoffs, Hidx, index_of_app. done.
  - rewrite NS'. unfold CreationTime. rewrite Hcache.
    rewrite (disk_value_fs _ _ w); [done|]. by apply (Hsame Session).
  - rewrite NSn'. unfold NextSenderMsgSeqNum. rewrite Hcache.
    rewrite (disk_value_fs _ _ w); [done|]. by apply (Hsame SenderSeqNums).
  - rewrite NTn'. unfold NextTargetMsgSeqNum. rewrite Hcache.
    rewrite (disk_value_fs _ _ w); [done|]. by apply (Hsame TargetSeqNums).
Qed.

Lemma SaveMessage_synced seqNum msg st w st' w' fb :
  synced st w → counters_canonical st w →
  in_int seqNum = true →
  fs w !! bodyFname st = Some fb →
  in_int (Z.of_nat (length (data fb) + length msg)) = true →
  SaveMessage seqNum msg st w = (Return None, st', w') →
  synced st' w' ∧ counters_canonical st' w'.
Proof.
  intros [Hnd Hopen Hfiles (hf & es & Hhf & Hdata & Hes & Hidx) Ht Hs Htg]
    Hcan Hseq Hfb Hrange Hok.
  destruct (Hopen Body) as (hb & Hhb & Nb & Cb).
  destruct (Hopen Header) as (hh & Hhh & Nh & Ch).
  cbn [fname_of] in Nb, Nh.
  assert (hname hb ≠ hname hh) as Hne.
  { rewrite Nb, Nh. by apply (Hnd Body Header). }
  destruct (SaveMessage_effects _ _ _ _ _ _ _ _ Hhb Hhh Hne Hok)
    as (fb' & fh' & Hfb' & Hfh' & Hb & Hh & Hother & Hgrow & Hoffs & Hcache
        & Hsid & Hnames & Hkeep).
  rewrite Nb, Hfb in Hfb'. injection Hfb' as <-.
  rewrite Nh, Hhf in Hfh'. injection Hfh' as <-.
  cbv zeta in Hb, Hh, Hoffs.
  assert (∀ k, k ≠ Body → k ≠ Header →
               fs w' !! fname_of k st = fs w !! fname_of k st) as Hsame.
  { intros k Hk1 Hk2. apply Hother.
    - rewrite Nb. by apply (Hnd k Body).
    - rewrite Nh. by apply (Hnd k Header). }
  assert (in_int (Z.of_nat (length (data fb))) = true
          ∧ in_int (Z.of_nat (length msg)) = true) as [Hr1 Hr2].
  { unfold in_int, int_min, int_max in *.
    apply andb_prop in Hrange as [_ Hr%Z.leb_le].
    split; apply andb_true_intro; split; apply Z.leb_le; lia. }
  pose proof (Hnames Header) as NH'. pose proof (Hnames Session) as NS'.
  pose proof (Hnames SenderSeqNums) as NSn'.
  pose proof (Hnames TargetSeqNums) as NTn'.
  cbn [fname_of] in NH', NS', NSn', NTn'.
  split; [split|].
  - intros k k' Hk. rewrite !Hnames. by apply Hnd.
  - intros k. destruct (Hopen k) as (h & Hh0 & N0 & C0).
    destruct (Hkeep k h Hh0 C0) as (h' & Hh' & N' & C').
    exists h'. rewrite Hnames. split; [done|]. split; [congruence|done].
  - intros k. rewrite Hnames. destruct (Hfiles k) as [f Hf].
    destruct (Hgrow _ _ Hf) as (f' & Hf' & _). eauto.
  - eexists _, (es ++ [(seqNum, Z.of_nat (length (data fb)),
                        Z.of_nat (length msg))]).
    rewrite NH', <- Nh.
    split; [exact Hh|]. cbn [data].
    split; [by rewrite header_text_snoc, Hdata|].
    split.
    + apply Forall_app. split; [done|]. by repeat constructor.
    + rewrite Hoffs, Hidx, index_of_app. done.
  - rewrite NS'. unfold CreationTime. rewrite Hcache.
    rewrite (disk_value_fs _ _ w); [done|]. by apply (Hsame Session).
  - rewrite NSn'. unfold NextSenderMsgSeqNum. rewrite Hcache.
    rewrite (disk_value_fs _ _ w); [done|]. by apply (Hsame SenderSeqNums).
  - rewrite NTn'. unfold NextTargetMsgSeqNum. rewrite Hcache.
    rewrite (disk_value_fs _ _ w); [done|]. by apply (Hsame TargetSeqNums).
  - intros k Hk. rewrite Hnames. destruct (Hcan k Hk) as (f & Hf & Hl).
    exists f. split; [|done]. rewrite Hsame; [done| |]; by destruct Hk as [->| ->].
Qed.

(** A successful write of a counter that fits the width, the cache
    already holding the new value [n] for that counter. *)
Lemma setSeqNum_synced k n c st w st' w' :
  (k = SenderSeqNums ∧ c = MemoryStore.SetNextSenderMsgSeqNum n (cache st))
  ∨ (k = TargetSeqNums ∧ c = MemoryStore.SetNextTargetMsgSeqNum n (cache st)) →
  synced st w → counters_canonical st w →
  in_int n = true → fits_width n →
  setSeqNum k n (set_cache c st) w = (Return None, st', w') →
  synced st' w' ∧ counters_canonical st' w'.
Proof.
  intros Hk [Hnd Hopen Hfiles (hf & es & Hhf & Hdata & Hes & Hidx) Ht Hs Htg]
    Hcan Hint Hfits Hok.
  assert (k = SenderSeqNums ∨ k = TargetSeqNums) as Hk'
    by (destruct Hk as [[-> _]|[-> _]]; auto).
  destruct (Hopen k) as (h & Hh & Nh & Ch).
  assert (file_of k (set_cache c st) = Some h) as Hh' by (by destruct k).
  destruct (setSeqNum_ok _ _ _ _ _ _ _ Hh' Hok) as (f & Hf & Hfs & ->).
  destruct (Hcan k Hk') as (f0 & Hf0 & Hlen).
  rewrite Nh, Hf0 in Hf. injection Hf as <-.
  rewrite write_at_start in Hfs by (rewrite fmt_019d_length by done; lia).
  rewrite Nh in Hfs.
  assert (∀ k', k' ≠ k → fs w' !! fname_of k' st = fs w !! fname_of k' st)
    as Hsame.
  { intros k' Hne. rewrite Hfs, lookup_insert_ne; [done|].
    by apply (Hnd k k'). }
  assert (fs w' !! fname_of k st
          = Some {| data := fmt_019d n; durable := fmt_019d n |}) as Hnew.
  { by rewrite Hfs, lookup_insert_eq. }
  assert (∀ k', fname_of k' (set_file k (Some (set_pos (length (fmt_019d n)) h))
                               (set_cache c st)) = fname_of k' st) as Hnames.
  { intros k'. by destruct k, k'. }
  pose proof (Hnames Header) as NH'. pose proof (Hnames Session) as NS'.
  pose proof (Hnames SenderSeqNums) as NSn'.
  pose proof (Hnames TargetSeqNums) as NTn'.
  cbn [fname_of] in NH', NS', NSn', NTn'.
  split; [split|].
  - intros k1 k2 Hne. rewrite !Hnames. by apply Hnd.
  - intros k'. rewrite Hnames, file_of_set_file.
    destruct (decide (k = k')) as [<-|Hne].
    + eexists. split; [reflexivity|]. by split.
    + destruct (Hopen k') as (h' & ? & ? & ?). exists h'.
      split; [by destruct k'|done].
  - intros k'. rewrite Hnames.
    destruct (decide (k' = k)) as [->|Hne]; [by rewrite Hnew|].
    rewrite Hsame by done. apply Hfiles.
  - exists hf, es. rewrite NH'.
    split; [|split; [done|split; [done|by destruct k]]].
    rewrite <- Hhf. apply (Hsame Header). by destruct Hk' as [->| ->].
  - rewrite NS'. rewrite (disk_value_fs _ _ w).
    + rewrite Ht. unfold CreationTime.
      destruct Hk as [[-> ->]|[-> ->]]; reflexivity.
    + apply (Hsame Session). by destruct Hk' as [->| ->].
  - rewrite NSn'. destruct Hk as [[-> ->]|[-> ->]].
    + unfold disk_value. cbn [fname_of] in Hnew. rewrite Hnew. cbn [data].
      by rewrite Atoi_fmt_019d.
    + rewrite (disk_value_fs _ _ w); [|by apply (Hsame SenderSeqNums)].
      rewrite Hs. reflexivity.
  - rewrite NTn'. destruct Hk as [[-> ->]|[-> ->]].
    + rewrite (disk_value_fs _ _ w); [|by apply (Hsame TargetSeqNums)].
      rewrite Htg. reflexivity.
    + unfold disk_value. cbn [fname_of] in Hnew. rewrite Hnew. cbn [data].
      by rewrite Atoi_fmt_019d.
  - intros k' Hk2. rewrite Hnames.
    destruct (decide (k' = k)) as [->|Hne].
    + eexists. split; [exact Hnew|]. cbn [data]. by apply fmt_019d_length.
    + rewrite Hsame by done. by apply Hcan.
Qed.

(** The four setters keep the store in sync when they succeed with a
    value that fits the width of the counter file. *)
Lemma setters_synced st w :
  synced st w → counters_canonical st w →
  (∀ n st' w', in_int n = true → fits_width n →
     SetNextSenderMsgSeqNum n st w = (Return None, st', w') →
     synced st' w' ∧ counters_canonical st' w')
  ∧ (∀ n st' w', in_int n = true → fits_width n →
       SetNextTargetMsgSeqNum n st w = (Return None, st', w') →
       synced st' w' ∧ counters_canonical st' w')
  ∧ (∀ st' w', fits_width (wrap_int (NextSenderMsgSeqNum st + 1)) →
       IncrNextSenderMsgSeqNum st w = (Return None, st', w') →
       synced st' w' ∧ counters_canonical st' w')
  ∧ (∀ st' w', fits_width (wrap_int (NextTargetMsgSeqNum st + 1)) →
       IncrNextTargetMsgSeqNum st w = (Return None, st', w') →
       synced st' w' ∧ counters_canonical st' w').
Proof.
  intros Hsync Hcan.
  assert (∀ n, in_int (wrap_int n) = true) as Hwrap.
  { intros n. unfold in_int, wrap_int, int_min, int_max.
    pose proof (Z.mod_pos_bound (n + 2 ^ 63) (2 ^ 64) ltac:(lia)).
    apply andb_true_intro; split; apply Z.leb_le; lia. }
  split; [|split; [|split]].
  - intros n st' w' Hint Hfits Hok.
    eapply (setSeqNum_synced SenderSeqNums n); eauto.
  - intros n st' w' Hint Hfits Hok.
    eapply (setSeqNum_synced TargetSeqNums n); eauto.
  - intros st' w' Hfits Hok.
    eapply (setSeqNum_synced SenderSeqNums); eauto.
  - intros st' w' Hfits Hok.
    eapply (setSeqNum_synced TargetSeqNums); eauto.
Qed.

(** The five file names of a store are different. *)
Lemma blank_store_names sid dir k k' :
  k ≠ k' →
  fname_of k (blank_store sid dir) ≠ fname_of k' (blank_store sid dir).
Proof.
  intros Hk E. apply Hk.
  destruct k, k'; try reflexivity; cbn in E; unfold Join in E;
    do 4 apply String.app_inj in E; discriminate E.
Qed.

Lemma UnmarshalText_MarshalText t bs :
  MarshalText t = Ok bs → UnmarshalText bs = Some t.
Proof.
  unfold MarshalText, UnmarshalText. destruct (in_time t) eqn:Ht; [|done].
  intros [= <-]. unfold fmt_d. destruct (Z.ltb_spec t 0).
  - rewrite split_sign_minus.
    pose proof (digits_nonempty (- t)).
    pose proof (digits_all_digits (- t) ltac:(lia)) as Hall.
    pose proof (digits_value_digits (- t) ltac:(lia)) as Hv.
    destruct (digits (- t)) as [|d ds]; [done|].
    rewrite Hall. unfold signed_value. by rewrite Hv, Z.opp_involutive, Ht.
  - pose proof (digits_nonempty t).
    pose proof (digits_all_digits t ltac:(lia)) as Hall.
    pose proof (digits_value_digits t ltac:(lia)) as Hv.
    destruct (digits t) as [|d ds]; [done|].
    rewrite split_sign_digit
      by (simpl in Hall; by apply andb_prop in Hall as [? _]).
    rewrite Hall. unfold signed_value. by rewrite Hv, Ht.
Qed.

(** Opening a file that is not there creates it, empty. *)
Lemma open_missing k st w :
  faults w = [] → fs w !! fname_of k st = None →
  open k st w
  = (Return None,
     set_file k (Some {| hname := fname_of k st; hpos := 0; hclosed := false |}) st,
     set_fs (<[fname_of k st := {| data := []; durable := [] |}]> (fs w)) w).
Proof.
  intros Hw Hf. unfold open, openOrCreateFile.
  erewrite bind_eq by reflexivity.
  rewrite bind_assoc.
  erewrite bind_eq by (apply sys_eq, (OpenFile_nofault _ _ Hw)).
  rewrite Hf. rewrite bind_assoc.
  erewrite bind_eq; cycle 1.
  { apply sys_eq. unfold OpenFile. rewrite (draw_nofault _ Hw), Hf. reflexivity. }
  reflexivity.
Qed.

Lemma File_Seek_nofault to_end h w f :
  faults w = [] → hclosed h = false → fs w !! hname h = Some f →
  File_Seek to_end h w
  = (Ok (Z.of_nat (if to_end then length (data f) else 0%nat)),
     set_pos (if to_end then length (data f) else 0%nat) h, w).
Proof.
  intros Hw Hc Hf. unfold File_Seek. by rewrite Hc, (draw_nofault _ Hw), Hf.
Qed.

Lemma File_Write_nofault bs h w f :
  faults w = [] → hclosed h = false → fs w !! hname h = Some f →
  File_Write bs h w
  = (Ok (Z.of_nat (length bs)), set_pos (hpos h + length bs) h,
     set_fs (<[hname h := {| data := write_at (hpos h) bs (data f);
                             durable := durable f |}]> (fs w)) w).
Proof.
  intros Hw Hc Hf. unfold File_Write. by rewrite Hc, (draw_nofault _ Hw), Hf.
Qed.

Lemma File_Sync_nofault h w f :
  faults w = [] → hclosed h = false → fs w !! hname h = Some f →
  File_Sync h w
  = (None, h,
     set_fs (<[hname h := {| data := data f; durable := data f |}]> (fs w)) w).
Proof.
  intros Hw Hc Hf. unfold File_Sync. by rewrite Hc, (draw_nofault _ Hw), Hf.
Qed.

(** Seek to the start, write, flush: what [setSession] and [setSeqNum] do
    to their file when no call fails. *)
Lemma rewrite_file_nofault k bs st w h f :
  faults w = [] → file_of k st = Some h → hclosed h = false →
  fs w !! hname h = Some f →
  ∃ st1 w1 st2 w2,
    on_file k (File_Seek false) st w = (Return (Ok 0), st1, w1)
    ∧ on_file k (File_Write bs) st1 w1
      = (Return (Ok (Z.of_nat (length bs))), st2, w2)
    ∧ on_file_err k File_Sync st2 w2
      = (Return None, set_file k (Some (set_pos (length bs) h)) st,
         set_fs (<[hname h := {| data := write_at 0 bs (data f);
                                 durable := write_at 0 bs (data f) |}]> (fs w)) w).
Proof.
  intros Hw Hh Hc Hf.
  do 4 eexists. split; [|split].
  - unfold on_file. rewrite Hh, (File_Seek_nofault _ _ _ f) by done. reflexivity.
  - unfold on_file. rewrite file_of_set_file, decide_True by done.
    rewrite (File_Write_nofault _ _ _ f) by done. reflexivity.
  - unfold on_file_err. rewrite file_of_set_file, decide_True by done.
    erewrite File_Sync_nofault; [|done|done|].
    2:{ cbn [fs set_fs hname set_pos]. apply lookup_insert_eq. }
    cbn [fs set_fs hname set_pos hpos data]. rewrite !set_file_set_file.
    rewrite insert_insert_eq. reflexivity.
Qed.

Lemma setSeqNum_nofault k n st w h f :
  faults w = [] → file_of k st = Some h → hclosed h = false →
  fs w !! hname h = Some f →
  setSeqNum k n st w
  = (Return None, set_file k (Some (set_pos (length (fmt_019d n)) h)) st,
     set_fs (<[hname h := {| data := write_at 0 (fmt_019d n) (data f);
                             durable := write_at 0 (fmt_019d n) (data f) |}]>
               (fs w)) w).
Proof.
  intros Hw Hh Hc Hf.
  destruct (rewrite_file_nofault k (fmt_019d n) st w h f Hw Hh Hc Hf)
    as (st1 & w1 & st2 & w2 & E1 & E2 & E3).
  unfold setSeqNum. erewrite bind_eq by reflexivity. rewrite Hh.
  rewrite (bind_eq _ _ _ _ _ _ _ E1), (bind_eq _ _ _ _ _ _ _ E2),
    (bind_eq _ _ _ _ _ _ _ E3). reflexivity.
Qed.

Lemma setSession_nofault st w h f bs :
  faults w = [] → file_of Session st = Some h → hclosed h = false →
  fs w !! hname h = Some f →
  MarshalText (CreationTime st) = Ok bs →
  setSession st w
  = (Return None, set_file Session (Some (set_pos (length bs) h)) st,
     set_fs (<[hname h := {| data := write_at 0 bs (data f);
                             durable := write_at 0 bs (data f) |}]>
               (fs w)) w).
Proof.
  intros Hw Hh Hc Hf Hm.
  destruct (rewrite_file_nofault Session bs st w h f Hw Hh Hc Hf)
    as (st1 & w1 & st2 & w2 & E1 & E2 & E3).
  unfold setSession. erewrite bind_eq by reflexivity.
  rewrite (bind_eq _ _ _ _ _ _ _ E1).
  unfold CreationTime in Hm. rewrite Hm.
  rewrite (bind_eq _ _ _ _ _ _ _ E2), (bind_eq _ _ _ _ _ _ _ E3). reflexivity.
Qed.

(** [newFileStore] for a session whose five files are not there yet, no
    call failing and the clock within the years that have a text: the
    store is created in sync with its files, with both sequence numbers
    at 1, the creation time read from the clock and an empty index. *)
Lemma newFileStore_fresh sid dir w :
  faults w = [] →
  (∀ k, fs w !! fname_of k (blank_store sid dir) = None) →
  in_time (Now w).1 = true →
  ∃ st w',
    newFileStore sid dir w = (Return (Ok st), w')
    ∧ synced st w' ∧ counters_canonical st w'
    ∧ (∀ k, fname_of k st = fname_of k (blank_store sid dir))
    ∧ sessionID st = sid ∧ faults w' = []
    ∧ NextSenderMsgSeqNum st = 1 ∧ NextTargetMsgSeqNum st = 1
    ∧ CreationTime st = (Now w).1 ∧ offsets st = ∅.
Proof.
  intros Hw Hnone Htime.
  pose proof (blank_store_names sid dir) as Hd.
  destruct (Now_world w) as [Hfs1 Hw1]. rewrite Hw in Hw1.
  pose proof (Hnone Body) as HB. pose proof (Hnone Header) as HH.
  pose proof (Hnone Session) as HS. pose proof (Hnone SenderSeqNums) as HSn.
  pose proof (Hnone TargetSeqNums) as HTn.
  rewrite <- Hfs1 in HB, HH, HS, HSn, HTn.
  cbn [fname_of blank_store bodyFname headerFname sessionFname
    senderSeqNumsFname targetSeqNumsFname] in HB, HH, HS, HSn, HTn.
  assert (MarshalText (Now w).1 = Ok (fmt_d (Now w).1)) as Hm
    by (unfold MarshalText; by rewrite Htime).
  do 2 eexists. split.
  { unfold newFileStore, MkdirAll. rewrite (draw_nofault _ Hw).
    unfold Refresh.
    rewrite (bind_eq _ _ _ _ _ _ _ (cache_Reset_eq _ w)).
    erewrite check_eq; cycle 1.
    { apply Close_nofault; [exact Hw1|]. intros k h E. by destruct k. }
    erewrite bind_eq by (apply populateCache_nofault; exact Hw1).
    unfold populated_cache, scanned_offsets, disk_value.
    norm_store.
    rewrite HH, HS, HSn, HTn.
    rewrite bool_decide_eq_false_2 by (by intros [? ?]).
    cbv iota beta.
    erewrite check_eq by (apply open_missing; [exact Hw1 | exact HB]).
    norm_store.
    erewrite check_eq
      by (apply open_missing; [exact Hw1 | norm_world; lookups Hd; exact HH]).
    norm_store.
    erewrite check_eq
      by (apply open_missing; [exact Hw1 | norm_world; lookups Hd; exact HS]).
    norm_store.
    erewrite check_eq
      by (apply open_missing; [exact Hw1 | norm_world; lookups Hd; exact HSn]).
    norm_store.
    erewrite check_eq
      by (apply open_missing; [exact Hw1 | norm_world; lookups Hd; exact HTn]).
    norm_store. cbn [negb].
    erewrite check_eq; cycle 1.
    { eapply setSession_nofault;
        [exact Hw1 | reflexivity | reflexivity | | exact Hm].
      norm_world. cbn [hname]. lookups Hd. reflexivity. }
    norm_store.
    erewrite bind_eq by reflexivity.
    unfold SetNextSenderMsgSeqNum.
    erewrite bind_assoc. erewrite bind_eq by reflexivity.
    erewrite bind_eq; cycle 1.
    { eapply setSeqNum_nofault; [exact Hw1 | reflexivity | reflexivity |].
      norm_world. cbn [hname]. lookups Hd. reflexivity. }
    norm_store.
    erewrite bind_eq by reflexivity.
    unfold SetNextTargetMsgSeqNum.
    erewrite bind_assoc. erewrite bind_eq by reflexivity.
    erewrite bind_eq; cycle 1.
    { eapply setSeqNum_nofault; [exact Hw1 | reflexivity | reflexivity |].
      norm_world. cbn [hname]. lookups Hd. reflexivity. }
    norm_store. reflexivity. }
  cbv beta iota delta
    [NextSenderMsgSeqNum NextTargetMsgSeqNum CreationTime
     MemoryStore.NextSenderMsgSeqNum MemoryStore.NextTargetMsgSeqNum
     MemoryStore.CreationTime MemoryStore.SetNextSenderMsgSeqNum
     MemoryStore.SetNextTargetMsgSeqNum MemoryStore.Reset
     MemoryStore.senderMsgSeqNum MemoryStore.targetMsgSeqNum
     MemoryStore.creationTime cache].
  rewrite !write_at_start by (simpl; lia).
  split; [split|split].
  - intros k k' Hk. apply (Hd k k' Hk).
  - intros k.
    destruct k; eexists; (split; [reflexivity|]); split; reflexivity.
  - intros k. destruct k; norm_world; norm_store; lookups Hd; eauto.
  - exists {| data := []; durable := [] |}, []. norm_world. norm_store.
    lookups Hd. repeat split. constructor.
  - unfold disk_value. norm_world. norm_store. lookups Hd. cbn [data].
    by apply UnmarshalText_MarshalText.
  - unfold disk_value. norm_world. norm_store. lookups Hd. reflexivity.
  - unfold disk_value. norm_world. norm_store. lookups Hd. reflexivity.
  - intros k [->| ->]; norm_world; norm_store; lookups Hd; eauto.
  - split; [intros k; by destruct k|]. split; [reflexivity|].
    split; [exact Hw1|]. split; [reflexivity|]. split; [reflexivity|].
    split; reflexivity.
Qed.

End in_sync.

Lemma close_reopen_same_observations_witness :
  ∃ st1 w1,
    Close saved.1 saved.2 = (Return None, st1, w1)
    ∧ (∃ st2 w2,
         newFileStore (sessionID saved.1) "d" w1 = (Return (Ok st2), w2)
         ∧ same_observations saved.1 saved.2 st2 w2)
    ∧ (∃ st3 w3,
         Refresh st1 w1 = (Return None, st3, w3)
         ∧ same_observations saved.1 saved.2 st3 w3).
Proof.
  apply close_reopen_same_observations.
  - split.
    + intros k k' Hk.
      destruct k, k'; try (exfalso; apply Hk; reflexivity);
        vm_compute; discriminate.
    + intros k.
      destruct k; eexists; (split; [vm_compute; reflexivity|]);
        split; vm_compute; reflexivity.
    + intros k. destruct k; vm_compute; eauto.
    + exists {| data := header_text [(1, 0, 1); (3, 1, 1)];
                durable := header_text [(1, 0, 1); (3, 1, 1)] |},
        [(1, 0, 1); (3, 1, 1)].
      split; [vm_compute; reflexivity|]. split; [reflexivity|].
      split; [repeat constructor|]. vm_compute. reflexivity.
    + vm_compute. reflexivity.
    + vm_compute. reflexivity.
    + vm_compute. reflexivity.
  - vm_compute. reflexivity.
  - intros k. destruct k; vm_compute; reflexivity.
Defined.

(** * Further properties of the file store *)

(** ** Removing and opening files *)

Section files.

Lemma Remove_cases fname w :
  ∃ r w', Remove fname w = (r, w') ∧ clock w' = clock w
    ∧ match r with
      | None => fs w' = delete fname (fs w)
      | Some e => fs w' = fs w ∧ (IsNotExist e = true → fs w !! fname = None)
      end
    ∧ (faults w = [] → ∀ e, r = Some e → IsNotExist e = true).
Proof.
  unfold Remove. destruct (draw w) as [b w1] eqn:Hd.
  destruct (draw_fs _ _ _ Hd) as [Hfs Hck].
  destruct b.
  - eexists _, _. split; [done|]. split; [done|]. split; [done|].
    intros Hw. by destruct (draw_faults _ _ _ Hd Hw).
  - destruct (fs w1 !! fname) eqn:Hf.
    + eexists _, _. split; [done|]. cbn [clock fs set_fs].
      split; [done|]. split; [by rewrite Hfs|]. done.
    + eexists _, _. split; [done|]. split; [done|].
      split; [by rewrite <- Hfs|]. intros _ e [= <-]. done.
Qed.

End files.

(** X1. [removeFile] never reports that the file does not exist.  When it
    returns nil the file system is the one before without [fname] (the
    same one when the file was not there); when it returns an error
    nothing has been removed.  Without an outside failure it returns
    nil. *)
Theorem removeFile_ignores_missing_file
    (fname : string) (st : fileStore) (w : world) :
  ∃ r w',
    removeFile fname st w = (Return r, st, w')
    ∧ clock w' = clock w
    ∧ match r with
      | None => fs w' = delete fname (fs w)
      | Some e => IsNotExist e = false ∧ fs w' = fs w
      end
    ∧ (faults w = [] → r = None).
Proof.
  destruct (Remove_cases fname w) as (r & w' & HR & Hck & Hr & Hq).
  unfold removeFile, bind, sys, ret. rewrite HR.
  destruct r as [e|].
  - destruct (IsNotExist e) eqn:He; cbn [negb].
    + exists None, w'. split; [done|]. split; [done|].
      destruct Hr as [Hfs Hne]. split; [|done].
      rewrite Hfs. symmetry. apply delete_id. by apply Hne.
    + exists (Some e), w'. split; [done|]. split; [done|].
      split; [by destruct Hr|].
      intros Hw. specialize (Hq Hw e eq_refl). congruence.
  - exists None, w'. done.
Qed.

(** X2. [openOrCreateFile] never truncates: a file that is there keeps
    its content, a file that is not there is created empty, and no other
    file changes.  The handle it returns is at the start of the file.
    An error is the wrapped error of the second attempt, and then the
    files are as they were.  Without an outside failure it succeeds. *)
Theorem openOrCreateFile_keeps_content
    (fname : string) (st : fileStore) (w : world) :
  ∃ r w',
    openOrCreateFile fname st w = (Return r, st, w')
    ∧ clock w' = clock w
    ∧ match r with
      | Ok h =>
          h = {| hname := fname; hpos := 0; hclosed := false |}
          ∧ fs w' = match fs w !! fname with
                    | Some _ => fs w
                    | None => <[fname := {| data := []; durable := [] |}]> (fs w)
                    end
      | Err e =>
          (∃ cause, e = Errorf "error opening or creating file" fname cause)
          ∧ fs w' = fs w
      end
    ∧ (faults w = [] → ∃ h, r = Ok h).
Proof.
  unfold openOrCreateFile, bind, sys, ret, OpenFile.
  destruct (draw w) as [b1 w1] eqn:Hd1.
  destruct (draw_fs _ _ _ Hd1) as [Hfs1 Hck1].
  assert (∀ w2 b2, draw w1 = (b2, w2) →
            fs w2 = fs w ∧ clock w2 = clock w
            ∧ (faults w = [] → b2 = false)) as Hsecond.
  { intros w2 b2 Hd2. destruct (draw_fs _ _ _ Hd2) as [Hfs2 Hck2].
    split; [congruence|]. split; [congruence|]. intros Hw.
    destruct (draw_faults _ _ _ Hd1 Hw) as [_ Hw1].
    by destruct (draw_faults _ _ _ Hd2 Hw1). }
  destruct b1.
  - destruct (draw w1) as [b2 w2] eqn:Hd2.
    destruct (Hsecond _ _ eq_refl) as (Hfs2 & Hck2 & Hb2).
    destruct b2.
    + eexists _, _. split; [done|]. split; [done|].
      split; [split; [eauto|done]|].
      intros Hw. by destruct (draw_faults _ _ _ Hd1 Hw).
    + rewrite Hfs2. destruct (fs w !! fname) eqn:Hf;
        (eexists _, _; split; [done|]); cbn [clock fs set_fs];
        rewrite ?Hfs2; eauto.
  - rewrite Hfs1. destruct (fs w !! fname) eqn:Hf.
    + eexists _, _. split; [done|]. split; [done|]. split; [done|]. eauto.
    + destruct (draw w1) as [b2 w2] eqn:Hd2.
      destruct (Hsecond _ _ eq_refl) as (Hfs2 & Hck2 & Hb2).
      destruct b2.
      * eexists _, _. split; [done|]. split; [done|].
        split; [split; [eauto|done]|].
        intros Hw. by specialize (Hb2 Hw).
      * rewrite Hfs2, Hf.
        eexists _, _. split; [done|]. cbn [clock fs set_fs].
        rewrite ?Hfs2. eauto.
Qed.

(** ** Closing *)

Section closing.

Lemma closed_handle h :
  hclosed h = true →
  {| hname := hname h; hpos := hpos h; hclosed := true |} = h.
Proof. destruct h; simpl; by intros ->. Qed.

Lemma closeFile_cases k st w :
  (file_of k st = None ∧ closeFile k st w = (Return None, st, w))
  ∨ (∃ h e w',
       file_of k st = Some h
       ∧ closeFile k st w
         = (Return e,
            set_file k (Some {| hname := hname h; hpos := hpos h;
                                hclosed := true |}) st, w')
       ∧ fs w' = fs w ∧ clock w' = clock w
       ∧ (hclosed h = true → e = Some ErrClosed ∧ w' = w)).
Proof.
  unfold closeFile, bind, get, ret, on_file_err.
  destruct (file_of k st) as [h|] eqn:Hh; [right|by left].
  rewrite Hh. unfold File_Close.
  destruct (hclosed h) eqn:Hc.
  - exists h, (Some ErrClosed), w. cbn [IsNotExist negb].
    rewrite (closed_handle h Hc). done.
  - destruct (draw w) as [b w1] eqn:Hd.
    destruct (draw_fs _ _ _ Hd) as [Hfs Hck].
    destruct b; cbn [IsNotExist negb]; eexists _, _, _;
      (split; [done|]); (split; [done|]);
      (split; [done|]); (split; [done|]); congruence.
Qed.

Lemma Close_closeFiles : Close = closeFiles all_files forget_files.
Proof. reflexivity. Qed.

Lemma closeFiles_done ks : ∀ st w st1 w1,
  closeFiles ks forget_files st w = (Return None, st1, w1) →
  st1 = set_files None None None None None st
  ∧ fs w1 = fs w ∧ clock w1 = clock w.
Proof.
  induction ks as [|k ks IH]; intros st w st1 w1 H.
  - unfold closeFiles, forget_files, bind, modify, ret in H.
    by injection H as <- <-.
  - cbn [closeFiles] in H. unfold check in H.
    destruct (closeFile_cases k st w) as [[Hn E]|(h & e & w' & Hh & E & Hfs & Hck & _)].
    + rewrite (bind_eq _ _ _ _ _ _ _ E) in H. by apply IH.
    + rewrite (bind_eq _ _ _ _ _ _ _ E) in H.
      destruct e as [e|]; [discriminate H|].
      apply IH in H as (-> & -> & ->).
      by rewrite set_files_set_file.
Qed.

Lemma closeFiles_failed ks : ∀ st w e st' w',
  closeFiles ks forget_files st w = (Return (Some e), st', w') →
  (∀ k, k ∉ ks → file_of k st' = file_of k st)
  ∧ fs w' = fs w ∧ clock w' = clock w.
Proof.
  induction ks as [|k ks IH]; intros st w e st' w' H.
  - discriminate H.
  - cbn [closeFiles] in H. unfold check in H.
    destruct (closeFile_cases k st w)
      as [[Hn E]|(h & e1 & w1 & Hh & E & Hfs & Hck & _)];
      rewrite (bind_eq _ _ _ _ _ _ _ E) in H.
    + apply IH in H as (Hf & -> & ->). split; [|done].
      intros k' Hk'. apply not_elem_of_cons in Hk' as [_ Hk']. by apply Hf.
    + destruct e1 as [e1|].
      * injection H as <- <- <-. split; [|done].
        intros k' Hk'. apply not_elem_of_cons in Hk' as [Hne _].
        by rewrite file_of_set_file, decide_False.
      * apply IH in H as (Hf & -> & ->). split; [|by split; congruence].
        intros k' Hk'. apply not_elem_of_cons in Hk' as [Hne Hk'].
        rewrite (Hf k' Hk').
        by rewrite file_of_set_file, decide_False.
Qed.

Lemma closeFiles_first_closed ks : NoDup ks → ∀ st w e st' w',
  closeFiles ks forget_files st w = (Return (Some e), st', w') →
  first_closed ks st'.
Proof.
  induction 1 as [|k ks Hk Hnd IH]; intros st w e st' w' H.
  - discriminate H.
  - cbn [closeFiles] in H. unfold check in H. cbn [first_closed].
    destruct (closeFile_cases k st w)
      as [[Hn E]|(h & e1 & w1 & Hh & E & _)];
      rewrite (bind_eq _ _ _ _ _ _ _ E) in H.
    + destruct (closeFiles_failed _ _ _ _ _ _ H) as (Hf & _).
      rewrite (Hf k Hk), Hn. by eapply IH.
    + destruct e1 as [e1|].
      * injection H as <- <- <-.
        by rewrite file_of_set_file, decide_True.
      * destruct (closeFiles_failed _ _ _ _ _ _ H) as (Hf & _).
        rewrite (Hf k Hk), file_of_set_file, decide_True by done. done.
Qed.

Lemma closeFiles_again ks : ∀ k0 st w,
  first_closed ks st →
  closeFiles ks k0 st w = (Return (Some ErrClosed), st, w).
Proof.
  induction ks as [|k ks IH]; intros k0 st w H; [done|].
  cbn [closeFiles first_closed] in *. unfold check.
  destruct (closeFile_cases k st w)
    as [[Hn E]|(h & e1 & w1 & Hh & E & _ & _ & Hc)];
    rewrite (bind_eq _ _ _ _ _ _ _ E).
  - rewrite Hn in H. by apply IH.
  - rewrite Hh in H. destruct (Hc H) as [-> ->].
    rewrite (closed_handle h H), (set_file_same k (Some h) st Hh). done.
Qed.

Lemma all_files_NoDup : NoDup all_files.
Proof.
  unfold all_files.
  repeat (apply NoDup_cons_2;
          [rewrite ?elem_of_cons, elem_of_nil; intuition discriminate|]).
  apply NoDup_nil_2.
Qed.

Lemma first_closed_set_cache ks c st :
  first_closed ks (set_cache c st) ↔ first_closed ks st.
Proof.
  induction ks as [|k ks IH]; [done|]. cbn [first_closed].
  replace (file_of k (set_cache c st)) with (file_of k st) by by destruct k.
  by destruct (file_of k st).
Qed.

End closing.

(** X3. A [Close] that returns nil leaves the five files of the store
    nil and everything else of the store as it was; it changes no file
    content.  Closing again then returns nil without a call to the
    operating system. *)
Theorem Close_twice (st : fileStore) (w : world) (st1 : fileStore) (w1 : world)
    (Hclose : Close st w = (Return None, st1, w1)) :
  st1 = set_files None None None None None st
  ∧ (∀ k, file_of k st1 = None)
  ∧ fs w1 = fs w
  ∧ ∀ w2, Close st1 w2 = (Return None, st1, w2).
Proof.
  rewrite Close_closeFiles in Hclose.
  apply closeFiles_done in Hclose as (-> & Hfs & _).
  split; [done|]. split; [by intros []|]. split; [done|].
  intros w2. reflexivity.
Qed.

(** X4. A [Close] that returns an error cannot be made good: the file
    it got to is closed but still in the store, so every later [Close]
    fails on it with "file already closed", and so do [Refresh] and
    [Reset], which begin by closing.  Both have reset the cache by then:
    they leave the sequence numbers at 1 and a new creation time, and no
    file is read, removed or written. *)
Theorem Close_failure_is_permanent
    (st : fileStore) (w : world) (e : error) (st' : fileStore) (w' : world)
    (Hfail : Close st w = (Return (Some e), st', w')) (w2 : world) :
  Close st' w2 = (Return (Some ErrClosed), st', w2)
  ∧ Refresh st' w2
    = (Return (Some ErrClosed),
       set_cache (MemoryStore.Reset (Now w2).1) st', (Now w2).2)
  ∧ Reset st' w2
    = (Return (Some ErrClosed),
       set_cache (MemoryStore.Reset (Now w2).1) st', (Now w2).2)
  ∧ NextSenderMsgSeqNum (store_of (Refresh st' w2)) = 1
  ∧ NextTargetMsgSeqNum (store_of (Refresh st' w2)) = 1
  ∧ fs (world_of (Refresh st' w2)) = fs w2
  ∧ fs (world_of (Reset st' w2)) = fs w2.
Proof.
  rewrite Close_closeFiles in Hfail.
  pose proof (closeFiles_first_closed _ all_files_NoDup _ _ _ _ _ Hfail) as Hc.
  assert (∀ k0 : M (option error),
            bind cache_Reset (λ _, check Close k0) st' w2
            = (Return (Some ErrClosed),
               set_cache (MemoryStore.Reset (Now w2).1) st', (Now w2).2)) as Hboth.
  { intros k0. rewrite (bind_eq _ _ _ _ _ _ _ (cache_Reset_eq st' w2)).
    unfold check. rewrite Close_closeFiles.
    rewrite (bind_eq _ _ _ _ _ _ _
               (closeFiles_again all_files forget_files _ (Now w2).2
                  (proj2 (first_closed_set_cache all_files _ st') Hc))).
    reflexivity. }
  assert (Refresh st' w2
          = (Return (Some ErrClosed),
             set_cache (MemoryStore.Reset (Now w2).1) st', (Now w2).2)) as HR.
  { unfold Refresh. apply Hboth. }
  assert (Reset st' w2
          = (Return (Some ErrClosed),
             set_cache (MemoryStore.Reset (Now w2).1) st', (Now w2).2)) as HS.
  { unfold Reset. apply Hboth. }
  split; [rewrite Close_closeFiles; by apply closeFiles_again|].
  split; [exact HR|]. split; [exact HS|].
  rewrite HR, HS. unfold store_of, world_of. cbn [fst snd].
  repeat split; try done; apply Now_world.
Qed.

(** X5. A store whose files are nil, as [Close] leaves it, cannot be
    written to: the four setters of the sequence numbers panic (the
    error message of [setSeqNum] asks a nil file for its name),
    [SaveMessage] returns the error of the seek without writing, and
    reading an indexed message returns an error. *)
Theorem use_after_Close
    (st : fileStore) (w : world) (st1 : fileStore) (w1 : world)
    (Hclose : Close st w = (Return None, st1, w1))
    (w2 : world) (n : Z) (msg : list byte) :
  outcome_of (SetNextSenderMsgSeqNum n st1 w2) = Panicked
  ∧ outcome_of (SetNextTargetMsgSeqNum n st1 w2) = Panicked
  ∧ outcome_of (IncrNextSenderMsgSeqNum st1 w2) = Panicked
  ∧ outcome_of (IncrNextTargetMsgSeqNum st1 w2) = Panicked
  ∧ SaveMessage n msg st1 w2
    = (Return (Some (Errorf "unable to seek to end of file" (bodyFname st)
                       ErrInvalid)), st1, w2)
  ∧ (∀ d, offsets st !! n = Some d → 0 <= size d →
          getMessage n st1 w2
          = (Return ([], true,
                     Some (Errorf "unable to read from file" (bodyFname st)
                             ErrInvalid)), st1, w2)).
Proof.
  rewrite Close_closeFiles in Hclose.
  apply closeFiles_done in Hclose as (-> & _ & _).
  repeat split.
  - intros d Hd Hs. unfold getMessage, bind, get, ret, on_file.
    cbn [offsets set_files]. rewrite Hd.
    destruct (size d <? 0) eqn:Hlt; [lia|]. reflexivity.
Qed.

(** ** What a run of a method can change *)

Section moving.

Context (R : relation (fileStore * world)) `{!PreOrder R}.

Lemma moves_ret {A} (a : A) : moves R (ret a).
Proof. intros st w. reflexivity. Qed.

Lemma moves_panic {A} : moves R (@panic A).
Proof. intros st w. reflexivity. Qed.

Lemma moves_get : moves R get.
Proof. intros st w. reflexivity. Qed.

Lemma moves_bind {A B} (c : M A) (k : A → M B) :
  moves R c → (∀ a, moves R (k a)) → moves R (bind c k).
Proof.
  intros Hc Hk st w. specialize (Hc st w). unfold bind.
  destruct (c st w) as [[[a|] st'] w']; [|exact Hc].
  etransitivity; [exact Hc|]. apply Hk.
Qed.

Lemma moves_check c k : moves R c → moves R k → moves R (check c k).
Proof.
  intros Hc Hk. apply moves_bind; [done|].
  intros [e|]; [apply moves_ret | done].
Qed.

Lemma moves_modify f :
  (∀ st w, R (st, w) (f st, w)) → moves R (modify f).
Proof. intros H st w. apply H. Qed.

Lemma moves_sys {A} (c : world → A * world) :
  (∀ st w, R (st, w) (st, (c w).2)) → moves R (sys c).
Proof.
  intros H st w. specialize (H st w). unfold sys.
  by destruct (c w).
Qed.

Lemma moves_on_file {A} k (op : handle → world → result A * handle * world) :
  (∀ st w h, file_of k st = Some h →
     R (st, w) (set_file k (Some (op h w).1.2) st, (op h w).2)) →
  moves R (on_file k op).
Proof.
  intros H st w. unfold on_file.
  destruct (file_of k st) as [h|] eqn:Hh; [|reflexivity].
  specialize (H st w h Hh). by destruct (op h w) as [[r h'] w'].
Qed.

Lemma moves_on_file_err k op :
  (∀ st w h, file_of k st = Some h →
     R (st, w) (set_file k (Some (op h w).1.2) st, (op h w).2)) →
  moves R (on_file_err k op).
Proof.
  intros H st w. unfold on_file_err.
  destruct (file_of k st) as [h|] eqn:Hh; [|reflexivity].
  specialize (H st w h Hh). by destruct (op h w) as [[r h'] w'].
Qed.

End moving.

(** The calls to the operating system, one relation at a time. *)

Lemma fs_same_grows st st' w w' :
  fs w' = fs w → no_file_shrinks (st, w) (st', w').
Proof. intros H name f Hf. cbn [snd] in *. rewrite H. eauto. Qed.

Lemma write_grows st st' w w' name f f' :
  fs w !! name = Some f → (length (data f) ≤ length (data f'))%nat →
  fs w' = <[name := f']> (fs w) →
  no_file_shrinks (st, w) (st', w').
Proof.
  intros Hf Hl Hw n g Hg. cbn [snd] in *. rewrite Hw.
  destruct (decide (n = name)) as [->|Hne].
  - rewrite lookup_insert_eq. exists f'. split; [done|]. congruence.
  - rewrite lookup_insert_ne by done. eauto.
Qed.

Lemma create_grows st st' w w' name f' :
  fs w !! name = None → fs w' = <[name := f']> (fs w) →
  no_file_shrinks (st, w) (st', w').
Proof.
  intros Hf Hw n g Hg. cbn [snd] in *. rewrite Hw.
  destruct (decide (n = name)) as [->|Hne]; [congruence|].
  rewrite lookup_insert_ne by done. eauto.
Qed.

Lemma File_Seek_fs to_end h w : fs (File_Seek to_end h w).2 = fs w.
Proof.
  unfold File_Seek. destruct (hclosed h); [done|].
  destruct (draw w) as [b w1] eqn:Hd. destruct (draw_fs _ _ _ Hd) as [Hfs _].
  destruct b; [done|]. by destruct (fs w1 !! hname h).
Qed.

Lemma File_Close_fs h w :
  fs (File_Close h w).2 = fs w ∧ clock (File_Close h w).2 = clock w.
Proof.
  unfold File_Close. destruct (hclosed h); [done|].
  destruct (draw w) as [b w1] eqn:Hd. destruct (draw_fs _ _ _ Hd) as [Hfs Hck].
  by destruct b.
Qed.

Lemma File_ReadAt_fs n off h w :
  fs (File_ReadAt n off h w).2 = fs w
  ∧ clock (File_ReadAt n off h w).2 = clock w.
Proof.
  unfold File_ReadAt. destruct (off <? 0); [done|]. destruct n; [done|].
  destruct (hclosed h); [done|].
  destruct (draw w) as [b w1] eqn:Hd. destruct (draw_fs _ _ _ Hd) as [Hfs Hck].
  destruct b; [done|]. destruct (fs w1 !! hname h); [|done].
  by destruct (_ <=? _)%nat.
Qed.

Lemma ReadFile_fs fname w :
  fs (ReadFile fname w).2 = fs w ∧ clock (ReadFile fname w).2 = clock w.
Proof.
  unfold ReadFile.
  destruct (draw w) as [b w1] eqn:Hd. destruct (draw_fs _ _ _ Hd) as [Hfs Hck].
  destruct b; [done|]. by destruct (fs w1 !! fname).
Qed.

Lemma OpenFile_fs fname w :
  fs (OpenFile fname false w).2 = fs w
  ∧ clock (OpenFile fname false w).2 = clock w.
Proof.
  unfold OpenFile.
  destruct (draw w) as [b w1] eqn:Hd. destruct (draw_fs _ _ _ Hd) as [Hfs Hck].
  destruct b; [done|]. by destruct (fs w1 !! fname).
Qed.

Lemma scan_header_fs fuel : ∀ s offs w,
  fs (scan_header fuel s offs w).2 = fs w
  ∧ clock (scan_header fuel s offs w).2 = clock w
  ∧ ∀ n, is_Some (offs !! n) → is_Some ((scan_header fuel s offs w).1 !! n).
Proof.
  induction fuel as [|fuel IH]; intros s offs w; [done|].
  cbn [scan_header].
  destruct (draw w) as [b w1] eqn:Hd. destruct (draw_fs _ _ _ Hd) as [Hfs Hck].
  destruct b; [done|].
  destruct (Fscanf_header s) as [[[[seqNum off] sz] rest]|]; [|done].
  destruct (IH rest (<[seqNum := {| offset := off; size := sz |}]> offs) w1)
    as (H1 & H2 & H3).
  split; [congruence|]. split; [congruence|].
  intros n Hn. apply H3.
  destruct (decide (n = seqNum)) as [->|Hne].
  - rewrite lookup_insert_eq. eauto.
  - by rewrite lookup_insert_ne.
Qed.


Lemma File_Write_grows bs h w st st' :
  no_file_shrinks (st, w) (st', (File_Write bs h w).2).
Proof.
  unfold File_Write. destruct (hclosed h); [by apply fs_same_grows|].
  destruct (draw w) as [b w1] eqn:Hd. destruct (draw_fs _ _ _ Hd) as [Hfs _].
  destruct b; [by apply fs_same_grows|].
  destruct (fs w1 !! hname h) as [f|] eqn:Hf; [|by apply fs_same_grows].
  cbn [snd]. rewrite Hfs in Hf.
  eapply (write_grows _ _ _ _ _ _ _ Hf); [|cbn [fs set_fs]; by rewrite Hfs].
  cbn [data]. apply write_at_length.
Qed.

Lemma File_Sync_grows h w st st' :
  no_file_shrinks (st, w) (st', (File_Sync h w).2).
Proof.
  unfold File_Sync. destruct (hclosed h); [by apply fs_same_grows|].
  destruct (draw w) as [b w1] eqn:Hd. destruct (draw_fs _ _ _ Hd) as [Hfs _].
  destruct b; [by apply fs_same_grows|].
  destruct (fs w1 !! hname h) as [f|] eqn:Hf; [|by apply fs_same_grows].
  cbn [snd]. rewrite Hfs in Hf.
  eapply (write_grows _ _ _ _ _ _ _ Hf); [|cbn [fs set_fs]; by rewrite Hfs].
  done.
Qed.

Lemma OpenFile_grows fname create w st st' :
  no_file_shrinks (st, w) (st', (OpenFile fname create w).2).
Proof.
  unfold OpenFile.
  destruct (draw w) as [b w1] eqn:Hd. destruct (draw_fs _ _ _ Hd) as [Hfs _].
  destruct b; [by apply fs_same_grows|].
  destruct (fs w1 !! fname) as [f|] eqn:Hf; [by apply fs_same_grows|].
  destruct create; [|by apply fs_same_grows].
  cbn [snd]. rewrite Hfs in Hf.
  eapply (create_grows _ _ _ _ _ _ Hf). cbn [fs set_fs]. by rewrite Hfs.
Qed.

Lemma Now_fs w : fs (Now w).2 = fs w.
Proof. apply Now_world. Qed.

(** The methods, for [no_file_shrinks]. *)

Lemma grows_on_file_Seek k to_end :
  moves no_file_shrinks (on_file k (File_Seek to_end)).
Proof.
  apply moves_on_file; [apply _|]. intros st w h _.
  apply fs_same_grows, File_Seek_fs.
Qed.

Lemma grows_on_file_Write k bs :
  moves no_file_shrinks (on_file k (File_Write bs)).
Proof.
  apply moves_on_file; [apply _|]. intros st w h _. apply File_Write_grows.
Qed.

Lemma grows_on_file_Sync k : moves no_file_shrinks (on_file_err k File_Sync).
Proof.
  apply moves_on_file_err; [apply _|]. intros st w h _. apply File_Sync_grows.
Qed.

Lemma grows_closeFile k : moves no_file_shrinks (closeFile k).
Proof.
  unfold closeFile. apply moves_bind; [apply _|apply moves_get; apply _|].
  intros st. destruct (file_of k st); [|apply moves_ret; apply _].
  apply moves_bind; [apply _| |].
  - apply moves_on_file_err; [apply _|]. intros st0 w h0 _.
    apply fs_same_grows, File_Close_fs.
  - intros [e|]; [|apply moves_ret; apply _].
    destruct (negb (IsNotExist e)); apply moves_ret; apply _.
Qed.

Lemma grows_Close : moves no_file_shrinks Close.
Proof.
  unfold Close.
  repeat (apply moves_check; [apply _|apply grows_closeFile|]).
  apply moves_bind; [apply _| |intros _; apply moves_ret; apply _].
  apply moves_modify. intros st w. by apply fs_same_grows.
Qed.

Lemma grows_cache_Reset : moves no_file_shrinks cache_Reset.
Proof.
  unfold cache_Reset. apply moves_bind; [apply _| |].
  - apply moves_sys. intros st w. apply fs_same_grows, Now_fs.
  - intros now. apply moves_modify. intros st w. by apply fs_same_grows.
Qed.

Lemma modify_grows f : moves no_file_shrinks (modify f).
Proof. apply moves_modify. intros st w. by apply fs_same_grows. Qed.

Lemma sys_grows {A} (c : world → A * world) :
  (∀ w, fs (c w).2 = fs w) → moves no_file_shrinks (sys c).
Proof.
  intros H. apply moves_sys. intros st w. by apply fs_same_grows.
Qed.

Lemma grows_populateCache : moves no_file_shrinks populateCache.
Proof.
  unfold populateCache.
  apply moves_bind; [apply _|apply moves_get; apply _|]. intros st.
  apply moves_bind; [apply _|apply sys_grows; intros w; apply OpenFile_fs|].
  intros tmp. apply moves_bind; [apply _| |].
  { destruct tmp; [|apply moves_ret; apply _].
    apply moves_bind; [apply _|by apply sys_grows|]. intros s.
    apply moves_bind; [apply _| |intros offs; apply modify_grows].
    apply sys_grows. intros w. apply scan_header_fs. }
  intros _.
  apply moves_bind; [apply _|apply sys_grows; intros w; apply ReadFile_fs|].
  intros tb. apply moves_bind; [apply _| |].
  { destruct tb as [bs|]; [|apply moves_ret; apply _].
    destruct (UnmarshalText bs); [|apply moves_ret; apply _].
    apply moves_bind; [apply _|apply modify_grows|].
    intros _. apply moves_ret; apply _. }
  intros populated.
  apply moves_bind; [apply _|apply sys_grows; intros w; apply ReadFile_fs|].
  intros sb. apply moves_bind; [apply _| |].
  { destruct sb as [bs|]; [|apply moves_ret; apply _].
    destruct (Atoi bs); [apply modify_grows|apply moves_ret; apply _]. }
  intros _.
  apply moves_bind; [apply _|apply sys_grows; intros w; apply ReadFile_fs|].
  intros tgb. apply moves_bind; [apply _| |].
  { destruct tgb as [bs|]; [|apply moves_ret; apply _].
    destruct (Atoi bs); [apply modify_grows|apply moves_ret; apply _]. }
  intros _. apply moves_bind; [apply _| |intros _; apply moves_ret; apply _].
  destruct tmp as [h|]; [|apply moves_ret; apply _].
  apply sys_grows. intros w.
  pose proof (File_Close_fs h w) as [H _].
  by destruct (File_Close h w) as [[? ?] ?].
Qed.

Lemma grows_openOrCreateFile fname : moves no_file_shrinks (openOrCreateFile fname).
Proof.
  unfold openOrCreateFile. apply moves_bind; [apply _| |].
  - apply moves_sys. intros st w. apply OpenFile_grows.
  - intros [f|e]; [apply moves_ret; apply _|].
    apply moves_bind; [apply _| |].
    + apply moves_sys. intros st w. apply OpenFile_grows.
    + intros [f|e']; apply moves_ret; apply _.
Qed.

Lemma grows_open k : moves no_file_shrinks (open k).
Proof.
  unfold open. apply moves_bind; [apply _|apply moves_get; apply _|].
  intros st. apply moves_bind; [apply _|apply grows_openOrCreateFile|].
  intros [f|e];
    (apply moves_bind; [apply _|apply modify_grows|]);
    intros _; apply moves_ret; apply _.
Qed.

Lemma grows_setSession : moves no_file_shrinks setSession.
Proof.
  unfold setSession. apply moves_bind; [apply _|apply moves_get; apply _|].
  intros st. apply moves_bind; [apply _|apply grows_on_file_Seek|].
  intros [z|e]; [|apply moves_ret; apply _].
  destruct (MarshalText _) as [bs|e]; [|apply moves_ret; apply _].
  apply moves_bind; [apply _|apply grows_on_file_Write|].
  intros [z'|e]; [|apply moves_ret; apply _].
  apply moves_bind; [apply _|apply grows_on_file_Sync|].
  intros [e|]; apply moves_ret; apply _.
Qed.

Lemma grows_setSeqNum k n : moves no_file_shrinks (setSeqNum k n).
Proof.
  unfold setSeqNum. apply moves_bind; [apply _|apply moves_get; apply _|].
  intros st. destruct (file_of k st); [|apply moves_panic; apply _].
  apply moves_bind; [apply _|apply grows_on_file_Seek|].
  intros [z|e]; [|apply moves_ret; apply _].
  apply moves_bind; [apply _|apply grows_on_file_Write|].
  intros [z'|e]; [|apply moves_ret; apply _].
  apply moves_bind; [apply _|apply grows_on_file_Sync|].
  intros [e|]; apply moves_ret; apply _.
Qed.

Lemma grows_setters :
  (∀ n, moves no_file_shrinks (SetNextSenderMsgSeqNum n))
  ∧ (∀ n, moves no_file_shrinks (SetNextTargetMsgSeqNum n))
  ∧ moves no_file_shrinks IncrNextSenderMsgSeqNum
  ∧ moves no_file_shrinks IncrNextTargetMsgSeqNum.
Proof.
  unfold SetNextSenderMsgSeqNum, SetNextTargetMsgSeqNum,
    IncrNextSenderMsgSeqNum, IncrNextTargetMsgSeqNum.
  split; [|split; [|split]]; intros;
    (apply moves_bind; [apply _|apply modify_grows|]); intros _;
    try apply grows_setSeqNum;
    (apply moves_bind; [apply _|apply moves_get; apply _|]); intros st;
    apply grows_setSeqNum.
Qed.

Lemma grows_SaveMessage n msg : moves no_file_shrinks (SaveMessage n msg).
Proof.
  unfold SaveMessage. apply moves_bind; [apply _|apply moves_get; apply _|].
  intros st. apply moves_bind; [apply _|apply grows_on_file_Seek|].
  intros [off|e]; [|apply moves_ret; apply _].
  apply moves_bind; [apply _|apply grows_on_file_Seek|].
  intros [z|e]; [|apply moves_ret; apply _].
  apply moves_bind; [apply _|apply grows_on_file_Write|].
  intros [z'|e]; [|apply moves_ret; apply _].
  apply moves_bind; [apply _|apply modify_grows|]. intros _.
  apply moves_bind; [apply _|apply grows_on_file_Write|].
  intros [z''|e]; [|apply moves_ret; apply _].
  apply moves_bind; [apply _|apply grows_on_file_Sync|].
  intros [e|]; [apply moves_ret; apply _|].
  apply moves_bind; [apply _|apply grows_on_file_Sync|].
  intros [e|]; apply moves_ret; apply _.
Qed.

Lemma grows_Refresh : moves no_file_shrinks Refresh.
Proof.
  unfold Refresh. apply moves_bind; [apply _|apply grows_cache_Reset|].
  intros _. apply moves_check; [apply _|apply grows_Close|].
  apply moves_bind; [apply _|apply grows_populateCache|].
  intros [populated [e|]]; [apply moves_ret; apply _|].
  repeat (apply moves_check; [apply _|apply grows_open|]).
  apply moves_check; [apply _| |].
  { destruct (negb populated); [apply grows_setSession|apply moves_ret; apply _]. }
  destruct grows_setters as (Hs & Ht & _).
  apply moves_bind; [apply _|apply moves_get; apply _|]. intros st1.
  apply moves_bind; [apply _|apply Hs|]. intros _.
  apply moves_bind; [apply _|apply moves_get; apply _|]. intros st2.
  apply moves_bind; [apply _|apply Ht|]. intros _.
  apply moves_ret; apply _.
Qed.

(** ** Methods that only read, and files that never shrink *)

Lemma reads_getMessage seqNum : moves only_reads (getMessage seqNum).
Proof.
  unfold getMessage. apply moves_bind; [apply _|apply moves_get; apply _|].
  intros st. destruct (offsets st !! seqNum) as [d|]; [|apply moves_ret; apply _].
  destruct (size d <? 0); [apply moves_panic; apply _|].
  apply moves_bind; [apply _| |intros [m|e]; apply moves_ret; apply _].
  apply moves_on_file; [apply _|]. intros st0 w h Hh.
  pose proof (File_ReadAt_fs (Z.to_nat (size d)) (offset d) h w) as [Hfs Hck].
  destruct (File_ReadAt _ _ h w) as [r w'].
  split; [by apply set_file_same|]. done.
Qed.

Lemma reads_GetMessages_loop fuel : ∀ seqNum endSeqNum msgs,
  moves only_reads (GetMessages_loop fuel seqNum endSeqNum msgs).
Proof.
  induction fuel as [|fuel IH]; intros seqNum endSeqNum msgs;
    [apply moves_ret; apply _|].
  cbn [GetMessages_loop].
  destruct (seqNum <=? endSeqNum); [|apply moves_ret; apply _].
  apply moves_bind; [apply _|apply reads_getMessage|].
  intros [[m found] [e|]]; [apply moves_ret; apply _|]. apply IH.
Qed.

Lemma grows_GetMessages fuel b e : moves no_file_shrinks (GetMessages fuel b e).
Proof.
  intros st w. destruct (reads_GetMessages_loop fuel b e [] st w) as (_ & H & _).
  by apply fs_same_grows.
Qed.

(** The methods, for [no_new_fault]. *)

Lemma quiet_on_file {A} k (op : handle → world → result A * handle * world) :
  op_frame op → moves no_new_fault (on_file k op).
Proof.
  intros Hop. apply moves_on_file; [apply _|]. intros st w h _.
  specialize (Hop h w). destruct (op h w) as [[r h'] w'].
  destruct Hop as [_ [_ Hq]]. exact Hq.
Qed.

Lemma quiet_on_file_err k op :
  op_frame op → moves no_new_fault (on_file_err k op).
Proof.
  intros Hop. apply moves_on_file_err; [apply _|]. intros st w h _.
  specialize (Hop h w). destruct (op h w) as [[r h'] w'].
  destruct Hop as [_ [_ Hq]]. exact Hq.
Qed.

Lemma quiet_SaveMessage n msg : moves no_new_fault (SaveMessage n msg).
Proof.
  unfold SaveMessage. apply moves_bind; [apply _|apply moves_get; apply _|].
  intros st.
  apply moves_bind; [apply _|apply quiet_on_file, File_Seek_frame|].
  intros [off|e]; [|apply moves_ret; apply _].
  apply moves_bind; [apply _|apply quiet_on_file, File_Seek_frame|].
  intros [z|e]; [|apply moves_ret; apply _].
  apply moves_bind; [apply _|apply quiet_on_file, File_Write_frame|].
  intros [z'|e]; [|apply moves_ret; apply _].
  apply moves_bind;
    [apply _|apply moves_modify; intros ? ? H; exact H|]. intros _.
  apply moves_bind; [apply _|apply quiet_on_file, File_Write_frame|].
  intros [z''|e]; [|apply moves_ret; apply _].
  apply moves_bind; [apply _|apply quiet_on_file_err, File_Sync_frame|].
  intros [e|]; [apply moves_ret; apply _|].
  apply moves_bind; [apply _|apply quiet_on_file_err, File_Sync_frame|].
  intros [e|]; apply moves_ret; apply _.
Qed.

Lemma quiet_setSeqNum k n : moves no_new_fault (setSeqNum k n).
Proof.
  unfold setSeqNum. apply moves_bind; [apply _|apply moves_get; apply _|].
  intros st. destruct (file_of k st); [|apply moves_panic; apply _].
  apply moves_bind; [apply _|apply quiet_on_file, File_Seek_frame|].
  intros [z|e]; [|apply moves_ret; apply _].
  apply moves_bind; [apply _|apply quiet_on_file, File_Write_frame|].
  intros [z'|e]; [|apply moves_ret; apply _].
  apply moves_bind; [apply _|apply quiet_on_file_err, File_Sync_frame|].
  intros [e|]; apply moves_ret; apply _.
Qed.

(** X9. [populateCache] only reads the files: in every world, whatever
    fails, it leaves every file as it was, and of the store it changes
    only the cache and the index.  It never takes an entry out of the
    index: a sequence number that had an entry has one afterwards. *)
Theorem populateCache_only_adds (st : fileStore) (w : world) :
  fs (world_of (populateCache st w)) = fs w
  ∧ sessionID (store_of (populateCache st w)) = sessionID st
  ∧ (∀ k, fname_of k (store_of (populateCache st w)) = fname_of k st
          ∧ file_of k (store_of (populateCache st w)) = file_of k st)
  ∧ (∀ seqNum, is_Some (offsets st !! seqNum) →
               is_Some (offsets (store_of (populateCache st w)) !! seqNum)).
Proof.
  unfold populateCache.
  rewrite (bind_eq _ _ st w st st w eq_refl).
  destruct (OpenFile (headerFname st) false w) as [tmp w1] eqn:Ho.
  pose proof (OpenFile_fs (headerFname st) w) as [Hfs1 _]. rewrite Ho in Hfs1.
  rewrite (bind_eq _ _ _ _ _ _ _ (sys_eq _ st _ _ _ Ho)).
  assert (∃ st2 w2,
            (match tmp with
             | Ok h =>
                 let! s := sys (λ w, (content_of h w, w)) in
                 let! offs := sys (scan_header (S (length s)) s (offsets st)) in
                 modify (set_offsets offs)
             | Err _ => ret tt
             end) st w1 = (Return tt, st2, w2)
            ∧ fs w2 = fs w1 ∧ sessionID st2 = sessionID st
            ∧ (∀ k, fname_of k st2 = fname_of k st ∧ file_of k st2 = file_of k st)
            ∧ (∀ n, is_Some (offsets st !! n) → is_Some (offsets st2 !! n)))
    as (st2 & w2 & E2 & Hfs2 & Hid2 & Hk2 & Ho2).
  { destruct tmp as [h|]; [|exists st, w1; by repeat split].
    unfold bind, sys, modify.
    destruct (scan_header _ _ _ w1) as [offs w2] eqn:Hs.
    pose proof (scan_header_fs (S (length (content_of h w1))) (content_of h w1)
                  (offsets st) w1) as (H1 & _ & H3).
    rewrite Hs in H1, H3. exists (set_offsets offs st), w2.
    split; [done|]. split; [done|]. split; [done|]. split; [by intros []|].
    exact H3. }
  rewrite (bind_eq _ _ _ _ _ _ _ E2). cbv beta.
  match goal with
  | |- fs (world_of (?c st2 w2)) = _ ∧ _ =>
      assert (moves only_cache_changes c) as Htail
  end.
  { assert (∀ c, moves only_cache_changes (modify (λ st, set_cache (c st) st)))
      as Hmod.
    { intros c. apply moves_modify. intros st' w'.
      split; [done|]. split; [done|]. split; [done|]. by intros []. }
    assert (∀ {A} (c : world → A * world),
              (∀ w, fs (c w).2 = fs w) → moves only_cache_changes (sys c))
      as Hsys.
    { intros A c H. apply moves_sys. intros st' w'.
      split; [apply H|]. by repeat split. }
    apply moves_bind; [apply _|apply Hsys; intros w'; apply ReadFile_fs|].
    intros tb. apply moves_bind; [apply _| |].
    { destruct tb as [bs|]; [|apply moves_ret; apply _].
      destruct (UnmarshalText bs); [|apply moves_ret; apply _].
      apply moves_bind; [apply _|apply Hmod|].
      intros _. apply moves_ret; apply _. }
    intros populated.
    apply moves_bind; [apply _|apply Hsys; intros w'; apply ReadFile_fs|].
    intros sb. apply moves_bind; [apply _| |].
    { destruct sb as [bs|]; [|apply moves_ret; apply _].
      destruct (Atoi bs); [apply Hmod|apply moves_ret; apply _]. }
    intros _.
    apply moves_bind; [apply _|apply Hsys; intros w'; apply ReadFile_fs|].
    intros tgb. apply moves_bind; [apply _| |].
    { destruct tgb as [bs|]; [|apply moves_ret; apply _].
      destruct (Atoi bs); [apply Hmod|apply moves_ret; apply _]. }
    intros _. apply moves_bind; [apply _| |intros _; apply moves_ret; apply _].
    destruct tmp as [h|]; [|apply moves_ret; apply _].
    apply Hsys. intros w'.
    pose proof (File_Close_fs h w') as [H _].
    by destruct (File_Close h w') as [[? ?] ?]. }
  destruct (Htail st2 w2) as (Hfs3 & Hid3 & Ho3 & Hk3).
  cbn [fst snd] in *.
  split; [congruence|]. split; [congruence|]. split.
  - intros k. destruct (Hk3 k), (Hk2 k). split; congruence.
  - intros n Hn. rewrite Ho3. by apply Ho2.
Qed.

(** X10. [GetMessages] only reads: in every world, whatever the range
    and whatever fails, it leaves the store as it was, index and open
    files included, and every file with it. *)
Theorem GetMessages_only_reads
    (fuel : nat) (beginSeqNum endSeqNum : Z) (st : fileStore) (w : world) :
  store_of (GetMessages fuel beginSeqNum endSeqNum st w) = st
  ∧ fs (world_of (GetMessages fuel beginSeqNum endSeqNum st w)) = fs w
  ∧ clock (world_of (GetMessages fuel beginSeqNum endSeqNum st w)) = clock w.
Proof. apply (reads_GetMessages_loop fuel beginSeqNum endSeqNum [] st w). Qed.

(** X16. Apart from [Reset], no method of the file store removes a file
    or makes one shorter, whatever fails on the way: every file that is
    there before [Close], [Refresh], [SaveMessage], [GetMessages] or one
    of the four setters is there afterwards and is at least as long.
    Opening a store with [newFileStore] does not either. *)
Theorem only_Reset_shrinks_files :
  moves no_file_shrinks Close
  ∧ moves no_file_shrinks Refresh
  ∧ (∀ seqNum msg, moves no_file_shrinks (SaveMessage seqNum msg))
  ∧ (∀ fuel b e, moves no_file_shrinks (GetMessages fuel b e))
  ∧ (∀ next, moves no_file_shrinks (SetNextSenderMsgSeqNum next))
  ∧ (∀ next, moves no_file_shrinks (SetNextTargetMsgSeqNum next))
  ∧ moves no_file_shrinks IncrNextSenderMsgSeqNum
  ∧ moves no_file_shrinks IncrNextTargetMsgSeqNum
  ∧ (∀ sessionID dirname w name f,
       fs w !! name = Some f →
       ∃ f', fs (newFileStore sessionID dirname w).2 !! name = Some f'
             ∧ (length (data f) ≤ length (data f'))%nat).
Proof.
  destruct grows_setters as (H1 & H2 & H3 & H4).
  split; [apply grows_Close|]. split; [apply grows_Refresh|].
  split; [apply grows_SaveMessage|]. split; [apply grows_GetMessages|].
  split; [exact H1|]. split; [exact H2|]. split; [exact H3|].
  split; [exact H4|].
  intros sid dir w name f Hf. unfold newFileStore, MkdirAll.
  destruct (draw w) as [b w1] eqn:Hd. destruct (draw_fs _ _ _ Hd) as [Hfs _].
  destruct b; [cbn [snd]; rewrite Hfs; eauto|].
  pose proof (grows_Refresh (blank_store sid dir) w1 name f) as H.
  cbn [snd] in H. rewrite Hfs in H. specialize (H Hf).
  unfold world_of in H.
  by destruct (Refresh (blank_store sid dir) w1) as [[[[e|]|] st'] w'].
Qed.

(** ** Reading back what was saved *)

Section read_back.

Lemma SaveMessage_open seqNum msg st w st' w' hb :
  file_of Body st = Some hb →
  SaveMessage seqNum msg st w = (Return None, st', w') →
  hclosed hb = false.
Proof.
  intros Hbody Hok.
  unfold SaveMessage, bind, get, ret, modify, on_file, on_file_err in Hok.
  rewrite Hbody in Hok.
  destruct (File_Seek true hb w) as [[r1 hb1] w1] eqn:E1.
  destruct r1 as [off|]; [|discriminate Hok].
  by destruct (File_Seek_ok _ _ _ _ _ _ E1).
Qed.

Lemma SaveMessage_faults seqNum msg st w st' w' r :
  faults w = [] → SaveMessage seqNum msg st w = (r, st', w') → faults w' = [].
Proof.
  intros Hw Hok. pose proof (quiet_SaveMessage seqNum msg st w) as H.
  unfold no_new_fault, world_of in H. rewrite Hok in H. by apply H.
Qed.

Lemma message_at_appended body msg :
  message_at (body ++ msg)
    {| offset := Z.of_nat (length body); size := Z.of_nat (length msg) |}
  = msg.
Proof.
  unfold message_at. cbn [offset size]. rewrite !Nat2Z.id.
  rewrite drop_app_length. by rewrite take_ge.
Qed.

(** The message just saved, read with the store and the files
    [SaveMessage] left. *)
Lemma SaveMessage_read_back seqNum msg st st' w w' hb hh :
  file_of Body st = Some hb → file_of Header st = Some hh →
  hname hb ≠ hname hh →
  SaveMessage seqNum msg st w = (Return None, st', w') →
  faults w' = [] →
  getMessage seqNum st' w' = (Return (msg, true, None), st', w').
Proof.
  intros Hbody Hheader Hne Hok Hw'.
  pose proof (SaveMessage_open _ _ _ _ _ _ _ Hbody Hok) as Hc.
  destruct (SaveMessage_effects _ _ _ _ _ _ _ _ Hbody Hheader Hne Hok)
    as (fb & fh & Hfb & Hfh & Hb & _ & _ & _ & Hoffs & _ & _ & _ & Hkeep).
  cbv zeta in Hb, Hoffs.
  destruct (Hkeep Body hb Hbody Hc) as (hb' & Hhb' & Nb' & Cb').
  rewrite <- Nb' in Hb.
  rewrite (getMessage_inside seqNum _ st' w' hb' _ Hw'
             ltac:(rewrite Hoffs; apply lookup_insert_eq) Hhb' Cb' Hb).
  - cbn [data]. by rewrite message_at_appended.
  - unfold entry_inside. cbn [data offset size]. rewrite length_app. lia.
Qed.

Lemma read_outcome_appended d bname fb msg dur dur' m :
  read_outcome d bname (Some {| data := fb; durable := dur |})
  = Return (m, true, None) →
  read_outcome d bname (Some {| data := fb ++ msg; durable := dur' |})
  = Return (m, true, None).
Proof.
  unfold read_outcome, read_at. destruct d as [d|]; [|done].
  destruct (size d <? 0); [done|]. destruct (offset d <? 0); [done|].
  destruct (Z.to_nat (size d)) as [|n] eqn:Hn; [done|]. cbn [data].
  destruct (Nat.leb_spec (Z.to_nat (offset d) + S n) (length fb)) as [Hle|];
    [|done].
  intros H. rewrite length_app.
  destruct (Nat.leb_spec (Z.to_nat (offset d) + S n) (length fb + length msg));
    [|lia].
  rewrite drop_app_le by lia.
  rewrite take_app_le by (rewrite length_drop; lia). exact H.
Qed.

End read_back.

(** X6. A message can be read as soon as it is saved: after a
    [SaveMessage(seqNum, msg)] that returns nil, [GetMessages(seqNum,
    seqNum)] returns exactly [msg], whatever the index held for
    [seqNum] before, provided the read does not fail for an outside
    reason. *)
Theorem SaveMessage_then_GetMessages
    (seqNum : Z) (msg : list byte) (st st' : fileStore) (w w' : world)
    (hb hh : handle) (fuel : nat)
    (Hbody : file_of Body st = Some hb)
    (Hheader : file_of Header st = Some hh)
    (Hdistinct : hname hb ≠ hname hh)
    (Hint : in_int seqNum = true)
    (Hmax : seqNum < int_max)
    (Hok : SaveMessage seqNum msg st w = (Return None, st', w'))
    (Hw : faults w' = []) :
  GetMessages (S (S fuel)) seqNum seqNum st' w'
  = (Return (Some ([msg], None)), st', w').
Proof.
  unfold GetMessages. cbn [GetMessages_loop].
  rewrite Z.leb_refl.
  rewrite (bind_eq _ _ _ _ _ _ _
             (SaveMessage_read_back _ _ _ _ _ _ _ _ Hbody Hheader Hdistinct Hok Hw)).
  cbv beta iota.
  rewrite wrap_int_id.
  - destruct (Z.leb_spec (seqNum + 1) seqNum); [lia|]. reflexivity.
  - unfold in_int in Hint. apply andb_prop in Hint as [H1%Z.leb_le H2%Z.leb_le].
    lia.
Qed.

(** X7. Saving a message leaves the others as they read: a message that
    [getMessage] returned for another sequence number before a
    successful [SaveMessage] is returned unchanged after it. *)
Theorem SaveMessage_keeps_other_messages
    (seqNum other : Z) (msg m : list byte) (st st' : fileStore) (w w' : world)
    (hb hh : handle)
    (Hbody : file_of Body st = Some hb)
    (Hheader : file_of Header st = Some hh)
    (Hdistinct : hname hb ≠ hname hh)
    (Hother : other ≠ seqNum)
    (Hw : faults w = [])
    (Hread : getMessage other st w = (Return (m, true, None), st, w))
    (Hok : SaveMessage seqNum msg st w = (Return None, st', w')) :
  getMessage other st' w' = (Return (m, true, None), st', w').
Proof.
  pose proof (SaveMessage_open _ _ _ _ _ _ _ Hbody Hok) as Hc.
  pose proof (SaveMessage_faults _ _ _ _ _ _ _ Hw Hok) as Hw'.
  destruct (SaveMessage_effects _ _ _ _ _ _ _ _ Hbody Hheader Hdistinct Hok)
    as (fb & fh & Hfb & Hfh & Hb & _ & _ & _ & Hoffs & _ & _ & Hnames & Hkeep).
  cbv zeta in Hb, Hoffs.
  destruct (Hkeep Body hb Hbody Hc) as (hb' & Hhb' & Nb' & Cb').
  rewrite (getMessage_nofault other st w hb Hw Hbody Hc), Hfb in Hread.
  injection Hread as Hread.
  rewrite (getMessage_nofault other st' w' hb' Hw' Hhb' Cb').
  rewrite Nb', Hb, Hoffs, lookup_insert_ne by done.
  pose proof (Hnames Body) as HN. cbn [fname_of] in HN. rewrite HN.
  destruct fb as [dfb durfb]. cbn [data] in *.
  by rewrite (read_outcome_appended _ _ _ _ _ _ _ Hread).
Qed.

(** X14. A range that ends at the largest integer has no last round:
    [seqNum <= endSeqNum] holds for every [seqNum], and [seqNum++] wraps
    around.  So [GetMessages(b, MaxInt64)] never returns a list of
    messages: however many rounds it is given, it is still running, or
    it has ended on a read error or a panic. *)
Theorem GetMessages_to_MaxInt64_never_succeeds
    (fuel : nat) (beginSeqNum : Z) (st : fileStore) (w : world)
    (msgs : list (list byte))
    (Hint : in_int beginSeqNum = true) :
  outcome_of (GetMessages fuel beginSeqNum int_max st w)
  ≠ Return (Some (msgs, None)).
Proof.
  unfold GetMessages. generalize (@nil (list byte)) as acc.
  revert beginSeqNum st w Hint.
  induction fuel as [|fuel IH]; intros seqNum st w Hint acc; [done|].
  cbn [GetMessages_loop].
  pose proof Hint as Hint'. unfold in_int in Hint'.
  apply andb_prop in Hint' as [_ Hhi]. rewrite Hhi.
  unfold bind. destruct (getMessage seqNum st w) as [[[[[m found] err]|] st1] w1];
    [|done].
  destruct err as [e|]; [done|].
  apply IH.
  unfold in_int, wrap_int, int_min, int_max.
  pose proof (Z.mod_pos_bound (seqNum + 1 + 2 ^ 63) (2 ^ 64) ltac:(lia)).
  apply andb_true_intro; split; apply Z.leb_le; lia.
Qed.



(** ** A store on a directory without its files, and a store reopened *)

Section fresh.

Lemma Now_clock w w' :
  clock w = clock w' →
  (Now w).1 = (Now w').1 ∧ clock (Now w).2 = clock (Now w').2.
Proof.
  intros H. unfold Now. rewrite H.
  destruct (clock w') eqn:E; cbn [fst snd clock]; [|done].
  split; [done|congruence].
Qed.

Lemma removeFile_nofault fname st w :
  faults w = [] →
  ∃ w', removeFile fname st w = (Return None, st, w')
        ∧ fs w' = delete fname (fs w) ∧ clock w' = clock w ∧ faults w' = [].
Proof.
  intros Hw. unfold removeFile, bind, sys, ret, Remove.
  rewrite (draw_nofault _ Hw).
  destruct (fs w !! fname) eqn:Hf.
  - eexists. split; [reflexivity|]. done.
  - exists w. cbn [IsNotExist negb]. split; [reflexivity|].
    split; [|done]. symmetry. by apply delete_id.
Qed.

(** [Refresh] on a store whose files are nil when none of its five files
    is there and no call fails. *)
Lemma Refresh_fresh st w :
  faults w = [] → (∀ k, file_of k st = None) →
  (∀ k k', k ≠ k' → fname_of k st ≠ fname_of k' st) →
  (∀ k, fs w !! fname_of k st = None) →
  in_time (Now w).1 = true →
  ∃ st' w',
    Refresh st w = (Return None, st', w')
    ∧ cache st' = MemoryStore.Reset (Now w).1
    ∧ offsets st' = offsets st ∧ sessionID st' = sessionID st
    ∧ (∀ k, fname_of k st' = fname_of k st)
    ∧ (∀ k, ∃ h, file_of k st' = Some h ∧ hname h = fname_of k st
                 ∧ hclosed h = false)
    ∧ fs w' !! bodyFname st = Some {| data := []; durable := [] |}
    ∧ fs w' !! headerFname st = Some {| data := []; durable := [] |}
    ∧ fs w' !! sessionFname st
      = Some {| data := fmt_d (Now w).1; durable := fmt_d (Now w).1 |}
    ∧ fs w' !! senderSeqNumsFname st
      = Some {| data := fmt_019d 1; durable := fmt_019d 1 |}
    ∧ fs w' !! targetSeqNumsFname st
      = Some {| data := fmt_019d 1; durable := fmt_019d 1 |}
    ∧ (∀ name, (∀ k, name ≠ fname_of k st) → fs w' !! name = fs w !! name)
    ∧ faults w' = [].
Proof.
  intros Hw Hnil Hd Hnone Htime.
  destruct (Now_world w) as [Hfs1 Hw1]. rewrite Hw in Hw1.
  pose proof (Hnone Body) as HB. pose proof (Hnone Header) as HH.
  pose proof (Hnone Session) as HS. pose proof (Hnone SenderSeqNums) as HSn.
  pose proof (Hnone TargetSeqNums) as HTn.
  rewrite <- Hfs1 in HB, HH, HS, HSn, HTn.
  pose proof (Hnil Body) as NB. pose proof (Hnil Header) as NH.
  pose proof (Hnil Session) as NS. pose proof (Hnil SenderSeqNums) as NSn.
  pose proof (Hnil TargetSeqNums) as NTn.
  destruct st as [sid c offs bn hn sn snn tnn bf hf sf snf tnf].
  cbn [fname_of file_of bodyFname headerFname sessionFname senderSeqNumsFname
    targetSeqNumsFname bodyFile headerFile sessionFile senderSeqNumsFile
    targetSeqNumsFile] in HB, HH, HS, HSn, HTn, NB, NH, NS, NSn, NTn.
  subst bf hf sf snf tnf.
  assert (MarshalText (Now w).1 = Ok (fmt_d (Now w).1)) as Hm
    by (unfold MarshalText; by rewrite Htime).
  do 2 eexists. split.
  { unfold Refresh.
    rewrite (bind_eq _ _ _ _ _ _ _ (cache_Reset_eq _ w)).
    erewrite check_eq; cycle 1.
    { apply Close_nofault; [exact Hw1|]. intros k h E. by destruct k. }
    erewrite bind_eq by (apply populateCache_nofault; exact Hw1).
    unfold populated_cache, scanned_offsets, disk_value.
    norm_store.
    rewrite HH, HS, HSn, HTn.
    rewrite bool_decide_eq_false_2 by (by intros [? ?]).
    cbv iota beta.
    erewrite check_eq by (apply open_missing; [exact Hw1 | exact HB]).
    norm_store.
    erewrite check_eq
      by (apply open_missing; [exact Hw1 | norm_world; lookups Hd; exact HH]).
    norm_store.
    erewrite check_eq
      by (apply open_missing; [exact Hw1 | norm_world; lookups Hd; exact HS]).
    norm_store.
    erewrite check_eq
      by (apply open_missing; [exact Hw1 | norm_world; lookups Hd; exact HSn]).
    norm_store.
    erewrite check_eq
      by (apply open_missing; [exact Hw1 | norm_world; lookups Hd; exact HTn]).
    norm_store. cbn [negb].
    erewrite check_eq; cycle 1.
    { eapply setSession_nofault;
        [exact Hw1 | reflexivity | reflexivity | | exact Hm].
      norm_world. cbn [hname]. lookups Hd. reflexivity. }
    norm_store.
    erewrite bind_eq by reflexivity.
    unfold SetNextSenderMsgSeqNum.
    erewrite bind_assoc. erewrite bind_eq by reflexivity.
    erewrite bind_eq; cycle 1.
    { eapply setSeqNum_nofault; [exact Hw1 | reflexivity | reflexivity |].
      norm_world. cbn [hname]. lookups Hd. reflexivity. }
    norm_store.
    erewrite bind_eq by reflexivity.
    unfold SetNextTargetMsgSeqNum.
    erewrite bind_assoc. erewrite bind_eq by reflexivity.
    erewrite bind_eq; cycle 1.
    { eapply setSeqNum_nofault; [exact Hw1 | reflexivity | reflexivity |].
      norm_world. cbn [hname]. lookups Hd. reflexivity. }
    norm_store. reflexivity. }
  cbv beta iota delta
    [NextSenderMsgSeqNum NextTargetMsgSeqNum CreationTime
     MemoryStore.NextSenderMsgSeqNum MemoryStore.NextTargetMsgSeqNum
     MemoryStore.CreationTime MemoryStore.SetNextSenderMsgSeqNum
     MemoryStore.SetNextTargetMsgSeqNum MemoryStore.Reset
     MemoryStore.senderMsgSeqNum MemoryStore.targetMsgSeqNum
     MemoryStore.creationTime cache].
  rewrite !write_at_start by (simpl; lia).
  norm_world. norm_store.
  split; [reflexivity|]. split; [reflexivity|]. split; [reflexivity|].
  split; [by intros []|].
  split.
  { intros k. destruct k; eexists; (split; [reflexivity|]); split; reflexivity. }
  split; [by lookups Hd|]. split; [by lookups Hd|]. split; [by lookups Hd|].
  split; [by lookups Hd|]. split; [by lookups Hd|].
  split; [|exact Hw1].
  intros name Hname.
  pose proof (Hname Body) as N1. pose proof (Hname Header) as N2.
  pose proof (Hname Session) as N3. pose proof (Hname SenderSeqNums) as N4.
  pose proof (Hname TargetSeqNums) as N5.
  cbn [fname_of bodyFname headerFname sessionFname senderSeqNumsFname
    targetSeqNumsFname] in N1, N2, N3, N4, N5.
  cbn [hname]. rewrite !lookup_insert_ne by congruence. by rewrite Hfs1.
Qed.

End fresh.

Section reopening.

Lemma reopen_same st w dirname :
  synced st w → faults w = [] →
  (∀ k, fname_of k st = fname_of k (blank_store (sessionID st) dirname)) →
  reopened st w dirname (same_observations st w).
Proof.
  intros Hsync Hw Hnames.
  exists (set_files None None None None None st), w.
  destruct (Refresh_same_observations st w (blank_store (sessionID st) dirname)
              Hsync Hw) as (st2 & w2 & E & Hobs).
  { by intros []. }
  { intros k. by rewrite Hnames. }
  { by right. }
  exists st2, w2. split; [|split; [|done]].
  - apply Close_nofault; [done|]. intros k h Hh.
    destruct (synced_open _ _ Hsync k) as (h' & Hh' & _ & Hc). congruence.
  - unfold newFileStore, MkdirAll. rewrite (draw_nofault _ Hw), E. done.
Qed.

Lemma setSeqNum_faults k n st w r st' w' :
  faults w = [] → setSeqNum k n st w = (r, st', w') → faults w' = [].
Proof.
  intros Hw Hok. pose proof (quiet_setSeqNum k n st w) as H.
  unfold no_new_fault, world_of in H. rewrite Hok in H. by apply H.
Qed.

Lemma setSeqNum_cache k n st w r st' w' :
  setSeqNum k n st w = (r, st', w') →
  cache st' = cache st ∧ sessionID st' = sessionID st
  ∧ ∀ k', fname_of k' st' = fname_of k' st.
Proof.
  intros Hok. pose proof (keeps_setSeqNum k n st w) as (H1 & H2 & _ & H4).
  unfold store_of in *. rewrite Hok in *. done.
Qed.

End reopening.

(** X11. A sequence number that was set is the one a reopened store
    has.  From a store in sync with its files whose two counter files
    are 19 bytes long, no call failing: after a setter that returns nil,
    for a value that [%019d] writes in 19 bytes (above [-10^18] and
    below [10^19]), [Close] and [newFileStore] on the same session and
    directory give a store whose next sequence number is the value set
    (the value plus one for the increments), and whose other number is
    the one the store had. *)
Theorem sequence_numbers_survive_reopen
    (st : fileStore) (w : world) (dirname : string)
    (Hsync : synced st w) (Hcanon : counters_canonical st w)
    (Hw : faults w = [])
    (Hnames : ∀ k, fname_of k st
                   = fname_of k (blank_store (sessionID st) dirname)) :
  (∀ next st' w', in_int next = true → fits_width next →
     SetNextSenderMsgSeqNum next st w = (Return None, st', w') →
     reopened st' w' dirname (λ st2 _,
       NextSenderMsgSeqNum st2 = next
       ∧ NextTargetMsgSeqNum st2 = NextTargetMsgSeqNum st))
  ∧ (∀ next st' w', in_int next = true → fits_width next →
       SetNextTargetMsgSeqNum next st w = (Return None, st', w') →
       reopened st' w' dirname (λ st2 _,
         NextTargetMsgSeqNum st2 = next
         ∧ NextSenderMsgSeqNum st2 = NextSenderMsgSeqNum st))
  ∧ (∀ st' w', fits_width (wrap_int (NextSenderMsgSeqNum st + 1)) →
       IncrNextSenderMsgSeqNum st w = (Return None, st', w') →
       reopened st' w' dirname (λ st2 _,
         NextSenderMsgSeqNum st2 = wrap_int (NextSenderMsgSeqNum st + 1)
         ∧ NextTargetMsgSeqNum st2 = NextTargetMsgSeqNum st))
  ∧ (∀ st' w', fits_width (wrap_int (NextTargetMsgSeqNum st + 1)) →
       IncrNextTargetMsgSeqNum st w = (Return None, st', w') →
       reopened st' w' dirname (λ st2 _,
         NextTargetMsgSeqNum st2 = wrap_int (NextTargetMsgSeqNum st + 1)
         ∧ NextSenderMsgSeqNum st2 = NextSenderMsgSeqNum st)).
Proof.
  destruct (setters_synced st w Hsync Hcanon) as (S1 & S2 & S3 & S4).
  assert (∀ k n c st' w' (P : fileStore → world → Prop),
            setSeqNum k n (set_cache c st) w = (Return None, st', w') →
            synced st' w' →
            (∀ st2 w2, same_observations st' w' st2 w2 → cache st' = c →
                       P st2 w2) →
            reopened st' w' dirname P) as Hreopen.
  { intros k n c st' w' P Hok Hs HP.
    pose proof (setSeqNum_faults _ _ _ _ _ _ _ Hw Hok) as Hw'.
    destruct (setSeqNum_cache _ _ _ _ _ _ _ Hok) as (Hc & Hsid & Hn).
    destruct (reopen_same st' w' dirname Hs Hw') as (st1 & w1 & st2 & w2 & E1 & E2 & Hobs).
    { intros k'. rewrite Hn, Hsid. apply (Hnames k'). }
    exists st1, w1, st2, w2. split; [done|]. split; [done|].
    apply HP; [done|]. exact Hc. }
  split; [|split; [|split]].
  - intros n st' w' Hn Hf Hok. pose proof (S1 n st' w' Hn Hf Hok) as [Hs _].
    unfold SetNextSenderMsgSeqNum, bind, modify in Hok.
    apply (Hreopen _ _ _ _ _ _ Hok Hs).
    intros st2 w2 (O1 & O2 & _) Hc. rewrite O1, O2.
    unfold NextSenderMsgSeqNum, NextTargetMsgSeqNum. by rewrite Hc.
  - intros n st' w' Hn Hf Hok. pose proof (S2 n st' w' Hn Hf Hok) as [Hs _].
    unfold SetNextTargetMsgSeqNum, bind, modify in Hok.
    apply (Hreopen _ _ _ _ _ _ Hok Hs).
    intros st2 w2 (O1 & O2 & _) Hc. rewrite O1, O2.
    unfold NextSenderMsgSeqNum, NextTargetMsgSeqNum. by rewrite Hc.
  - intros st' w' Hf Hok. pose proof (S3 st' w' Hf Hok) as [Hs _].
    unfold IncrNextSenderMsgSeqNum, bind, modify, get in Hok.
    apply (Hreopen _ _ _ _ _ _ Hok Hs).
    intros st2 w2 (O1 & O2 & _) Hc. rewrite O1, O2.
    unfold NextSenderMsgSeqNum, NextTargetMsgSeqNum. by rewrite Hc.
  - intros st' w' Hf Hok. pose proof (S4 st' w' Hf Hok) as [Hs _].
    unfold IncrNextTargetMsgSeqNum, bind, modify, get in Hok.
    apply (Hreopen _ _ _ _ _ _ Hok Hs).
    intros st2 w2 (O1 & O2 & _) Hc. rewrite O1, O2.
    unfold NextSenderMsgSeqNum, NextTargetMsgSeqNum. by rewrite Hc.
Qed.

(** X12. A saved message is the one a reopened store returns: from a
    store in sync with its files, no call failing, after a
    [SaveMessage(seqNum, msg)] that returns nil, with [seqNum] below the
    largest integer and the body file within the range of [int], [Close]
    and [newFileStore] on the same session and directory give a store
    whose [GetMessages(seqNum, seqNum)] returns exactly [msg]. *)
Theorem saved_message_survives_reopen
    (seqNum : Z) (msg : list byte) (st st' : fileStore) (w w' : world)
    (dirname : string) (fb : file) (fuel : nat)
    (Hsync : synced st w)
    (Hw : faults w = [])
    (Hnames : ∀ k, fname_of k st
                   = fname_of k (blank_store (sessionID st) dirname))
    (Hint : in_int seqNum = true) (Hmax : seqNum < int_max)
    (Hfb : fs w !! bodyFname st = Some fb)
    (Hlen : in_int (Z.of_nat (length (data fb) + length msg)) = true)
    (Hok : SaveMessage seqNum msg st w = (Return None, st', w')) :
  reopened st' w' dirname (λ st2 w2,
    outcome_of (GetMessages (S (S fuel)) seqNum seqNum st2 w2)
    = Return (Some ([msg], None))).
Proof.
  pose proof (SaveMessage_keeps_synced _ _ _ _ _ _ _ Hsync Hint Hfb Hlen Hok)
    as Hs.
  pose proof (SaveMessage_faults _ _ _ _ _ _ _ Hw Hok) as Hw'.
  destruct (synced_open _ _ Hsync Body) as (hb & Hhb & Nb & Cb).
  destruct (synced_open _ _ Hsync Header) as (hh & Hhh & Nh & Ch).
  assert (hname hb ≠ hname hh) as Hne.
  { rewrite Nb, Nh. by apply (synced_names _ _ Hsync Body Header). }
  destruct (SaveMessage_effects _ _ _ _ _ _ _ _ Hhb Hhh Hne Hok)
    as (_ & _ & _ & _ & _ & _ & _ & _ & _ & _ & Hsid & Hn & _).
  destruct (reopen_same st' w' dirname Hs Hw')
    as (st1 & w1 & st2 & w2 & E1 & E2 & (_ & _ & _ & Hobs)).
  { intros k. rewrite Hn, Hsid. apply Hnames. }
  exists st1, w1, st2, w2. split; [done|]. split; [done|].
  rewrite Hobs.
  pose proof (SaveMessage_read_back _ _ _ _ _ _ _ _ Hhb Hhh Hne Hok Hw') as Hr.
  unfold GetMessages, outcome_of. cbn [GetMessages_loop].
  rewrite Z.leb_refl, (bind_eq _ _ _ _ _ _ _ Hr). cbv beta iota.
  rewrite wrap_int_id.
  - destruct (Z.leb_spec (seqNum + 1) seqNum); [lia|]. reflexivity.
  - unfold in_int in Hint. apply andb_prop in Hint as [H1%Z.leb_le H2%Z.leb_le].
    lia.
Qed.

(** ** Reset *)

(** X8. [Reset] on a store whose files are open or nil, when no call
    fails: it returns nil; both sequence numbers are 1 and the creation
    time is the second reading of the clock ([Reset] and the [Refresh]
    in it each reset the cache); the body and header files are empty,
    the counter files hold 1 and the session file the creation time;
    every other file is as it was.  The index is the one the store had:
    nothing on the way empties it. *)
Theorem Reset_starts_files_over
    (st : fileStore) (w : world)
    (Hw : faults w = [])
    (Hopen : ∀ k h, file_of k st = Some h → hclosed h = false)
    (Hnames : ∀ k k', k ≠ k' → fname_of k st ≠ fname_of k' st)
    (Htime : in_time (Now (Now w).2).1 = true) :
  ∃ st' w',
    Reset st w = (Return None, st', w')
    ∧ NextSenderMsgSeqNum st' = 1 ∧ NextTargetMsgSeqNum st' = 1
    ∧ CreationTime st' = (Now (Now w).2).1
    ∧ offsets st' = offsets st
    ∧ fs w' !! bodyFname st = Some {| data := []; durable := [] |}
    ∧ fs w' !! headerFname st = Some {| data := []; durable := [] |}
    ∧ disk_value UnmarshalText (sessionFname st) w' = Some (CreationTime st')
    ∧ disk_value Atoi (senderSeqNumsFname st) w' = Some 1
    ∧ disk_value Atoi (targetSeqNumsFname st) w' = Some 1
    ∧ (∀ name, (∀ k, name ≠ fname_of k st) → fs w' !! name = fs w !! name).
Proof.
  destruct (Now_world w) as [Hfs1 Hw1]. rewrite Hw in Hw1.
  set (st1 := set_cache (MemoryStore.Reset (Now w).1) st).
  set (st2 := set_files None None None None None st1).
  assert (∀ k, fname_of k st2 = fname_of k st) as Hn2 by (by intros []).
  destruct (removeFile_nofault (bodyFname st2) st2 _ Hw1)
    as (wa & Ea & Fa & Ca & Wa).
  destruct (removeFile_nofault (headerFname st2) st2 _ Wa)
    as (wb & Eb & Fb & Cb & Wb).
  destruct (removeFile_nofault (sessionFname st2) st2 _ Wb)
    as (wc & Ec & Fc & Cc & Wc).
  destruct (removeFile_nofault (senderSeqNumsFname st2) st2 _ Wc)
    as (wd & Ed & Fd & Cd & Wd).
  destruct (removeFile_nofault (targetSeqNumsFname st2) st2 _ Wd)
    as (we & Ee & Fe & Ce & We).
  assert (fs we
          = delete (targetSeqNumsFname st)
              (delete (senderSeqNumsFname st)
                 (delete (sessionFname st)
                    (delete (headerFname st)
                       (delete (bodyFname st) (fs w)))))) as Hfe.
  { rewrite Fe, Fd, Fc, Fb, Fa, Hfs1. reflexivity. }
  assert (clock we = clock (Now w).2) as Hce by congruence.
  destruct (Now_clock _ _ Hce) as [Hnow _].
  destruct (Refresh_fresh st2 we We) as
    (st' & w' & ER & Hc & Ho & Hsid & Hn & Hop & HB & HH & HS & HSn & HTn
     & Hrest & Hw').
  { by intros []. }
  { intros k k' Hk. rewrite !Hn2. by apply Hnames. }
  { intros k. rewrite Hn2, Hfe.
    destruct k; cbn [fname_of];
      repeat (rewrite lookup_delete_ne by names_ne Hnames);
      apply lookup_delete_eq. }
  { by rewrite Hnow. }
  exists st', w'. split.
  { unfold Reset.
    rewrite (bind_eq _ _ _ _ _ _ _ (cache_Reset_eq st w)).
    erewrite check_eq; cycle 1.
    { apply Close_nofault; [exact Hw1|]. intros k h. apply (Hopen k h). }
    fold st1. fold st2.
    rewrite (bind_eq _ _ st2 _ st2 st2 _ eq_refl).
    rewrite (check_eq _ _ _ _ _ _ Ea), (check_eq _ _ _ _ _ _ Eb),
      (check_eq _ _ _ _ _ _ Ec), (check_eq _ _ _ _ _ _ Ed),
      (check_eq _ _ _ _ _ _ Ee).
    exact ER. }
  unfold NextSenderMsgSeqNum, NextTargetMsgSeqNum, CreationTime, disk_value.
  rewrite Hc, Hnow.
  change (bodyFname st2) with (bodyFname st) in HB.
  change (headerFname st2) with (headerFname st) in HH.
  change (sessionFname st2) with (sessionFname st) in HS.
  change (senderSeqNumsFname st2) with (senderSeqNumsFname st) in HSn.
  change (targetSeqNumsFname st2) with (targetSeqNumsFname st) in HTn.
  rewrite HS, HSn, HTn, Hnow. cbn [data].
  split; [reflexivity|]. split; [reflexivity|]. split; [reflexivity|].
  split; [exact Ho|]. split; [exact HB|]. split; [exact HH|].
  split.
  { apply UnmarshalText_MarshalText. unfold MarshalText.
    cbn [MemoryStore.CreationTime MemoryStore.Reset MemoryStore.creationTime].
    by rewrite Htime. }
  split; [by apply Atoi_fmt_019d|].
  split; [by apply Atoi_fmt_019d|].
  intros name Hname. rewrite (Hrest name).
  - rewrite Hfe.
    pose proof (Hname Body) as N1. pose proof (Hname Header) as N2.
    pose proof (Hname Session) as N3. pose proof (Hname SenderSeqNums) as N4.
    pose proof (Hname TargetSeqNums) as N5.
    cbn [fname_of] in N1, N2, N3, N4, N5.
    by rewrite !lookup_delete_ne by congruence.
  - intros k. rewrite Hn2. apply Hname.
Qed.

(** ** Creating a store, and the store in sync with its files *)

(** X13. [Create] reads the directory from the setting [FileStorePath]
    and fails without touching anything when the setting is missing.
    On a directory that has none of the five files, with no call
    failing, it returns a store in sync with the files it has created:
    both sequence numbers are 1 in the store and in the counter files,
    the creation time is the reading of the clock, and the index is
    empty. *)
Theorem Create_on_empty_directory
    (sessionID : string) (sessionSettings : gmap string string) (w : world)
    (Hw : faults w = [])
    (Htime : in_time (Now w).1 = true) :
  (sessionSettings !! FileStorePath = None →
   Create sessionID sessionSettings w
   = (inl (SettingNotFound sessionID FileStorePath), w))
  ∧ (∀ dirname,
       sessionSettings !! FileStorePath = Some dirname →
       (∀ k, fs w !! fname_of k (blank_store sessionID dirname) = None) →
       ∃ st w',
         Create sessionID sessionSettings w = (inr (Return (Ok st)), w')
         ∧ synced st w' ∧ counters_canonical st w'
         ∧ NextSenderMsgSeqNum st = 1 ∧ NextTargetMsgSeqNum st = 1
         ∧ CreationTime st = (Now w).1 ∧ offsets st = ∅).
Proof.
  split.
  - intros Hnone. unfold Create. by rewrite Hnone.
  - intros dirname Hdir Hfresh. unfold Create. rewrite Hdir.
    destruct (newFileStore_fresh sessionID dirname w Hw Hfresh Htime)
      as (st & w' & E & Hs & Hc & _ & _ & _ & H1 & H2 & H3 & H4).
    exists st, w'. rewrite E. done.
Qed.

(** X17. The store stays in sync with its files: when the header file
    is the text of the lines that build the index, and the session file
    and the counter files parse to what the cache holds, the same is
    true after every [SaveMessage] and every setter that returns nil. *)
Theorem writes_keep_store_in_sync
    (st : fileStore) (w : world)
    (Hsync : synced st w) (Hcanon : counters_canonical st w) :
  (∀ seqNum msg fb st' w',
     in_int seqNum = true → fs w !! bodyFname st = Some fb →
     in_int (Z.of_nat (length (data fb) + length msg)) = true →
     SaveMessage seqNum msg st w = (Return None, st', w') →
     synced st' w' ∧ counters_canonical st' w')
  ∧ (∀ next st' w', in_int next = true → fits_width next →
       SetNextSenderMsgSeqNum next st w = (Return None, st', w') →
       synced st' w' ∧ counters_canonical st' w')
  ∧ (∀ next st' w', in_int next = true → fits_width next →
       SetNextTargetMsgSeqNum next st w = (Return None, st', w') →
       synced st' w' ∧ counters_canonical st' w')
  ∧ (∀ st' w', fits_width (wrap_int (NextSenderMsgSeqNum st + 1)) →
       IncrNextSenderMsgSeqNum st w = (Return None, st', w') →
       synced st' w' ∧ counters_canonical st' w')
  ∧ (∀ st' w', fits_width (wrap_int (NextTargetMsgSeqNum st + 1)) →
       IncrNextTargetMsgSeqNum st w = (Return None, st', w') →
       synced st' w' ∧ counters_canonical st' w').
Proof.
  split.
  - intros seqNum msg fb st' w' Hint Hfb Hlen Hok.
    by apply (SaveMessage_synced seqNum msg st w st' w' fb).
  - apply (setters_synced st w Hsync Hcanon).
Qed.

(** *** The hypotheses hold on the example runs *)

Section examples.

Lemma opened_names k k' :
  k ≠ k' → fname_of k opened.1 ≠ fname_of k' opened.1.
Proof.
  intros Hk. destruct k, k'; try (exfalso; apply Hk; reflexivity);
    vm_compute; discriminate.
Qed.

Lemma opened_synced : synced opened.1 opened.2 ∧ counters_canonical opened.1 opened.2.
Proof.
  destruct (newFileStore_fresh "S" "d" fresh_world) as
    (st & w' & E & Hs & Hc & _).
  - reflexivity.
  - intros k. destruct k; vm_compute; reflexivity.
  - vm_compute. reflexivity.
  - unfold opened. rewrite E. exact (conj Hs Hc).
Qed.

End examples.

Lemma Close_twice_witness :
  Close (store_of (Close opened.1 opened.2)) fresh_world
  = (Return None, store_of (Close opened.1 opened.2), fresh_world).
Proof.
  assert (Close opened.1 opened.2
          = (Return None, store_of (Close opened.1 opened.2),
             world_of (Close opened.1 opened.2))) as H
    by (vm_compute; reflexivity).
  exact (proj2 (proj2 (proj2 (Close_twice _ _ _ _ H))) fresh_world).
Defined.

Lemma Close_failure_is_permanent_witness :
  Close (store_of (Close opened.1 (second_call_fails opened.2))) fresh_world
  = (Return (Some ErrClosed),
     store_of (Close opened.1 (second_call_fails opened.2)), fresh_world).
Proof.
  assert (Close opened.1 (second_call_fails opened.2)
          = (Return (Some ErrIO),
             store_of (Close opened.1 (second_call_fails opened.2)),
             world_of (Close opened.1 (second_call_fails opened.2)))) as H
    by (vm_compute; reflexivity).
  exact (proj1 (Close_failure_is_permanent _ _ _ _ _ H fresh_world)).
Defined.

Lemma use_after_Close_witness :
  outcome_of (SetNextSenderMsgSeqNum 7 (store_of (Close opened.1 opened.2))
                fresh_world) = Panicked.
Proof.
  assert (Close opened.1 opened.2
          = (Return None, store_of (Close opened.1 opened.2),
             world_of (Close opened.1 opened.2))) as H
    by (vm_compute; reflexivity).
  exact (proj1 (use_after_Close _ _ _ _ H fresh_world 7 [])).
Defined.

(** *** Example runs of the properties above *)

Lemma SaveMessage_then_GetMessages_witness :
  GetMessages 2 1 1 (run (SaveMessage 1 (text "A")) opened).1
    (run (SaveMessage 1 (text "A")) opened).2
  = (Return (Some ([text "A"], None)),
     (run (SaveMessage 1 (text "A")) opened).1,
     (run (SaveMessage 1 (text "A")) opened).2).
Proof.
  eapply (SaveMessage_then_GetMessages 1 (text "A") opened.1 _ opened.2 _ _ _ 0).
  - vm_compute. reflexivity.
  - vm_compute. reflexivity.
  - vm_compute. discriminate.
  - vm_compute. reflexivity.
  - vm_compute. reflexivity.
  - vm_compute. reflexivity.
  - vm_compute. reflexivity.
Defined.

Lemma SaveMessage_keeps_other_messages_witness :
  getMessage 1 saved.1 saved.2 = (Return (text "A", true, None), saved.1, saved.2).
Proof.
  eapply (SaveMessage_keeps_other_messages 3 1 (text "C") (text "A")
            (run (SaveMessage 1 (text "A")) opened).1 saved.1
            (run (SaveMessage 1 (text "A")) opened).2 saved.2).
  - vm_compute. reflexivity.
  - vm_compute. reflexivity.
  - vm_compute. discriminate.
  - discriminate.
  - vm_compute. reflexivity.
  - vm_compute. reflexivity.
  - vm_compute. reflexivity.
Defined.

Lemma Reset_starts_files_over_witness :
  ∃ st' w', Reset saved.1 saved.2 = (Return None, st', w')
            ∧ NextSenderMsgSeqNum st' = 1
            ∧ offsets st' = offsets saved.1.
Proof.
  destruct (Reset_starts_files_over saved.1 saved.2)
    as (st' & w' & E & Hs & _ & _ & Ho & _).
  - vm_compute. reflexivity.
  - intros k h. destruct k; vm_compute; intros [= <-]; reflexivity.
  - intros k k' Hk. destruct k, k'; try (exfalso; apply Hk; reflexivity);
      vm_compute; discriminate.
  - vm_compute. reflexivity.
  - exists st', w'. exact (conj E (conj Hs Ho)).
Defined.

Lemma sequence_numbers_survive_reopen_witness :
  reopened (run (SetNextSenderMsgSeqNum 42) opened).1
    (run (SetNextSenderMsgSeqNum 42) opened).2 "d"
    (λ st2 _, NextSenderMsgSeqNum st2 = 42
              ∧ NextTargetMsgSeqNum st2 = NextTargetMsgSeqNum opened.1).
Proof.
  eapply (proj1 (sequence_numbers_survive_reopen opened.1 opened.2 "d"
                   (proj1 opened_synced) (proj2 opened_synced) _ _) 42).
  - vm_compute. reflexivity.
  - vm_compute. split; reflexivity.
  - vm_compute. reflexivity.
  Unshelve.
  + vm_compute. reflexivity.
  + intros k. destruct k; vm_compute; reflexivity.
Defined.

Lemma saved_message_survives_reopen_witness :
  reopened (run (SaveMessage 1 (text "A")) opened).1
    (run (SaveMessage 1 (text "A")) opened).2 "d"
    (λ st2 w2, outcome_of (GetMessages 2 1 1 st2 w2)
               = Return (Some ([text "A"], None))).
Proof.
  eapply (saved_message_survives_reopen 1 (text "A") opened.1 _ opened.2 _ "d"
            _ 0 (proj1 opened_synced)).
  - vm_compute. reflexivity.
  - intros k. destruct k; vm_compute; reflexivity.
  - vm_compute. reflexivity.
  - vm_compute. reflexivity.
  - vm_compute. reflexivity.
  - vm_compute. reflexivity.
  - vm_compute. reflexivity.
Defined.

Lemma Create_on_empty_directory_witness :
  ∃ st w',
    Create "S" settings_d fresh_world = (inr (Return (Ok st)), w')
    ∧ NextSenderMsgSeqNum st = 1 ∧ NextTargetMsgSeqNum st = 1.
Proof.
  destruct (proj2 (Create_on_empty_directory "S" settings_d fresh_world
                     eq_refl ltac:(vm_compute; reflexivity)) "d")
    as (st & w' & E & _ & _ & H1 & H2 & _).
  - vm_compute. reflexivity.
  - intros k. destruct k; vm_compute; reflexivity.
  - exists st, w'. exact (conj E (conj H1 H2)).
Defined.

Lemma GetMessages_to_MaxInt64_never_succeeds_witness :
  outcome_of (GetMessages 100 1 int_max saved.1 saved.2)
  ≠ Return (Some ([text "A"; text "C"], None)).
Proof.
  apply (GetMessages_to_MaxInt64_never_succeeds 100 1 saved.1 saved.2).
  vm_compute. reflexivity.
Defined.


Lemma writes_keep_store_in_sync_witness :
  synced (run (SaveMessage 1 (text "A")) opened).1
    (run (SaveMessage 1 (text "A")) opened).2.
Proof.
  assert (fs opened.2 !! bodyFname opened.1
          = Some {| data := []; durable := [] |}) as Hfb
    by (vm_compute; reflexivity).
  assert (SaveMessage 1 (text "A") opened.1 opened.2
          = (Return None, (run (SaveMessage 1 (text "A")) opened).1,
             (run (SaveMessage 1 (text "A")) opened).2)) as Hok
    by (vm_compute; reflexivity).
  exact (proj1 (proj1 (writes_keep_store_in_sync opened.1 opened.2
                         (proj1 opened_synced) (proj2 opened_synced))
                  1 (text "A") _ _ _ eq_refl Hfb eq_refl Hok)).
Defined.

(** ** A write that fails half-way *)

Section failures.

Lemma File_Write_failed bs h w e h' w' :
  File_Write bs h w = (Err e, h', w') → h' = h ∧ fs w' = fs w.
Proof.
  unfold File_Write. destruct (hclosed h); [by intros [= _ <- <-]|].
  destruct (draw w) as [b w1] eqn:Hd. destruct (draw_fs _ _ _ Hd) as [Hfs _].
  destruct b; [by intros [= _ <- <-]|].
  destruct (fs w1 !! hname h); [done|]. by intros [= _ <- <-].
Qed.

End failures.

(** X18. [SaveMessage] is not all or nothing.  It writes the header
    line and puts the entry into the index before it writes the body, so
    when the write to the body file fails, the error comes back with the
    line in the header file (not flushed) and the entry in the index,
    and the body as it was.  Reading that sequence number then fails
    with [io.EOF] when the message was not empty, since the entry points
    past the end of the body. *)
Theorem failed_body_write_leaves_index_entry
    (seqNum : Z) (msg : list byte) (st st' : fileStore) (w w' : world)
    (hb hh : handle) (cause : error)
    (Hbody : file_of Body st = Some hb)
    (Hheader : file_of Header st = Some hh)
    (Hdistinct : hname hb ≠ hname hh)
    (Hnames : bodyFname st ≠ headerFname st)
    (Hfail : SaveMessage seqNum msg st w
             = (Return (Some (Errorf "unable to write to file" (bodyFname st)
                                cause)), st', w')) :
  ∃ fb fh,
    fs w !! hname hb = Some fb ∧ fs w !! hname hh = Some fh
    ∧ let entry := {| offset := Z.of_nat (length (data fb));
                      size := Z.of_nat (length msg) |} in
      let line := header_line (seqNum, offset entry, size entry) in
      offsets st' = <[seqNum := entry]> (offsets st)
      ∧ fs w' !! hname hh
        = Some {| data := data fh ++ line; durable := durable fh |}
      ∧ fs w' !! hname hb = Some fb
      ∧ (faults w' = [] → msg ≠ [] →
         getMessage seqNum st' w'
         = (Return ([], true,
                    Some (Errorf "unable to read from file" (bodyFname st) EOF)),
            st', w')).
Proof.
  unfold SaveMessage, bind, get, ret, modify, on_file, on_file_err in Hfail.
  rewrite Hbody in Hfail.
  destruct (File_Seek true hb w) as [[r1 hb1] w1] eqn:E1.
  destruct r1 as [off|]; [|discriminate Hfail].
  rewrite file_of_set_file in Hfail. simpl in Hfail.
  simpl in Hheader. rewrite Hheader in Hfail.
  destruct (File_Seek true hh w1) as [[r2 hh1] w2] eqn:E2.
  destruct r2 as [off2|]; [|discriminate Hfail].
  simpl in Hfail.
  destruct (File_Write _ hh1 w2) as [[r3 hh2] w3] eqn:E3.
  destruct r3 as [n3|]; [|injection Hfail as Hfail _ _; congruence].
  simpl in Hfail.
  destruct (File_Write _ hb1 w3) as [[r4 hb2] w4] eqn:E4.
  destruct r4 as [n4|e4]; cycle 1.
  - simpl in Hfail. injection Hfail as <- <- <-.
    apply File_Seek_ok in E1 as (Hcb & Hfs1 & fb & Hfb & -> & ->).
    apply File_Seek_ok in E2 as (Hch & Hfs2 & fh & Hfh & -> & ->).
    apply File_Write_ok in E3 as (_ & fh' & Hfh' & Hfs3 & ->).
    apply File_Write_failed in E4 as (-> & Hfs4).
    cbn [hname hpos set_pos] in *.
    rewrite Hfs1 in Hfh.
    rewrite Hfs2, Hfs1, Hfh in Hfh'. injection Hfh' as <-.
    rewrite write_at_end in Hfs3.
    exists fb, fh. split; [done|]. split; [done|]. cbv zeta. cbn [offset size].
    assert (fs w4 !! hname hb = Some fb) as Hb4.
    { by rewrite Hfs4, Hfs3, lookup_insert_ne, Hfs2, Hfs1. }
    split; [reflexivity|].
    split; [by rewrite Hfs4, Hfs3, lookup_insert_eq|].
    split; [exact Hb4|].
    intros Hw4 Hmsg.
    erewrite getMessage_nofault; [|exact Hw4|reflexivity|exact Hcb].
    cbn [hname set_pos offsets set_offsets set_files bodyFname].
    rewrite lookup_insert_eq, Hb4.
    unfold read_outcome, read_at. cbn [size offset].
    destruct (Z.ltb_spec (Z.of_nat (length msg)) 0); [lia|].
    destruct (Z.ltb_spec (Z.of_nat (length (data fb))) 0); [lia|].
    rewrite !Nat2Z.id.
    destruct (length msg) eqn:Hl; [by destruct msg|].
    destruct (Nat.leb_spec (length (data fb) + S n) (length (data fb))); [lia|].
    reflexivity.
  - simpl in Hfail.
    destruct (File_Sync hb2 w4) as [[r5 hb3] w5] eqn:E5.
    destruct r5 as [e5|]; [discriminate Hfail|].
    simpl in Hfail.
    destruct (File_Sync hh2 w5) as [[r6 hh3] w6] eqn:E6.
    destruct r6 as [e6|]; discriminate Hfail.
Qed.

Lemma failed_body_write_leaves_index_entry_witness :
  offsets (store_of (SaveMessage 1 (text "A") opened.1 (fourth_call_fails opened.2)))
  = <[1 := {| offset := 0; size := 1 |}]> (offsets opened.1).
Proof.
  destruct (failed_body_write_leaves_index_entry 1 (text "A") opened.1
              (store_of (SaveMessage 1 (text "A") opened.1 (fourth_call_fails opened.2)))
              (fourth_call_fails opened.2)
              (world_of (SaveMessage 1 (text "A") opened.1 (fourth_call_fails opened.2)))
              {| hname := "d/S.body"; hpos := 0; hclosed := false |}
              {| hname := "d/S.header"; hpos := 0; hclosed := false |}
              ErrIO)
    as (fb & fh & Hfb & _ & Ho & _).
  - vm_compute. reflexivity.
  - vm_compute. reflexivity.
  - vm_compute. discriminate.
  - vm_compute. discriminate.
  - vm_compute. reflexivity.
  - cbv zeta in Ho. rewrite Ho.
    assert (fb = {| data := []; durable := [] |}) as ->.
    { vm_compute in Hfb. by injection Hfb as <-. }
    reflexivity.
Defined.

(** ** Rewriting in place, the header line, and a counter that does not parse *)

Section rewriting.

Lemma write_at_0 bs d : write_at 0 bs d = bs ++ drop (length bs) d.
Proof. unfold write_at. by rewrite take_0. Qed.

Lemma setSession_ok st w st' w' h :
  file_of Session st = Some h →
  setSession st w = (Return None, st', w') →
  ∃ f bs, fs w !! hname h = Some f
          ∧ MarshalText (CreationTime st) = Ok bs
          ∧ fs w' = <[hname h := {| data := write_at 0 bs (data f);
                                    durable := write_at 0 bs (data f) |}]> (fs w).
Proof.
  intros Hh H. unfold setSession, bind, get, ret, on_file, on_file_err in H.
  rewrite Hh in H.
  destruct (File_Seek false h w) as [[r1 h1] w1] eqn:E1.
  destruct r1 as [z1|]; [|discriminate H].
  fold (CreationTime st) in H.
  destruct (MarshalText (CreationTime st)) as [bs|] eqn:Hm; [|discriminate H].
  rewrite file_of_set_file, decide_True in H by done.
  destruct (File_Write _ h1 w1) as [[r2 h2] w2] eqn:E2.
  destruct r2 as [z2|]; [|discriminate H].
  rewrite file_of_set_file, decide_True in H by done.
  destruct (File_Sync h2 w2) as [[r3 h3] w3] eqn:E3.
  destruct r3 as [e3|]; [discriminate H|].
  injection H as <- <-.
  apply File_Seek_ok in E1 as (_ & Hfs1 & f & Hf & -> & _).
  apply File_Write_ok in E2 as (_ & f1 & Hf1 & Hfs2 & ->).
  apply File_Sync_ok in E3 as (_ & -> & f2 & Hf2 & Hfs3).
  cbn [hname hpos set_pos] in *.
  rewrite Hfs1, Hf in Hf1. injection Hf1 as <-.
  rewrite Hfs2, lookup_insert_eq in Hf2. injection Hf2 as <-.
  exists f, bs. split; [done|]. split; [done|].
  rewrite Hfs3, Hfs2, insert_insert_eq, Hfs1. done.
Qed.

End rewriting.

(** X19. The counter files and the session file are rewritten in place
    and never cut: [setSeqNum] and [setSession] write their text over
    the start of the file and leave what lies behind it.  After a call
    that returns nil the file is the new text followed by the old
    content beyond the length of that text, and all of it is flushed. *)
Theorem rewrites_leave_the_tail :
  (∀ k n st w st' w' h f,
     file_of k st = Some h → fs w !! hname h = Some f →
     setSeqNum k n st w = (Return None, st', w') →
     fs w' !! hname h
     = Some {| data := fmt_019d n ++ drop (length (fmt_019d n)) (data f);
               durable := fmt_019d n ++ drop (length (fmt_019d n)) (data f) |})
  ∧ (∀ st w st' w' h f,
       file_of Session st = Some h → fs w !! hname h = Some f →
       setSession st w = (Return None, st', w') →
       ∃ bs, MarshalText (CreationTime st) = Ok bs
             ∧ fs w' !! hname h
               = Some {| data := bs ++ drop (length bs) (data f);
                         durable := bs ++ drop (length bs) (data f) |}).
Proof.
  split.
  - intros k n st w st' w' h f Hh Hf Hok.
    destruct (setSeqNum_ok _ _ _ _ _ _ _ Hh Hok) as (f0 & Hf0 & Hfs & _).
    rewrite Hf in Hf0. injection Hf0 as <-.
    by rewrite Hfs, lookup_insert_eq, write_at_0.
  - intros st w st' w' h f Hh Hf Hok.
    destruct (setSession_ok _ _ _ _ _ Hh Hok) as (f0 & bs & Hf0 & Hm & Hfs).
    rewrite Hf in Hf0. injection Hf0 as <-.
    exists bs. split; [done|].
    by rewrite Hfs, lookup_insert_eq, write_at_0.
Qed.

(** X20. The line [SaveMessage] writes with ["%d,%d,%d\n"] is the line
    [populateCache] reads with the same format: for three numbers that
    fit Go's integers, one [Fscanf] on the line followed by anything
    gives the three numbers back and leaves what follows the line. *)
Theorem header_line_round_trip
    (seqNum offset size : Z) (rest : list byte)
    (Hseq : in_int seqNum = true) (Hoff : in_int offset = true)
    (Hsize : in_int size = true) :
  Fscanf_header (header_line (seqNum, offset, size) ++ rest)
  = Some ((seqNum, offset, size), rest).
Proof. by apply Fscanf_header_line. Qed.

Lemma header_line_round_trip_witness :
  Fscanf_header (header_line (7, 120, -3) ++ text "8,1")
  = Some ((7, 120, -3), text "8,1").
Proof.
  apply (header_line_round_trip 7 120 (-3) (text "8,1")); vm_compute; reflexivity.
Defined.

(** X21. A counter file that does not parse is no error for [Refresh]:
    the sequence number starts again at 1.  On a store whose files are
    nil, with the five files there, the session file holding a time and
    no call failing, [Refresh] returns nil; a counter whose file parses
    takes the value of the file, and a counter whose file does not
    parse (an empty file, say) is 1. *)
Theorem unreadable_counter_restarts_at_1
    (st : fileStore) (w : world) (t : Z)
    (Hw : faults w = [])
    (Hnil : ∀ k, file_of k st = None)
    (Hn1 : bodyFname st ≠ senderSeqNumsFname st)
    (Hn2 : bodyFname st ≠ targetSeqNumsFname st)
    (Hfiles : ∀ k, is_Some (fs w !! fname_of k st))
    (Htime : disk_value UnmarshalText (sessionFname st) w = Some t) :
  ∃ st' w',
    Refresh st w = (Return None, st', w')
    ∧ CreationTime st' = t
    ∧ NextSenderMsgSeqNum st'
      = default 1 (disk_value Atoi (senderSeqNumsFname st) w)
    ∧ NextTargetMsgSeqNum st'
      = default 1 (disk_value Atoi (targetSeqNumsFname st) w).
Proof.
  destruct (Refresh_reload st w t Hw Hnil Hn1 Hn2 Hfiles Htime)
    as (st' & w' & E & Hc & _).
  exists st', w'. split; [exact E|].
  unfold CreationTime, NextSenderMsgSeqNum, NextTargetMsgSeqNum.
  rewrite Hc. unfold populated_cache.
  change (sessionFname (set_cache _ st)) with (sessionFname st).
  change (senderSeqNumsFname (set_cache _ st)) with (senderSeqNumsFname st).
  change (targetSeqNumsFname (set_cache _ st)) with (targetSeqNumsFname st).
  rewrite Htime.
  destruct (disk_value Atoi (senderSeqNumsFname st) w);
    destruct (disk_value Atoi (targetSeqNumsFname st) w); done.
Qed.

Lemma unreadable_counter_restarts_at_1_witness :
  ∃ st' w',
    Refresh saved_with_empty_counter.1 saved_with_empty_counter.2
    = (Return None, st', w')
    ∧ NextSenderMsgSeqNum st' = 1.
Proof.
  destruct (unreadable_counter_restarts_at_1 saved_with_empty_counter.1
              saved_with_empty_counter.2 100)
    as (st' & w' & E & _ & Hs & _).
  - vm_compute. reflexivity.
  - intros k. destruct k; vm_compute; reflexivity.
  - vm_compute. discriminate.
  - vm_compute. discriminate.
  - intros k. destruct k; vm_compute; eexists; reflexivity.
  - vm_compute. reflexivity.
  - exists st', w'. split; [exact E|]. rewrite Hs. vm_compute. reflexivity.
Defined.
